(** * Holder aggregation and distribution metrics (wallet_tracker)

    Shallow embedding of the computational core of [scripts/pull-holders.js]
    (the Dune variant and its Moralis sibling): address normalisation, the
    per-row classification cascade, the per-chain aggregate, the cross-chain
    combiner and the metrics engine (top-N, Gini, standard deviation,
    histogram).

    JavaScript numbers are embedded as exact rationals extended with the
    three special values [NaN], [+Infinity] and [-Infinity].  Arithmetic on
    finite values is exact: the rounding of IEEE-754 doubles and the sign of
    zero are not part of the embedding. *)

From Stdlib Require Import List Bool Arith ZArith QArith Qround Qabs Lia Psatz.
From Stdlib Require Import Ascii String DecimalString ListSet Permutation Sorted.
From Stdlib Require Import Reals Qreals.
From Stdlib Require Import Floats Uint63.
Import ListNotations.

Local Open Scope Q_scope.

(** ** JavaScript numbers *)

Inductive jsnum : Type :=
| NaN
| NegInf
| Fin (q : Q)
| PosInf.

(** Results of [Math.sqrt]: the square root of a rational is a real. *)
Inductive jsreal : Type :=
| RNaN
| RFin (r : R)
| RPosInf.

Module JsNum.

Definition zero : jsnum := Fin 0.

Definition of_nat (n : nat) : jsnum := Fin (inject_Z (Z.of_nat n)).

Definition qltb (a b : Q) : bool := negb (Qle_bool b a).

(** [Number.isNaN]. *)
Definition isNaN (x : jsnum) : bool :=
  match x with NaN => true | _ => false end.

Definition isFinite (x : jsnum) : bool :=
  match x with Fin _ => true | _ => false end.

Definition neg (x : jsnum) : jsnum :=
  match x with
  | NaN => NaN
  | NegInf => PosInf
  | PosInf => NegInf
  | Fin q => Fin (- q)
  end.

(** [a + b] *)
Definition add (a b : jsnum) : jsnum :=
  match a, b with
  | NaN, _ | _, NaN => NaN
  | PosInf, NegInf | NegInf, PosInf => NaN
  | PosInf, _ | _, PosInf => PosInf
  | NegInf, _ | _, NegInf => NegInf
  | Fin x, Fin y => Fin (x + y)
  end.

(** [a - b] *)
Definition sub (a b : jsnum) : jsnum := add a (neg b).

(** Sign of a number as seen by multiplication and division:
    [Some true] negative, [Some false] positive, [None] zero. *)
Definition sign (q : Q) : option bool :=
  if Qeq_bool q 0 then None else Some (qltb q 0).

Definition signed_inf (negative : bool) : jsnum :=
  if negative then NegInf else PosInf.

(** [a * b] *)
Definition mul (a b : jsnum) : jsnum :=
  match a, b with
  | NaN, _ | _, NaN => NaN
  | Fin x, Fin y => Fin (x * y)
  | Fin x, PosInf | PosInf, Fin x =>
      match sign x with None => NaN | Some s => signed_inf s end
  | Fin x, NegInf | NegInf, Fin x =>
      match sign x with None => NaN | Some s => signed_inf (negb s) end
  | PosInf, PosInf | NegInf, NegInf => PosInf
  | PosInf, NegInf | NegInf, PosInf => NegInf
  end.

(** [a / b]; a zero divisor is taken as [+0]. *)
Definition div (a b : jsnum) : jsnum :=
  match a, b with
  | NaN, _ | _, NaN => NaN
  | Fin x, Fin y =>
      if Qeq_bool y 0
      then match sign x with None => NaN | Some s => signed_inf s end
      else Fin (x / y)
  | Fin _, (PosInf | NegInf) => Fin 0
  | PosInf, Fin y => signed_inf (qltb y 0)
  | NegInf, Fin y => signed_inf (negb (qltb y 0))
  | (PosInf | NegInf), (PosInf | NegInf) => NaN
  end.

(** [a < b] *)
Definition ltb (a b : jsnum) : bool :=
  match a, b with
  | NaN, _ | _, NaN => false
  | _, NegInf => false
  | NegInf, _ => true
  | PosInf, _ => false
  | Fin _, PosInf => true
  | Fin x, Fin y => qltb x y
  end.

(** [a <= b] *)
Definition leb (a b : jsnum) : bool :=
  match a, b with
  | NaN, _ | _, NaN => false
  | NegInf, _ => true
  | _, PosInf => true
  | _, NegInf => false
  | PosInf, _ => false
  | Fin x, Fin y => Qle_bool x y
  end.

(** [a > b] and [a >= b] *)
Definition gtb (a b : jsnum) : bool := ltb b a.
Definition geb (a b : jsnum) : bool := leb b a.

(** [a === b] on numbers. *)
Definition strict_eq (a b : jsnum) : bool :=
  match a, b with
  | NegInf, NegInf | PosInf, PosInf => true
  | Fin x, Fin y => Qeq_bool x y
  | _, _ => false
  end.

(** Truthiness of a number: [0] and [NaN] are falsy. *)
Definition truthy (x : jsnum) : bool :=
  match x with
  | NaN => false
  | Fin q => negb (Qeq_bool q 0)
  | _ => true
  end.

(** [x || d] on numbers. *)
Definition or_default (x d : jsnum) : jsnum := if truthy x then x else d.

(** [x ** 2] *)
Definition square (x : jsnum) : jsnum := mul x x.

(** [Math.sqrt(x)] *)
Definition msqrt (x : jsnum) : jsreal :=
  match x with
  | NaN | NegInf => RNaN
  | PosInf => RPosInf
  | Fin q => if qltb q 0 then RNaN else RFin (R_sqrt.sqrt (Q2R q))
  end.

End JsNum.

Arguments JsNum.add : simpl never.
Arguments JsNum.sub : simpl never.
Arguments JsNum.mul : simpl never.
Arguments JsNum.div : simpl never.
Arguments JsNum.ltb : simpl never.
Arguments JsNum.leb : simpl never.
Arguments JsNum.gtb : simpl never.
Arguments JsNum.geb : simpl never.
Arguments JsNum.strict_eq : simpl never.
Arguments JsNum.of_nat : simpl never.

Declare Scope js_scope.
Delimit Scope js_scope with js.
Bind Scope js_scope with jsnum.
Infix "+" := JsNum.add : js_scope.
Infix "-" := JsNum.sub : js_scope.
Infix "*" := JsNum.mul : js_scope.
Infix "/" := JsNum.div : js_scope.
Infix "<?" := JsNum.ltb (at level 70) : js_scope.
Infix "<=?" := JsNum.leb (at level 70) : js_scope.
Infix ">?" := JsNum.gtb (at level 70) : js_scope.
Infix ">=?" := JsNum.geb (at level 70) : js_scope.
Infix "===" := JsNum.strict_eq (at level 70) : js_scope.

(** ** Strings *)

Local Open Scope string_scope.

(** [String.prototype.toLowerCase], on the ASCII letters. *)
Definition lower_ascii (c : ascii) : ascii :=
  let n := nat_of_ascii c in
  if ((65 <=? n) && (n <=? 90))%nat then ascii_of_nat (n + 32) else c.

Fixpoint toLowerCase (s : string) : string :=
  match s with
  | EmptyString => EmptyString
  | String c rest => String (lower_ascii c) (toLowerCase rest)
  end.

(** [s.startsWith(p)] *)
Definition startsWith (p s : string) : bool := String.prefix p s.

(** [s.slice(k)] for a non-negative [k]. *)
Fixpoint slice (k : nat) (s : string) : string :=
  match k, s with
  | O, _ => s
  | S k', EmptyString => EmptyString
  | S k', String _ rest => slice k' rest
  end.

(** A backslash followed by [c]. *)
Definition backslash (c : ascii) : string :=
  String (ascii_of_nat 92) (String c EmptyString).

(** [normalizeAddress(value)]: [None] stands for [null], and for a [value]
    that is [null], [undefined] or absent. *)
Definition normalizeAddress (value : option string) : option string :=
  match value with
  | None => None
  | Some EmptyString => None
  | Some raw =>
      if startsWith "0x" raw || startsWith "0X" raw then
        Some (toLowerCase raw)
      else if startsWith (backslash "x") raw || startsWith (backslash "X") raw
      then Some ("0x" ++ toLowerCase (slice 2 raw))
      else Some ("0x" ++ toLowerCase raw)
  end.

(** ** [Array.prototype.sort] with a comparator

    The sort is stable; a comparator result that is positive moves the
    first argument behind the second, and [NaN] counts as [0].  For a
    comparator that is not a consistent order the result of the source is
    implementation-defined; the embedding then gives the stable insertion
    order. *)

Section Sort.
Context {A : Type} (cmp : A -> A -> jsnum).

Fixpoint sort_insert (x : A) (l : list A) : list A :=
  match l with
  | [] => [x]
  | y :: l' =>
      if (cmp x y >? JsNum.zero)%js then y :: sort_insert x l' else x :: y :: l'
  end.

Definition js_sort (l : list A) : list A := fold_right sort_insert [] l.
End Sort.

(** ** Data model *)

Record Holder : Type := {
  address : string;
  balance : jsnum;
  chain : string
}.

(** One [metrics.topN] entry; [top_balance] is its [balance] key. *)
Record TopN : Type := {
  count : nat;
  top_balance : jsnum;
  percentage : string
}.

Record Bracket : Type := {
  bmin : jsnum;
  bmax : jsnum;
  blabel : string
}.

(** One histogram entry; keys [label], [count], [totalBalance]. *)
Record Bucket : Type := {
  bucket_label : string;
  bucket_count : nat;
  totalBalance : jsnum
}.

(** The [metrics] object; [topN] holds the keys [top10] ... [top100] in the
    order they are written. *)
Record MetricsReport : Type := {
  topN : list (nat * TopN);
  gini : jsnum;
  stdDev : jsreal;
  distribution : list Bucket
}.

(** A plain object with string keys, in the order of [Object.entries]. *)
Definition jsobject (V : Type) : Type := list (string * V).

(** The value returned by [processChain], [fetchChainHolders] and
    [buildCombinedDataset]. *)
Record ChainAggregate : Type := {
  key : string;
  label : string;
  holders : list Holder;
  totalRetailSupply : jsnum;
  retailHolderCount : nat;
  excludedAddresses : list string;
  excludedBalances : jsobject jsnum;
  totalProcessedByChain : jsobject jsnum;
  metrics : MetricsReport
}.

(** The module-level constants of a script, with the two configuration
    files it reads. *)
Record Config : Type := {
  RETAIL_THRESHOLD : jsnum;
  MEGA_HOLDER_THRESHOLD : jsnum;
  exclusionSet : set string;
  chainsConfig : jsobject (option string)
}.

(** [new Set(JSON.parse(...).map((addr) => addr.toLowerCase()))] *)
Definition mkExclusionSet (exclusions : list string) : set string :=
  fold_left (fun s addr => set_add string_dec addr s)
            (map toLowerCase exclusions) (empty_set string).

(** [scripts/pull-holders.js], lines 8-9. *)
Definition dune_config (exclusions : list string)
    (chains : jsobject (option string)) : Config :=
  {| RETAIL_THRESHOLD := Fin 0;
     MEGA_HOLDER_THRESHOLD := Fin 20000000000;
     exclusionSet := mkExclusionSet exclusions;
     chainsConfig := chains |}.

(** The Moralis variant of the script, lines 8-9. *)
Definition moralis_config (exclusions : list string)
    (chains : jsobject (option string)) : Config :=
  {| RETAIL_THRESHOLD := Fin 1000;
     MEGA_HOLDER_THRESHOLD := Fin 20000000000;
     exclusionSet := mkExclusionSet exclusions;
     chainsConfig := chains |}.

(** A row of the Dune result.  A field holds [None] when it is [null],
    [undefined] or absent; a present balance field holds the number that
    [Number(...)] makes of it. *)
Record DuneRow : Type := {
  row_address : option string;
  telcoin_balance : option jsnum;
  amount : option jsnum
}.

(** An owner of the Moralis result; a present balance field holds the
    number that [parseFloat(...)] makes of it. *)
Record Owner : Type := {
  owner_address : option string;
  owner_address_alt : option string;
  balance_formatted : option jsnum;
  owner_balance : option jsnum
}.

(** [a ?? b] *)
Definition nullish {V : Type} (a : option V) (b : V) : V :=
  match a with Some v => v | None => b end.

(** [!s] for a string. *)
Definition str_falsy (s : string) : bool :=
  match s with EmptyString => true | _ => false end.

(** [a || b] for an optional string field and a string. *)
Definition str_or (a : option string) (b : string) : string :=
  match a with
  | Some s => if str_falsy s then b else s
  | None => b
  end.

(** ** Plain objects used as maps *)

Fixpoint obj_get {V : Type} (k : string) (o : jsobject V) : option V :=
  match o with
  | [] => None
  | (k', v) :: o' => if string_dec k k' then Some v else obj_get k o'
  end.

Fixpoint obj_set {V : Type} (k : string) (v : V) (o : jsobject V) : jsobject V :=
  match o with
  | [] => [(k, v)]
  | (k', v') :: o' =>
      if string_dec k k' then (k', v) :: o' else (k', v') :: obj_set k v o'
  end.

(** ** Metrics engine *)

(** [values.reduce((sum, value) => sum + value, 0)] *)
Definition sum_values (values : list jsnum) : jsnum :=
  fold_left (fun sum value => (sum + value)%js) values JsNum.zero.

(** [holders.reduce((sum, holder) => sum + holder.balance, 0)] *)
Definition sum_balances (hs : list Holder) : jsnum :=
  fold_left (fun sum h => (sum + balance h)%js) hs JsNum.zero.

(** [sorted[i]]; an index out of range reads [undefined], a [NaN] in
    arithmetic. *)
Definition index (l : list jsnum) (i : nat) : jsnum := nth i l NaN.

Definition calculateGiniCoefficient (values : list jsnum) : jsnum :=
  if (List.length values =? 0)%nat then JsNum.zero else
  let sorted := js_sort (fun a b => (a - b)%js) values in
  let n := List.length sorted in
  let totalSum := sum_values sorted in
  if (totalSum === JsNum.zero)%js then JsNum.zero else
  let cumulative :=
    fold_left
      (fun cumulative i =>
         (cumulative + JsNum.of_nat (n - i) * index sorted i)%js)
      (seq 0 n) JsNum.zero in
  ((JsNum.of_nat (n + 1) - (Fin 2 * cumulative) / totalSum)
   / JsNum.of_nat n)%js.

Definition calculateStdDeviation (values : list jsnum) : jsreal :=
  if (List.length values =? 0)%nat then RFin 0%R else
  let mean := (sum_values values / JsNum.of_nat (List.length values))%js in
  let variance :=
    (fold_left (fun sum value => (sum + JsNum.square (value - mean))%js)
               values JsNum.zero
     / JsNum.of_nat (List.length values))%js in
  JsNum.msqrt variance.

Definition brackets : list Bracket :=
  [ {| bmin := Fin 1000; bmax := Fin 10000; blabel := "1K-10K" |};
    {| bmin := Fin 10000; bmax := Fin 100000; blabel := "10K-100K" |};
    {| bmin := Fin 100000; bmax := Fin 1000000; blabel := "100K-1M" |};
    {| bmin := Fin 1000000; bmax := Fin 10000000; blabel := "1M-10M" |};
    {| bmin := Fin 10000000; bmax := Fin 100000000; blabel := "10M-100M" |};
    {| bmin := Fin 100000000; bmax := PosInf; blabel := "100M+" |} ].

Definition inBracket (bracket : Bracket) (hs : list Holder) : list Holder :=
  filter (fun holder =>
            (balance holder >=? bmin bracket)%js
            && (balance holder <? bmax bracket)%js) hs.

Definition calculateDistribution (hs : list Holder) : list Bucket :=
  map (fun bracket =>
         let inB := inBracket bracket hs in
         {| bucket_label := blabel bracket;
            bucket_count := List.length inB;
            totalBalance := sum_balances inB |})
      brackets.

(** ** The two statistics on doubles

    [calculateGiniCoefficient] and [calculateStdDeviation] once more, on
    the binary64 numbers JavaScript computes with, to run them with the
    rounding of the source. *)

Module Binary64.

Definition of_nat (n : nat) : float :=
  PrimFloat.of_uint63 (Uint63.of_Z (Z.of_nat n)).

Definition sum_values (values : list float) : float :=
  fold_left (fun sum value => (sum + value)%float) values 0%float.

Fixpoint sort_insert (cmp : float -> float -> float) (x : float)
    (l : list float) : list float :=
  match l with
  | [] => [x]
  | y :: l' =>
      if (0 <? cmp x y)%float then y :: sort_insert cmp x l' else x :: y :: l'
  end.

Definition js_sort (cmp : float -> float -> float) (l : list float)
    : list float :=
  fold_right (sort_insert cmp) [] l.

Definition calculateGiniCoefficient (values : list float) : float :=
  if (List.length values =? 0)%nat then 0%float else
  let sorted := js_sort (fun a b => (a - b)%float) values in
  let n := List.length sorted in
  let totalSum := sum_values sorted in
  if (totalSum =? 0)%float then 0%float else
  let cumulative :=
    fold_left
      (fun cumulative i =>
         (cumulative + of_nat (n - i) * nth i sorted nan)%float)
      (seq 0 n) 0%float in
  ((of_nat (n + 1) - (2 * cumulative) / totalSum) / of_nat n)%float.

Definition calculateStdDeviation (values : list float) : float :=
  if (List.length values =? 0)%nat then 0%float else
  let mean := (sum_values values / of_nat (List.length values))%float in
  let variance :=
    (fold_left (fun sum value => sum + (value - mean) * (value - mean))
               values 0
     / of_nat (List.length values))%float in
  PrimFloat.sqrt variance.

End Binary64.

(** ** [Number.prototype.toFixed(2)] *)

Definition digit (d : Z) : string :=
  String (ascii_of_nat (48 + Z.to_nat d)) EmptyString.

Definition decimal (n : Z) : string :=
  NilZero.string_of_uint (N.to_uint (Z.to_N n)).

(** The hundredths [n] for which [n / 100 - x] is closest to zero, the
    larger one on a tie; [x] is non-negative. *)
Definition hundredths (x : Q) : Z := Qfloor (x * 100 + (1 # 2))%Q.

Definition fixed2 (n : Z) : string :=
  decimal (n / 100) ++ "." ++ digit ((n / 10) mod 10) ++ digit (n mod 10).

(** ** Inputs of the concrete runs *)

(** A host printer for the runs below; none of them reaches it. *)
Definition hostToString : Q -> string := fun _ => "".

Definition duneRow (addr : string) (bal : jsnum) : DuneRow :=
  {| row_address := Some addr; telcoin_balance := Some bal; amount := None |}.

Definition moralisOwner (addr : string) (bal : jsnum) : Owner :=
  {| owner_address := Some addr; owner_address_alt := None;
     balance_formatted := Some bal; owner_balance := None |}.

Definition holder (addr : string) (bal : Q) : Holder :=
  {| address := addr; balance := Fin bal; chain := "Ethereum" |}.

Section Host.

(** [Number::toString] for a finite value of magnitude [10^21] or more
    (exponent notation over the shortest round-trip digits of the double):
    not part of the embedding, taken as given. *)
Variable numberToString : Q -> string.

Definition toFixed2 (x : jsnum) : string :=
  match x with
  | NaN => "NaN"
  | PosInf => "Infinity"
  | NegInf => "-Infinity"
  | Fin q =>
      if Qle_bool 1000000000000000000000 (Qabs q) then numberToString q
      else if JsNum.qltb q 0 then "-" ++ fixed2 (hundredths (- q))
      else fixed2 (hundredths q)
  end.

(** The body of the [forEach] over [[10, 25, 50, 100]], on exact numbers:
    the sum, the quotient and the product are not rounded.  [topEntry64]
    below has the rounding of the source. *)
Definition topEntry (hs : list Holder) (supply : jsnum) (n : nat) : TopN :=
  let top := firstn n hs in
  let topBalance := sum_balances top in
  {| count := Nat.min n (List.length hs);
     top_balance := topBalance;
     percentage :=
       if (supply >? JsNum.zero)%js
       then toFixed2 ((topBalance / supply) * Fin 100)%js
       else "0.00" |}.

Definition computeMetrics (hs : list Holder) (totalRetailSupply : jsnum)
    : MetricsReport :=
  let supply := JsNum.or_default totalRetailSupply JsNum.zero in
  let balances := map balance hs in
  {| topN := map (fun n => (n, topEntry hs supply n)) [10; 25; 50; 100]%nat;
     gini := calculateGiniCoefficient balances;
     stdDev := calculateStdDeviation balances;
     distribution := calculateDistribution hs |}.

(** ** Per-chain aggregation *)

(** The accumulators of the loop over the rows of one chain. *)
Record Acc : Type := {
  acc_holders : list Holder;
  acc_excludedAddresses : set string;
  acc_excludedBalance : jsnum;
  acc_totalProcessed : jsnum
}.

Definition acc_init : Acc :=
  {| acc_holders := [];
     acc_excludedAddresses := empty_set string;
     acc_excludedBalance := JsNum.zero;
     acc_totalProcessed := JsNum.zero |}.

Variable cfg : Config.

(** The cascade both scripts run on an address and a balance
    ([processChain] lines 192-210, [fetchChainHolders] lines 132-148). *)
Definition accumulate (chainLabel : string) (a : Acc)
    (addr : string) (bal : jsnum) : Acc :=
  if str_falsy addr || JsNum.isNaN bal then a else
  let totalProcessed := (acc_totalProcessed a + bal)%js in
  if set_mem string_dec addr (exclusionSet cfg)
     || (bal >? MEGA_HOLDER_THRESHOLD cfg)%js
  then
    {| acc_holders := acc_holders a;
       acc_excludedAddresses := set_add string_dec addr (acc_excludedAddresses a);
       acc_excludedBalance := (acc_excludedBalance a + bal)%js;
       acc_totalProcessed := totalProcessed |}
  else if (bal >=? RETAIL_THRESHOLD cfg)%js then
    {| acc_holders :=
         (acc_holders a
          ++ [ {| address := addr; balance := bal; chain := chainLabel |} ])%list;
       acc_excludedAddresses := acc_excludedAddresses a;
       acc_excludedBalance := acc_excludedBalance a;
       acc_totalProcessed := totalProcessed |}
  else
    {| acc_holders := acc_holders a;
       acc_excludedAddresses := acc_excludedAddresses a;
       acc_excludedBalance := acc_excludedBalance a;
       acc_totalProcessed := totalProcessed |}.

(** [Number(row.telcoin_balance ?? row.amount ?? 0)] *)
Definition rowBalance (row : DuneRow) : jsnum :=
  nullish (telcoin_balance row) (nullish (amount row) (Fin 0)).

(** The callback of [rows.forEach] in [processChain]. *)
Definition processRow (chainLabel : string) (a : Acc) (row : DuneRow) : Acc :=
  match normalizeAddress (row_address row) with
  | None => a
  | Some addr => accumulate chainLabel a addr (rowBalance row)
  end.

(** [(owner.owner_address || owner.address || '').toLowerCase()] *)
Definition ownerAddress (owner : Owner) : string :=
  toLowerCase (str_or (owner_address owner) (str_or (owner_address_alt owner) "")).

(** [parseFloat(owner.balance_formatted ?? owner.balance ?? '0')] *)
Definition ownerBalance (owner : Owner) : jsnum :=
  nullish (balance_formatted owner) (nullish (owner_balance owner) (Fin 0)).

(** The body of [for (const owner of results)] in [fetchChainHolders]. *)
Definition processOwner (chainLabel : string) (a : Acc) (owner : Owner) : Acc :=
  accumulate chainLabel a (ownerAddress owner) (ownerBalance owner).

(** [holders.sort((a, b) => b.balance - a.balance)] *)
Definition sortHolders (hs : list Holder) : list Holder :=
  js_sort (fun a b => (balance b - balance a)%js) hs.

(** What both scripts return once the rows are consumed. *)
Definition finishChain (chainKey chainLabel : string) (a : Acc) : ChainAggregate :=
  let hs := sortHolders (acc_holders a) in
  let total := sum_balances hs in
  {| key := chainKey;
     label := chainLabel;
     holders := hs;
     totalRetailSupply := total;
     retailHolderCount := List.length hs;
     excludedAddresses := acc_excludedAddresses a;
     excludedBalances := [(chainKey, acc_excludedBalance a)];
     totalProcessedByChain := [(chainKey, acc_totalProcessed a)];
     metrics := computeMetrics hs total |}.

(** [chainsConfig[chainKey]?.label ?? chainKey] *)
Definition chainLabelOf (chainKey : string) : string :=
  match obj_get chainKey (chainsConfig cfg) with
  | Some (Some l) => l
  | _ => chainKey
  end.

Definition processChain (chainKey : string) (rows : list DuneRow)
    : ChainAggregate :=
  let chainLabel := chainLabelOf chainKey in
  finishChain chainKey chainLabel
    (fold_left (processRow chainLabel) rows acc_init).

(** [fetchChainHolders] on the owners of the pages it fetched, in order;
    fetching the pages is outside the embedding. *)
Definition fetchChainHolders (chainKey chainLabel : string)
    (owners : list Owner) : ChainAggregate :=
  finishChain chainKey chainLabel
    (fold_left (processOwner chainLabel) owners acc_init).

(** ** Cross-chain combiner *)

Record Combined : Type := {
  c_holders : list Holder;
  c_excludedAddresses : set string;
  c_excludedBalances : jsobject jsnum;
  c_totalProcessedByChain : jsobject jsnum;
  c_totalRetailSupply : jsnum
}.

Definition combined_init : Combined :=
  {| c_holders := [];
     c_excludedAddresses := empty_set string;
     c_excludedBalances := [];
     c_totalProcessedByChain := [];
     c_totalRetailSupply := JsNum.zero |}.

(** [o[chainKey] || 0], for a key that plain objects do not inherit:
    under an inherited name ([constructor], [__proto__], [toString], ...)
    the source reads a member of [Object.prototype]. *)
Definition obj_get_or_zero (chainKey : string) (o : jsobject jsnum) : jsnum :=
  match obj_get chainKey o with
  | Some v => JsNum.or_default v JsNum.zero
  | None => JsNum.zero
  end.

(** [o[chainKey] = (o[chainKey] || 0) + value] over the entries of [src],
    for keys that plain objects do not inherit. *)
Definition mergeInto (o src : jsobject jsnum) : jsobject jsnum :=
  fold_left
    (fun o kv =>
       obj_set (fst kv) (obj_get_or_zero (fst kv) o + snd kv)%js o)
    src o.

(** [{ ...holder, chain: data.label }] *)
Definition relabel (l : string) (h : Holder) : Holder :=
  {| address := address h; balance := balance h; chain := l |}.

(** The body of [for (const [key, data] of Object.entries(chainResults))]. *)
Definition combineStep (c : Combined) (entry : string * ChainAggregate)
    : Combined :=
  let data := snd entry in
  {| c_holders := (c_holders c ++ map (relabel (label data)) (holders data))%list;
     c_totalRetailSupply := (c_totalRetailSupply c + totalRetailSupply data)%js;
     c_excludedBalances :=
       mergeInto (c_excludedBalances c) (excludedBalances data);
     c_totalProcessedByChain :=
       mergeInto (c_totalProcessedByChain c) (totalProcessedByChain data);
     c_excludedAddresses :=
       fold_left (fun s addr => set_add string_dec addr s)
                 (excludedAddresses data) (c_excludedAddresses c) |}.

Definition buildCombinedDataset (chainResults : jsobject ChainAggregate)
    : ChainAggregate :=
  let c := fold_left combineStep chainResults combined_init in
  let combinedHolders := sortHolders (c_holders c) in
  {| key := "combined";
     label := "Combined";
     holders := combinedHolders;
     totalRetailSupply := c_totalRetailSupply c;
     retailHolderCount := List.length combinedHolders;
     excludedAddresses := c_excludedAddresses c;
     excludedBalances := c_excludedBalances c;
     totalProcessedByChain := c_totalProcessedByChain c;
     metrics := computeMetrics combinedHolders (c_totalRetailSupply c) |}.

(** ** The four classes of the classifier

    The branch of the cascade of [accumulate] that a record takes, under
    the names the classifier's description gives them. *)

Inductive RowClass : Type :=
| Dropped
| Excluded
| Retail
| SubThreshold.

Definition classify (addr : option string) (bal : jsnum) : RowClass :=
  match addr with
  | None => Dropped
  | Some a =>
      if str_falsy a || JsNum.isNaN bal then Dropped
      else if set_mem string_dec a (exclusionSet cfg)
              || (bal >? MEGA_HOLDER_THRESHOLD cfg)%js then Excluded
      else if (bal >=? RETAIL_THRESHOLD cfg)%js then Retail
      else SubThreshold
  end.

Definition classifyRow (row : DuneRow) : RowClass :=
  classify (normalizeAddress (row_address row)) (rowBalance row).

Definition classifyOwner (owner : Owner) : RowClass :=
  classify (Some (ownerAddress owner)) (ownerBalance owner).

(** What a record of each class does to the accumulators. *)
Definition effect (chainLabel : string) (a : Acc) (addr : string)
    (bal : jsnum) (c : RowClass) : Acc :=
  match c with
  | Dropped => a
  | Excluded =>
      {| acc_holders := acc_holders a;
         acc_excludedAddresses :=
           set_add string_dec addr (acc_excludedAddresses a);
         acc_excludedBalance := (acc_excludedBalance a + bal)%js;
         acc_totalProcessed := (acc_totalProcessed a + bal)%js |}
  | Retail =>
      {| acc_holders :=
           (acc_holders a
            ++ [ {| address := addr; balance := bal; chain := chainLabel |} ])%list;
         acc_excludedAddresses := acc_excludedAddresses a;
         acc_excludedBalance := acc_excludedBalance a;
         acc_totalProcessed := (acc_totalProcessed a + bal)%js |}
  | SubThreshold =>
      {| acc_holders := acc_holders a;
         acc_excludedAddresses := acc_excludedAddresses a;
         acc_excludedBalance := acc_excludedBalance a;
         acc_totalProcessed := (acc_totalProcessed a + bal)%js |}
  end.

(** ** Both loops as one fold

    A record is seen through its address after normalisation and its
    balance after coercion; the loops of [processChain] and of
    [fetchChainHolders] are then the same fold over such views. *)

Definition View : Type := (option string * jsnum)%type.

Definition rowView (row : DuneRow) : View :=
  (normalizeAddress (row_address row), rowBalance row).

Definition ownerView (owner : Owner) : View :=
  (Some (ownerAddress owner), ownerBalance owner).

Definition classOf (v : View) : RowClass := classify (fst v) (snd v).

(** The loop body on a view: [processRow] and [processOwner]. *)
Definition step (chainLabel : string) (a : Acc) (v : View) : Acc :=
  match fst v with
  | None => a
  | Some addr => accumulate chainLabel a addr (snd v)
  end.

Definition isClass (c : RowClass) (v : View) : bool :=
  match classOf v, c with
  | Dropped, Dropped | Excluded, Excluded
  | Retail, Retail | SubThreshold, SubThreshold => true
  | _, _ => false
  end.

(** The holder a retail record becomes. *)
Definition holderOf (chainLabel : string) (v : View) : Holder :=
  {| address := nullish (fst v) ""; balance := snd v; chain := chainLabel |}.

(** The holders the retail records of a chain become, in input order. *)
Definition retailHolders (chainLabel : string) (vs : list View) : list Holder :=
  map (holderOf chainLabel) (filter (isClass Retail) vs).

(** The addresses of the excluded records of a chain, in input order. *)
Definition excludedOf (vs : list View) : list string :=
  map (fun v => nullish (fst v) "") (filter (isClass Excluded) vs).

(** [l.forEach((address) => s.add(address))] *)
Definition set_add_all (l : list string) (s : set string) : set string :=
  fold_left (fun s addr => set_add string_dec addr s) l s.

(** The aggregate of a list of views: [processChain] and
    [fetchChainHolders] after the fields of their records are read. *)
Definition aggregateViews (chainKey chainLabel : string) (vs : list View)
    : ChainAggregate :=
  finishChain chainKey chainLabel (fold_left (step chainLabel) vs acc_init).

(** ** Finite values

    On finite values the operations of the embedding are those of [Q]. *)

Definition qval (x : jsnum) : Q :=
  match x with Fin q => q | _ => 0 end.

Definition nonneg_finite (x : jsnum) : bool :=
  JsNum.isFinite x && (JsNum.zero <=? x)%js.

Definition qsum (l : list Q) : Q := fold_right Qplus 0 l.

Definition nat_q (n : nat) : Q := inject_Z (Z.of_nat n).

(** The ascending sort of [calculateGiniCoefficient], on finite values. *)
Definition sort_ascending (l : list Q) : list Q :=
  js_sort (fun a b => (Fin a - Fin b)%js) l.

(** The sum the loop of [calculateGiniCoefficient] accumulates:
    [(n - i) * v_i] over the positions [i = 0 .. n-1] of [v]. *)
Fixpoint weighted (v : list Q) : Q :=
  match v with
  | [] => 0
  | a :: t => nat_q (S (List.length t)) * a + weighted t
  end.

(** The formula of the specification,
    [G = (n + 1 - 2 * (sum over i = 1..n of (n - i + 1) * v_i) / sum v) / n]
    with [v_i] the [i]-th value, counted from 1. *)
Definition gini_formula (v : list Q) : Q :=
  let n := List.length v in
  (nat_q n + 1
   - 2 * qsum (map (fun i => (nat_q n - nat_q i + 1) * nth (i - 1) v 0)
                   (seq 1 n))
     / qsum v)
  / nat_q n.

(** All balances are equal. *)
Definition all_equal (l : list Q) : Prop :=
  forall a b, In a l -> In b l -> a == b.

Definition mean_of (vs : list Q) : Q := qsum vs / nat_q (List.length vs).

(** The population variance of the specification: the squared deviations
    from the mean, summed and divided by [n]. *)
Definition population_variance (vs : list Q) : Q :=
  qsum (map (fun v => (v - mean_of vs) * (v - mean_of vs)) vs)
  / nat_q (List.length vs).

(** The sum of the [totalBalance] values of a histogram. *)
Definition distributionTotal (d : list Bucket) : jsnum :=
  sum_values (map totalBalance d).

Definition qbal (h : Holder) : Q := qval (balance h).

(** The filter of [calculateDistribution]. *)
Definition inBracketTest (bracket : Bracket) (holder : Holder) : bool :=
  (balance holder >=? bmin bracket)%js && (balance holder <? bmax bracket)%js.

(** What a holder adds to the total of a bracket. *)
Definition contrib (bracket : Bracket) (h : Holder) : Q :=
  if inBracketTest bracket h then qbal h else 0.

(** What a holder adds to the histogram as a whole. *)
Definition histogram_share (q : Q) : Q := if Qle_bool 1000 q then q else 0.

(** [metrics.top10], [metrics.top25], ... *)
Definition topOf (n : nat) (m : MetricsReport) : option TopN :=
  option_map snd (find (fun e => (fst e =? n)%nat) (topN m)).

(** Every chain's holders, relabelled, in the order of the chains. *)
Definition allHolders (chainResults : jsobject ChainAggregate) : list Holder :=
  List.concat (map (fun e => map (relabel (label (snd e))) (holders (snd e)))
              chainResults).

(** How often an address occurs among holders. *)
Definition occurrences (addr : string) (hs : list Holder) : nat :=
  count_occ string_dec (map address hs) addr.

(** [a] may stand before [b] in a list sorted by descending balance. *)
Definition descending (a b : Holder) : Prop :=
  (balance b <=? balance a)%js = true.

(** ** The driver of [scripts/pull-holders.js]

    A row as the query returns it: the fields [processChain] reads, and the
    two fields [main] groups the rows by, each a string or absent. *)

Record TaggedRow : Type := {
  blockchain : option string;
  chain_tag : option string;
  fields : DuneRow
}.

(** [(row.blockchain || row.chain || '').toLowerCase()] *)
Definition rowChainKey (r : TaggedRow) : string :=
  toLowerCase (str_or (blockchain r) (str_or (chain_tag r) "")).

(** The names every plain object inherits from [Object.prototype]: reading
    one of them from [{}] gives a function, or the prototype itself, and not
    [undefined]. *)
Definition objectPrototypeKeys : list string :=
  [ "constructor"; "__defineGetter__"; "__defineSetter__"; "hasOwnProperty";
    "__lookupGetter__"; "__lookupSetter__"; "isPrototypeOf";
    "propertyIsEnumerable"; "toString"; "valueOf"; "__proto__";
    "toLocaleString" ].

Definition inherited (k : string) : bool :=
  existsb (String.eqb k) objectPrototypeKeys.

(** What [main] throws: an [Error] with its message, or the [TypeError] of
    a call of something that is not a function. *)
Inductive Thrown : Type :=
| ErrorMessage (message : string)
| TypeError.

(** The callback of [rows.reduce] in [main].  Under an inherited key
    [acc[key]] is truthy and has no [push]: the call throws, [None]. *)
Definition groupStep (acc : jsobject (list DuneRow)) (r : TaggedRow)
    : option (jsobject (list DuneRow)) :=
  let k := rowChainKey r in
  if str_falsy k then Some acc
  else if inherited k then None
  else Some (obj_set k (nullish (obj_get k acc) [] ++ [fields r])%list acc).

Fixpoint rowsByChainFrom (rows : list TaggedRow) (acc : jsobject (list DuneRow))
    : option (jsobject (list DuneRow)) :=
  match rows with
  | [] => Some acc
  | r :: rows' =>
      match groupStep acc r with
      | Some acc' => rowsByChainFrom rows' acc'
      | None => None
      end
  end.

Definition rowsByChain (rows : list TaggedRow)
    : option (jsobject (list DuneRow)) :=
  rowsByChainFrom rows [].

(** [Object.keys(chainsConfig)]; [chainsConfig cfg] lists the entries in
    that order. *)
Definition chainOrderOf : list string := map fst (chainsConfig cfg).

(** The [forEach] that fills [chainResults].  Under an inherited key
    [rowsByChain[chainKey]] is not an array and [rows.forEach] in
    [processChain] throws, [None]. *)
Fixpoint chainResultsFrom (keys : list string)
    (groups : jsobject (list DuneRow)) (res : jsobject ChainAggregate)
    : option (jsobject ChainAggregate) :=
  match keys with
  | [] => Some res
  | chainKey :: keys' =>
      if inherited chainKey then None
      else
        chainResultsFrom keys' groups
          (obj_set chainKey
             (processChain chainKey (nullish (obj_get chainKey groups) []))
             res)
  end.

Record Payload : Type := {
  generatedAt : string;
  thresholds_retail : jsnum;
  thresholds_megaHolder : jsnum;
  totals_totalSupply : jsnum;
  chains : jsobject ChainAggregate;
  combined : ChainAggregate;
  chainOrder : list string
}.

Definition TOTAL_TEL_SUPPLY : jsnum := Fin 92577234366.

(** [main] from the rows of the query to the payload it serialises; [now]
    is the reading of the clock.  The left summand is what is thrown. *)
Definition mainPayload (now : string) (rows : list TaggedRow)
    : Thrown + Payload :=
  if (List.length rows =? 0)%nat
  then inl (ErrorMessage "Dune query returned no rows.")
  else
    match rowsByChain rows with
    | None => inl TypeError
    | Some groups =>
        match chainResultsFrom chainOrderOf groups [] with
        | None => inl TypeError
        | Some chainResults =>
            inr {| generatedAt := now;
                   thresholds_retail := RETAIL_THRESHOLD cfg;
                   thresholds_megaHolder := MEGA_HOLDER_THRESHOLD cfg;
                   totals_totalSupply := TOTAL_TEL_SUPPLY;
                   chains := chainResults;
                   combined := buildCombinedDataset chainResults;
                   chainOrder := chainOrderOf |}
        end
    end.

(** The rows [main] hands to [processChain] for a chain: those tagged with
    its key, in the order of the query. *)
Definition chainRows (chainKey : string) (rows : list TaggedRow)
    : list DuneRow :=
  if str_falsy chainKey then []
  else map fields (filter (fun r => (rowChainKey r =? chainKey)%string) rows).

(** ** The paging loops *)

(** A response to [fetchResults]: its rows, and the three places a next
    offset is looked for. *)
Record DunePage : Type := {
  page_rows : option (list TaggedRow);
  next_offset : option nat;
  result_next_offset : option nat;
  metadata_next_offset : option nat
}.

(** [result.next_offset ?? result.result?.next_offset
     ?? result.result?.metadata?.next_offset] *)
Definition nextOffsetOf (p : DunePage) : option nat :=
  match next_offset p with
  | Some o => Some o
  | None =>
      match result_next_offset p with
      | Some o => Some o
      | None => metadata_next_offset p
      end
  end.

(** The loop of [fetchResults]; [server] answers the request for an
    offset with a page, or with the text of a response that is not ok, on
    which [duneFetchJson] throws.  [None] when [fuel] requests were not
    enough. *)
Fixpoint fetchResultsFrom (fuel : nat) (server : nat -> string + DunePage)
    (offset : nat) (rows : list TaggedRow) : option (string + list TaggedRow) :=
  match fuel with
  | O => None
  | S fuel' =>
      match server offset with
      | inl text => Some (inl text)
      | inr result =>
          let rows' := (rows ++ nullish (page_rows result) [])%list in
          match nextOffsetOf result with
          | None => Some (inr rows')
          | Some nextOffset => fetchResultsFrom fuel' server nextOffset rows'
          end
      end
  end.

Definition fetchResults (fuel : nat) (server : nat -> string + DunePage)
    : option (string + list TaggedRow) :=
  fetchResultsFrom fuel server 0 [].

(** A response to [fetchChainHolders]. *)
Record MoralisPage : Type := {
  result : option (list Owner);
  cursor : option string
}.

(** [parseFloat(results.at(-1)?.balance_formatted
     ?? results.at(-1)?.balance ?? '0')] *)
Definition lastBalanceOf (results : list Owner) : jsnum :=
  match last (map Some results) None with
  | Some owner => ownerBalance owner
  | None => Fin 0
  end.

(** The owners the loop of [fetchChainHolders] reads, given the responses
    to its successive requests; the request after the last response listed
    is answered with an empty result. *)
Fixpoint fetchedOwners (pages : list MoralisPage) : list Owner :=
  match pages with
  | [] => []
  | data :: pages' =>
      let results := nullish (result data) [] in
      if (List.length results =? 0)%nat then []
      else
        let lastBalance := lastBalanceOf results in
        if str_falsy (nullish (cursor data) "") then results
        else if negb (JsNum.isNaN lastBalance)
                && (lastBalance <? RETAIL_THRESHOLD cfg)%js
        then results
        else (results ++ fetchedOwners pages')%list
  end.

(** [fetchChainHolders] with its requests. *)
Definition fetchChainHoldersPaged (chainKey chainLabel : string)
    (pages : list MoralisPage) : ChainAggregate :=
  fetchChainHolders chainKey chainLabel (fetchedOwners pages).

(** The owners of all the pages up to the first one that is empty or has no
    cursor: what the loop would read without the test of the last balance
    that ends it early. *)
Fixpoint pagedOwners (pages : list MoralisPage) : list Owner :=
  match pages with
  | [] => []
  | data :: pages' =>
      let results := nullish (result data) [] in
      if (List.length results =? 0)%nat then []
      else if str_falsy (nullish (cursor data) "") then results
      else (results ++ pagedOwners pages')%list
  end.

(** [a] may stand before [b] in a list of owners by descending balance. *)
Definition richerFirst (a b : Owner) : Prop :=
  (ownerBalance b <=? ownerBalance a)%js = true.

(** A server that pages [table] by [limit] rows: asked for an offset it
    answers with the rows from there, [limit] at most, and names the next
    offset while rows are left. *)
Definition servesTable (server : nat -> string + DunePage)
    (table : list TaggedRow) (limit : nat) : Prop :=
  forall offset, exists page,
    server offset = inr page
    /\ nullish (page_rows page) [] = firstn limit (skipn offset table)
    /\ nextOffsetOf page
       = if (offset + limit <? List.length table)%nat
         then Some (offset + limit)%nat else None.

(** A server of this kind. *)
Definition pagingServer (table : list TaggedRow) (limit : nat)
    : nat -> string + DunePage :=
  fun offset =>
    inr {| page_rows := Some (firstn limit (skipn offset table));
           next_offset :=
             if (offset + limit <? List.length table)%nat
             then Some (offset + limit)%nat else None;
           result_next_offset := None;
           metadata_next_offset := None |}.

(** A server that names a next offset for ever. *)
Definition endlessServer : nat -> string + DunePage :=
  fun offset =>
    inr {| page_rows := None;
           next_offset := None;
           result_next_offset := None;
           metadata_next_offset := Some (S offset) |}.

(** ** The polling loop of [waitForCompletion]

    What a request for the status brings: the text of a response that is
    not ok, on which [duneFetchJson] throws, or [status.state]; and the
    reading of [Date.now()] that follows it, in milliseconds. *)
Record Poll : Type := {
  poll_response : string + option string;
  poll_clock : Z
}.

(** How [waitForCompletion] ends: it returns, or throws one of three
    errors. *)
Inductive WaitOutcome : Type :=
| Completed
| QueryFailed (state : string)
| RequestFailed (text : string)
| TimedOut.

(** The loop from its [i]-th request on; [start] is the reading of the
    clock before the loop.  [None] when [fuel] requests were not enough. *)
Fixpoint waitForCompletionFrom (fuel : nat) (polls : nat -> Poll)
    (start timeout : Z) (i : nat) : option WaitOutcome :=
  match fuel with
  | O => None
  | S fuel' =>
      match poll_response (polls i) with
      | inl text => Some (RequestFailed text)
      | inr state =>
          let s := nullish state "" in
          if (s =? "QUERY_STATE_COMPLETED")%string then Some Completed
          else if (s =? "QUERY_STATE_FAILED")%string
                  || (s =? "QUERY_STATE_CANCELLED")%string
          then Some (QueryFailed s)
          else if (poll_clock (polls i) - start >? timeout)%Z
          then Some TimedOut
          else waitForCompletionFrom fuel' polls start timeout (S i)
      end
  end.

Definition waitForCompletion (fuel : nat) (polls : nat -> Poll)
    (start timeout : Z) : option WaitOutcome :=
  waitForCompletionFrom fuel polls start timeout 0.

(** The clock does not run backwards, and at least [pollInterval]
    milliseconds pass from one request to the next. *)
Definition clockAdvances (polls : nat -> Poll) (start pollInterval : Z)
    : Prop :=
  (start <= poll_clock (polls 0%nat))%Z
  /\ forall i,
       (poll_clock (polls i) + pollInterval <= poll_clock (polls (S i)))%Z.

(** A query that stays pending, polled every [pollInterval]
    milliseconds. *)
Definition pendingPolls (start pollInterval : Z) : nat -> Poll :=
  fun i => {| poll_response := inr (Some "QUERY_STATE_EXECUTING");
              poll_clock := (start + Z.of_nat i * pollInterval)%Z |}.

(** ** Totals of the classes *)

(** Neither [+Infinity] nor [-Infinity]. *)
Definition no_infinity (x : jsnum) : bool :=
  JsNum.isNaN x || JsNum.isFinite x.

(** The exact sum of the balances of the records of a class. *)
Definition classTotal (c : RowClass) (vs : list View) : Q :=
  qsum (map (fun v => qval (snd v)) (filter (isClass c) vs)).

(** The three totals of an aggregate are the class totals of its records,
    and the processed total is their sum with the sub-threshold total. *)
Definition totalsSplit (agg : ChainAggregate) (chainKey : string)
    (vs : list View) : Prop :=
  exists t r e,
    totalProcessedByChain agg = [(chainKey, Fin t)]
    /\ totalRetailSupply agg = Fin r
    /\ excludedBalances agg = [(chainKey, Fin e)]
    /\ r == classTotal Retail vs
    /\ e == classTotal Excluded vs
    /\ t == r + e + classTotal SubThreshold vs.

(** ** The mean absolute difference *)

(** The sum of [|x - y|] over all ordered pairs of values. *)
Definition absDiffSum (v : list Q) : Q :=
  qsum (map (fun x => qsum (map (fun y => Qabs (x - y)) v)) v).

(** ** The brackets as a whole *)

(** A balance that one of the brackets takes. *)
Definition inSomeBracket (h : Holder) : bool :=
  (balance h >=? Fin 1000)%js && (balance h <? PosInf)%js.

(** ** The top-N entries on doubles

    The loop of [computeMetrics] over [[10, 25, 50, 100]] once more, on the
    binary64 numbers JavaScript computes with: the sum, the quotient and
    the product are rounded as in the source, and [toFixed(2)] prints the
    exact value of the double that results. *)

(** The exact value of a double. *)
Definition float_value (x : float) : jsnum :=
  match Prim2SF x with
  | S754_nan => NaN
  | S754_infinity s => if s then NegInf else PosInf
  | S754_zero _ => Fin 0
  | S754_finite s m e =>
      Fin ((if s then - (1) else 1) * inject_Z (Z.pos m) * 2 ^ e)
  end.

Record TopN64 : Type := {
  count64 : nat;
  balance64 : float;
  percentage64 : string
}.

(** The body of the [forEach] over [[10, 25, 50, 100]], on the balances of
    the holders in their order. *)
Definition topEntry64 (balances : list float) (supply : float) (n : nat)
    : TopN64 :=
  let top := firstn n balances in
  let topBalance := Binary64.sum_values top in
  {| count64 := Nat.min n (List.length balances);
     balance64 := topBalance;
     percentage64 :=
       if (0 <? supply)%float
       then toFixed2 (float_value ((topBalance / supply) * 100)%float)
       else "0.00" |}.

(** [totalRetailSupply || 0]: [NaN], [0] and [-0] are falsy. *)
Definition or_zero64 (x : float) : float :=
  if is_nan x || (x =? 0)%float then 0%float else x.

Definition topN64 (balances : list float) (totalRetailSupply : float)
    : list (nat * TopN64) :=
  let supply := or_zero64 totalRetailSupply in
  map (fun n => (n, topEntry64 balances supply n)) [10; 25; 50; 100]%nat.

(** [metrics.top10], [metrics.top25], ... *)
Definition topOf64 (n : nat) (entries : list (nat * TopN64)) : option TopN64 :=
  option_map snd (find (fun e => (fst e =? n)%nat) entries).

(** A numeral in two decimals: the decimal numeral of the whole part [w],
    a point, and the two digits [a] and [b]. *)
Definition twoDecimals (w a b : Z) : string :=
  NilZero.string_of_uint (N.to_uint (Z.to_N w))
  ++ "."
  ++ String (ascii_of_nat (48 + Z.to_nat a))
       (String (ascii_of_nat (48 + Z.to_nat b)) EmptyString).

Lemma accumulate_effect chainLabel a addr bal :
  accumulate chainLabel a addr bal
  = effect chainLabel a addr bal (classify (Some addr) bal).
Proof.
  unfold accumulate, classify.
  destruct (str_falsy addr || JsNum.isNaN bal); [reflexivity|].
  destruct (set_mem string_dec addr (exclusionSet cfg)
            || (bal >? MEGA_HOLDER_THRESHOLD cfg)%js); [reflexivity|].
  destruct (bal >=? RETAIL_THRESHOLD cfg)%js; reflexivity.
Qed.

Lemma normalizeAddress_truthy v addr :
  normalizeAddress v = Some addr -> str_falsy addr = false.
Proof.
  unfold normalizeAddress.
  destruct v as [raw|]; [|discriminate].
  destruct raw as [|c raw]; [discriminate|].
  destruct (startsWith "0x" (String c raw) || startsWith "0X" (String c raw)).
  - intros H; inversion H; reflexivity.
  - destruct (startsWith (backslash "x") (String c raw)
              || startsWith (backslash "X") (String c raw));
      intros H; inversion H; reflexivity.
Qed.

Lemma processRow_effect chainLabel a row :
  processRow chainLabel a row
  = match normalizeAddress (row_address row) with
    | None => a
    | Some addr => effect chainLabel a addr (rowBalance row) (classifyRow row)
    end.
Proof.
  unfold processRow, classifyRow.
  destruct (normalizeAddress (row_address row)); [|reflexivity].
  apply accumulate_effect.
Qed.

(** ** The loop and the four classes *)

Lemma processRow_step chainLabel a row :
  processRow chainLabel a row = step chainLabel a (rowView row).
Proof. reflexivity. Qed.

Lemma processOwner_step chainLabel a owner :
  processOwner chainLabel a owner = step chainLabel a (ownerView owner).
Proof. reflexivity. Qed.

Lemma fold_left_map_step {X : Type} (f : X -> View) chainLabel xs a :
  fold_left (fun a x => step chainLabel a (f x)) xs a
  = fold_left (step chainLabel) (map f xs) a.
Proof.
  revert a; induction xs as [|x xs IH]; intros a; simpl; [reflexivity|].
  apply IH.
Qed.

Lemma step_effect chainLabel a v :
  step chainLabel a v
  = effect chainLabel a (nullish (fst v) "") (snd v) (classOf v).
Proof.
  destruct v as [[addr|] bal]; unfold step, classOf; simpl.
  - apply accumulate_effect.
  - reflexivity.
Qed.

Lemma fold_step_holders chainLabel vs a :
  acc_holders (fold_left (step chainLabel) vs a)
  = (acc_holders a ++ retailHolders chainLabel vs)%list.
Proof.
  revert a; induction vs as [|v vs IH]; intros a; simpl.
  - unfold retailHolders; simpl. now rewrite app_nil_r.
  - rewrite IH, step_effect. unfold retailHolders, isClass; simpl.
    destruct (classOf v); simpl; try reflexivity.
    now rewrite <- app_assoc.
Qed.

Lemma fold_step_excluded chainLabel vs a :
  acc_excludedAddresses (fold_left (step chainLabel) vs a)
  = set_add_all (excludedOf vs) (acc_excludedAddresses a).
Proof.
  revert a; induction vs as [|v vs IH]; intros a; simpl; [reflexivity|].
  rewrite IH, step_effect. unfold excludedOf, isClass; simpl.
  destruct (classOf v); reflexivity.
Qed.

Lemma set_add_all_In l : forall s x,
  In x (set_add_all l s) <-> In x l \/ In x s.
Proof.
  induction l as [|y l IH]; intros s x; simpl.
  - tauto.
  - unfold set_add_all in *; simpl. rewrite IH.
    split.
    + intros [H|H]; [tauto|].
      apply set_add_elim in H. destruct H; [subst; tauto | tauto].
    + intros [[H|H]|H].
      * subst. right. apply set_add_intro2. reflexivity.
      * tauto.
      * right. apply set_add_intro1. exact H.
Qed.

Lemma set_add_all_NoDup l : forall s, NoDup s -> NoDup (set_add_all l s).
Proof.
  induction l as [|y l IH]; intros s H; simpl; [exact H|].
  apply IH. apply set_add_nodup. exact H.
Qed.

(** *** The sort permutes *)

Lemma sort_insert_perm {A : Type} (cmp : A -> A -> jsnum) x l :
  Permutation (sort_insert cmp x l) (x :: l).
Proof.
  induction l as [|y l IH]; simpl; [apply Permutation_refl|].
  destruct (cmp x y >? JsNum.zero)%js.
  - eapply Permutation_trans; [apply perm_skip, IH | apply perm_swap].
  - apply Permutation_refl.
Qed.

Lemma js_sort_perm {A : Type} (cmp : A -> A -> jsnum) l :
  Permutation (js_sort cmp l) l.
Proof.
  induction l as [|x l IH]; simpl; [constructor|].
  eapply Permutation_trans; [apply sort_insert_perm|].
  now apply perm_skip.
Qed.

Lemma js_sort_length {A : Type} (cmp : A -> A -> jsnum) l :
  List.length (js_sort cmp l) = List.length l.
Proof. apply Permutation_length, js_sort_perm. Qed.

(** *** The aggregate of a list of views *)

Lemma processChain_views chainKey rows :
  processChain chainKey rows
  = aggregateViews chainKey (chainLabelOf chainKey) (map rowView rows).
Proof.
  unfold processChain, aggregateViews.
  now rewrite <- fold_left_map_step.
Qed.

Lemma fetchChainHolders_views chainKey chainLabel owners :
  fetchChainHolders chainKey chainLabel owners
  = aggregateViews chainKey chainLabel (map ownerView owners).
Proof.
  unfold fetchChainHolders, aggregateViews.
  now rewrite <- fold_left_map_step.
Qed.

Lemma aggregateViews_holders chainKey chainLabel vs :
  Permutation (holders (aggregateViews chainKey chainLabel vs))
              (retailHolders chainLabel vs).
Proof.
  unfold aggregateViews, finishChain; simpl.
  unfold sortHolders. rewrite fold_step_holders. simpl.
  apply js_sort_perm.
Qed.

Lemma aggregateViews_excluded chainKey chainLabel vs :
  excludedAddresses (aggregateViews chainKey chainLabel vs)
  = set_add_all (excludedOf vs) (empty_set string).
Proof.
  unfold aggregateViews, finishChain; simpl.
  now rewrite fold_step_excluded.
Qed.

Lemma isClass_cases (v : View) :
  let t := (isClass Retail v, isClass Excluded v,
            isClass Dropped v, isClass SubThreshold v) in
  t = (true, false, false, false) \/ t = (false, true, false, false)
  \/ t = (false, false, true, false) \/ t = (false, false, false, true).
Proof. unfold isClass. destruct (classOf v); simpl; auto. Qed.

Lemma classes_partition (vs : list View) :
  List.length vs
  = (List.length (filter (isClass Retail) vs)
     + List.length (filter (isClass Excluded) vs)
     + List.length (filter (isClass Dropped) vs)
     + List.length (filter (isClass SubThreshold) vs))%nat.
Proof.
  induction vs as [|v vs IH]; simpl; [reflexivity|].
  destruct (isClass_cases v) as [H|[H|[H|H]]];
    injection H as -> -> -> ->; simpl; lia.
Qed.

Lemma classify_dropped_iff addr bal :
  classify addr bal = Dropped
  <-> addr = None \/ addr = Some "" \/ JsNum.isNaN bal = true.
Proof.
  unfold classify. destruct addr as [a|]; [|tauto].
  destruct a as [|c a]; simpl; [tauto|].
  destruct (JsNum.isNaN bal).
  - tauto.
  - destruct (set_mem string_dec (String c a) (exclusionSet cfg)
              || (bal >? MEGA_HOLDER_THRESHOLD cfg)%js).
    + split; [discriminate | intros [H|[H|H]]; discriminate].
    + destruct (bal >=? RETAIL_THRESHOLD cfg)%js;
        (split; [discriminate | intros [H|[H|H]]; discriminate]).
Qed.

Lemma classify_excluded addr bal :
  str_falsy addr = false -> JsNum.isNaN bal = false ->
  set_mem string_dec addr (exclusionSet cfg) = true
  \/ (bal >? MEGA_HOLDER_THRESHOLD cfg)%js = true ->
  classify (Some addr) bal = Excluded.
Proof.
  intros Ha Hb Hex. unfold classify. rewrite Ha, Hb. simpl.
  destruct Hex as [H|H]; rewrite H; [reflexivity|].
  now rewrite orb_true_r.
Qed.

Lemma classify_retail_inv addr bal :
  classify addr bal = Retail ->
  exists a, addr = Some a /\ str_falsy a = false /\ JsNum.isNaN bal = false
    /\ set_mem string_dec a (exclusionSet cfg) = false
    /\ (bal >? MEGA_HOLDER_THRESHOLD cfg)%js = false
    /\ (bal >=? RETAIL_THRESHOLD cfg)%js = true.
Proof.
  unfold classify. destruct addr as [a|]; [|discriminate].
  destruct (str_falsy a) eqn:Ha; [discriminate|].
  destruct (JsNum.isNaN bal) eqn:Hb; [discriminate|]. simpl.
  destruct (set_mem string_dec a (exclusionSet cfg)) eqn:Hs; [discriminate|].
  destruct (bal >? MEGA_HOLDER_THRESHOLD cfg)%js eqn:Hm; [discriminate|].
  simpl.
  destruct (bal >=? RETAIL_THRESHOLD cfg)%js eqn:Hr; [|discriminate].
  intros _. exists a. repeat split; assumption.
Qed.

(** Comparisons of the embedding on numbers that are not [NaN]. *)
Lemma not_gtb_leb (x y : jsnum) :
  JsNum.isNaN x = false -> JsNum.isNaN y = false ->
  (x >? y)%js = false -> (x <=? y)%js = true.
Proof.
  unfold JsNum.gtb, JsNum.ltb, JsNum.leb, JsNum.qltb.
  destruct x, y; simpl; try congruence.
  intros _ _ H. now apply negb_false_iff in H.
Qed.

Lemma leb_not_nan (x y : jsnum) :
  (x <=? y)%js = true -> JsNum.isNaN x = false /\ JsNum.isNaN y = false.
Proof. destruct x, y; simpl; intros H; try discriminate; auto. Qed.

Lemma step_dropped chainLabel a v :
  classOf v = Dropped -> step chainLabel a v = a.
Proof. intros H. rewrite step_effect, H. reflexivity. Qed.

Lemma step_counted chainLabel a v :
  classOf v <> Dropped ->
  acc_totalProcessed (step chainLabel a v)
  = (acc_totalProcessed a + snd v)%js.
Proof.
  intros H. rewrite step_effect.
  destruct (classOf v); [congruence | reflexivity ..].
Qed.

Lemma retailHolders_In chainLabel vs v :
  In v vs -> classOf v = Retail -> In (holderOf chainLabel v) (retailHolders chainLabel vs).
Proof.
  intros Hin Hc. unfold retailHolders. apply in_map, filter_In.
  split; [exact Hin|]. unfold isClass. now rewrite Hc.
Qed.

Lemma retailHolders_inv chainLabel vs h :
  In h (retailHolders chainLabel vs) ->
  exists v, In v vs /\ classOf v = Retail /\ h = holderOf chainLabel v.
Proof.
  unfold retailHolders. intros H. apply in_map_iff in H.
  destruct H as [v [Hh Hv]]. apply filter_In in Hv. destruct Hv as [Hin Hc].
  exists v. repeat split; [exact Hin | | now symmetry].
  unfold isClass in Hc. destruct (classOf v); congruence.
Qed.

(** ** The classifier and the per-chain aggregator *)

(** C2.  The denylist / mega-holder test comes before the retail test: a
    record with a non-empty address and a balance that is not [NaN] whose
    address is denylisted, or whose balance exceeds the mega-holder
    threshold, is excluded whatever the retail threshold is: it adds no
    holder, its address joins the excluded set and its balance is added to
    the excluded balance and to the processed total.  This holds for the
    rows of [processChain] and the owners of [fetchChainHolders]. *)
Theorem exclusion_precedes_retail_check
    (chainLabel : string) (a : Acc) (addr : string) (bal : jsnum)
    (Haddr : str_falsy addr = false)
    (Hbal : JsNum.isNaN bal = false)
    (Hex : set_mem string_dec addr (exclusionSet cfg) = true
           \/ (bal >? MEGA_HOLDER_THRESHOLD cfg)%js = true) :
  classify (Some addr) bal = Excluded
  /\ (let a' := accumulate chainLabel a addr bal in
      acc_holders a' = acc_holders a
      /\ acc_excludedAddresses a'
         = set_add string_dec addr (acc_excludedAddresses a)
      /\ acc_excludedBalance a' = (acc_excludedBalance a + bal)%js
      /\ acc_totalProcessed a' = (acc_totalProcessed a + bal)%js)
  /\ (forall row,
        normalizeAddress (row_address row) = Some addr ->
        rowBalance row = bal ->
        classifyRow row = Excluded
        /\ processRow chainLabel a row = accumulate chainLabel a addr bal)
  /\ (forall owner,
        ownerAddress owner = addr -> ownerBalance owner = bal ->
        classifyOwner owner = Excluded
        /\ processOwner chainLabel a owner = accumulate chainLabel a addr bal).
Proof.
  pose proof (classify_excluded addr bal Haddr Hbal Hex) as Hc.
  split; [exact Hc|]. split.
  - cbv zeta. rewrite accumulate_effect, Hc. simpl. auto.
  - split.
    + intros row Hn Hb. unfold classifyRow, processRow.
      rewrite Hn, Hb. auto.
    + intros owner Ha Hb. unfold classifyOwner, processOwner.
      rewrite Ha, Hb. auto.
Qed.

(** C3, as the code has it.  A record is dropped exactly when its address
    normalises to null / the empty string or its balance is [NaN].  A
    dropped record leaves every accumulator as it was; any other record
    adds its balance to the processed total.  A balance of [+Infinity] or
    [-Infinity] on a record with an address is therefore not dropped. *)
Theorem dropped_iff_no_address_or_NaN
    (chainLabel : string) (a : Acc) (row : DuneRow) (owner : Owner) :
  (classifyRow row = Dropped
   <-> normalizeAddress (row_address row) = None
       \/ JsNum.isNaN (rowBalance row) = true)
  /\ (classifyOwner owner = Dropped
      <-> ownerAddress owner = ""
          \/ JsNum.isNaN (ownerBalance owner) = true)
  /\ (classifyRow row = Dropped -> processRow chainLabel a row = a)
  /\ (classifyOwner owner = Dropped -> processOwner chainLabel a owner = a)
  /\ (classifyRow row <> Dropped ->
      acc_totalProcessed (processRow chainLabel a row)
      = (acc_totalProcessed a + rowBalance row)%js)
  /\ (classifyOwner owner <> Dropped ->
      acc_totalProcessed (processOwner chainLabel a owner)
      = (acc_totalProcessed a + ownerBalance owner)%js)
  /\ (normalizeAddress (row_address row) <> None ->
      JsNum.isFinite (rowBalance row) = false ->
      JsNum.isNaN (rowBalance row) = false ->
      classifyRow row <> Dropped)
  /\ (ownerAddress owner <> "" ->
      JsNum.isFinite (ownerBalance owner) = false ->
      JsNum.isNaN (ownerBalance owner) = false ->
      classifyOwner owner <> Dropped).
Proof.
  assert (Hrow : classifyRow row = Dropped
                 <-> normalizeAddress (row_address row) = None
                     \/ JsNum.isNaN (rowBalance row) = true).
  { unfold classifyRow. rewrite classify_dropped_iff.
    split; [|tauto]. intros [H|[H|H]]; [tauto| |tauto].
    apply normalizeAddress_truthy in H. discriminate. }
  assert (Hown : classifyOwner owner = Dropped
                 <-> ownerAddress owner = ""
                     \/ JsNum.isNaN (ownerBalance owner) = true).
  { unfold classifyOwner. rewrite classify_dropped_iff.
    split.
    - intros [H|[H|H]]; [discriminate| |tauto]. injection H. tauto.
    - intros [H|H]; [|tauto]. rewrite H. tauto. }
  repeat split; try apply Hrow; try apply Hown.
  - intros H. rewrite processRow_step. now apply step_dropped.
  - intros H. rewrite processOwner_step. now apply step_dropped.
  - intros H. rewrite processRow_step. now apply step_counted.
  - intros H. rewrite processOwner_step. now apply step_counted.
  - intros Ha _ Hn Hd. apply Hrow in Hd. destruct Hd; congruence.
  - intros Ha _ Hn Hd. apply Hown in Hd. destruct Hd; congruence.
Qed.

(** C4, as the code has it.  Every record falls in exactly one of four
    classes: retail, excluded, dropped and sub-threshold.  The holders of
    the aggregate are the retail records, one holder each; the excluded
    addresses are the addresses of the excluded records, each listed once;
    dropped and sub-threshold records appear in neither. *)
Theorem rows_fall_in_four_classes
    (chainKey chainLabel : string) (vs : list View) :
  let agg := aggregateViews chainKey chainLabel vs in
  Permutation (holders agg) (retailHolders chainLabel vs)
  /\ retailHolderCount agg = List.length (filter (isClass Retail) vs)
  /\ (forall x, In x (excludedAddresses agg) <-> In x (excludedOf vs))
  /\ NoDup (excludedAddresses agg)
  /\ List.length vs
     = (List.length (filter (isClass Retail) vs)
        + List.length (filter (isClass Excluded) vs)
        + List.length (filter (isClass Dropped) vs)
        + List.length (filter (isClass SubThreshold) vs))%nat
  /\ (forall rows,
        processChain chainKey rows
        = aggregateViews chainKey (chainLabelOf chainKey) (map rowView rows))
  /\ (forall owners,
        fetchChainHolders chainKey chainLabel owners
        = aggregateViews chainKey chainLabel (map ownerView owners)).
Proof.
  cbv zeta.
  pose proof (aggregateViews_holders chainKey chainLabel vs) as Hp.
  split; [exact Hp|]. split.
  - change (retailHolderCount (aggregateViews chainKey chainLabel vs))
      with (List.length (holders (aggregateViews chainKey chainLabel vs))).
    rewrite (Permutation_length Hp). unfold retailHolders.
    apply length_map.
  - rewrite aggregateViews_excluded. split; [|split; [|split; [|split]]].
    + intros x. rewrite set_add_all_In. simpl. tauto.
    + apply set_add_all_NoDup. constructor.
    + apply classes_partition.
    + apply processChain_views.
    + apply fetchChainHolders_views.
Qed.

(** C7.  When the retail threshold is at most the mega-holder threshold,
    every holder of an aggregate built by [processChain] or by
    [fetchChainHolders] has a balance [b] with
    [RETAIL_THRESHOLD <= b <= MEGA_HOLDER_THRESHOLD]. *)
Theorem holder_balance_within_thresholds
    (chainKey chainLabel : string) (rows : list DuneRow) (owners : list Owner)
    (Hth : (RETAIL_THRESHOLD cfg <=? MEGA_HOLDER_THRESHOLD cfg)%js = true) :
  let within h :=
    (RETAIL_THRESHOLD cfg <=? balance h)%js = true
    /\ (balance h <=? MEGA_HOLDER_THRESHOLD cfg)%js = true in
  Forall within (holders (processChain chainKey rows))
  /\ Forall within (holders (fetchChainHolders chainKey chainLabel owners)).
Proof.
  cbv zeta.
  assert (H : forall l vs,
             Forall (fun h =>
                       (RETAIL_THRESHOLD cfg <=? balance h)%js = true
                       /\ (balance h <=? MEGA_HOLDER_THRESHOLD cfg)%js = true)
                    (holders (aggregateViews chainKey l vs))).
  { intros l vs. apply Forall_forall. intros h Hin.
    apply (Permutation_in _ (aggregateViews_holders chainKey l vs)) in Hin.
    apply retailHolders_inv in Hin. destruct Hin as [v [_ [Hc ->]]].
    apply classify_retail_inv in Hc.
    destruct Hc as [a0 [_ [_ [Hnan [_ [Hm Hr]]]]]]. simpl.
    split; [exact Hr|].
    apply not_gtb_leb; [exact Hnan | | exact Hm].
    now apply leb_not_nan in Hth. }
  split.
  - rewrite processChain_views. apply H.
  - rewrite fetchChainHolders_views. apply H.
Qed.

(** C10, as the code has it.  A row without a balance field has balance
    [0].  When its address normalises to a string, the row is not dropped
    and adds [0] to the processed total; when moreover the retail threshold
    is [0] (the configuration of [scripts/pull-holders.js]) and the address
    is not denylisted, it becomes a holder with balance [0], which
    [retailHolderCount] counts.  A row whose address normalises to null is
    dropped, and a denylisted one is excluded. *)
Theorem absent_balance_is_zero
    (chainKey chainLabel : string) (a : Acc) (row : DuneRow) (owner : Owner)
    (Hrow : telcoin_balance row = None /\ amount row = None)
    (Hown : balance_formatted owner = None /\ owner_balance owner = None) :
  rowBalance row = Fin 0
  /\ ownerBalance owner = Fin 0
  /\ (ownerAddress owner <> "" ->
      classifyOwner owner <> Dropped
      /\ acc_totalProcessed (processOwner chainLabel a owner)
         = (acc_totalProcessed a + Fin 0)%js)
  /\ (normalizeAddress (row_address row) = None ->
      processRow chainLabel a row = a)
  /\ (forall addr,
        normalizeAddress (row_address row) = Some addr ->
        classifyRow row <> Dropped
        /\ acc_totalProcessed (processRow chainLabel a row)
           = (acc_totalProcessed a + Fin 0)%js
        /\ (set_mem string_dec addr (exclusionSet cfg) = true ->
            classifyRow row = Excluded)
        /\ (set_mem string_dec addr (exclusionSet cfg) = false ->
            RETAIL_THRESHOLD cfg = Fin 0 ->
            (Fin 0 <=? MEGA_HOLDER_THRESHOLD cfg)%js = true ->
            let h := {| address := addr; balance := Fin 0;
                        chain := chainLabel |} in
            classifyRow row = Retail
            /\ acc_holders (processRow chainLabel a row)
               = (acc_holders a ++ [h])%list
            /\ (forall rows,
                  In row rows ->
                  let agg := processChain chainKey rows in
                  In {| address := addr; balance := Fin 0;
                        chain := chainLabelOf chainKey |} (holders agg)
                  /\ retailHolderCount agg = List.length (holders agg)))).
Proof.
  destruct Hrow as [Ht Ha], Hown as [Hf Hb].
  assert (Hr0 : rowBalance row = Fin 0) by (unfold rowBalance; now rewrite Ht, Ha).
  assert (Ho0 : ownerBalance owner = Fin 0)
    by (unfold ownerBalance; now rewrite Hf, Hb).
  split; [exact Hr0|]. split; [exact Ho0|]. split; [|split].
  - intros Hne.
    assert (Hnd : classifyOwner owner <> Dropped).
    { unfold classifyOwner. rewrite classify_dropped_iff, Ho0. simpl.
      intros [H|[H|H]]; [discriminate | injection H; tauto | discriminate]. }
    split; [exact Hnd|].
    rewrite processOwner_step, step_counted by exact Hnd.
    simpl. now rewrite Ho0.
  - intros Hn. unfold processRow. now rewrite Hn.
  - intros addr Hn.
    pose proof (normalizeAddress_truthy _ _ Hn) as Hta.
    assert (Hnd : classifyRow row <> Dropped).
    { unfold classifyRow. rewrite classify_dropped_iff, Hr0, Hn. simpl.
      intros [H|[H|H]]; try discriminate.
      injection H as ->. discriminate. }
    split; [exact Hnd|]. split.
    { rewrite processRow_step, step_counted by exact Hnd.
      simpl. now rewrite Hr0. }
    split.
    { intros Hs. unfold classifyRow. rewrite Hn, Hr0.
      apply classify_excluded; auto. }
    intros Hs Hret Hmega. cbv zeta.
    assert (Hc : classifyRow row = Retail).
    { unfold classifyRow, classify. rewrite Hn, Hr0, Hta, Hs, Hret. simpl.
      replace (Fin 0 >? MEGA_HOLDER_THRESHOLD cfg)%js with false; [reflexivity|].
      destruct (MEGA_HOLDER_THRESHOLD cfg) as [| |m|]; try discriminate;
        try reflexivity.
      unfold JsNum.leb in Hmega. unfold JsNum.gtb, JsNum.ltb, JsNum.qltb.
      now rewrite Hmega. }
    split; [exact Hc|]. split.
    { rewrite processRow_effect, Hn, Hc, Hr0. reflexivity. }
    intros rows Hin. cbv zeta. split; [|reflexivity].
    rewrite processChain_views.
    apply (Permutation_in _
             (Permutation_sym (aggregateViews_holders chainKey _ _))).
    assert (Hv : In (rowView row) (map rowView rows)) by now apply in_map.
    apply (retailHolders_In (chainLabelOf chainKey)) in Hv; [|exact Hc].
    unfold holderOf, rowView in Hv. simpl in Hv.
    now rewrite Hn, Hr0 in Hv.
Qed.

(** ** Finite values *)

Lemma finite_values (values : list jsnum) :
  Forall (fun v => JsNum.isFinite v = true) values ->
  values = map Fin (map qval values).
Proof.
  induction 1 as [|v l Hv _ IH]; simpl; [reflexivity|].
  rewrite <- IH. destruct v; try discriminate. reflexivity.
Qed.

Lemma nonneg_finite_spec (x : jsnum) :
  nonneg_finite x = true <-> exists q, x = Fin q /\ 0 <= q.
Proof.
  unfold nonneg_finite. split.
  - intros H. apply andb_true_iff in H. destruct H as [Hf Hz].
    destruct x; try discriminate. exists q. split; [reflexivity|].
    now apply Qle_bool_iff.
  - intros [q [-> Hq]]. simpl. now apply Qle_bool_iff.
Qed.

Lemma nonneg_values (values : list jsnum) :
  Forall (fun v => nonneg_finite v = true) values ->
  values = map Fin (map qval values)
  /\ Forall (fun q => 0 <= q) (map qval values).
Proof.
  intros H. split.
  - apply finite_values. eapply Forall_impl; [|exact H].
    intros v Hv. apply andb_true_iff in Hv. tauto.
  - apply Forall_map. eapply Forall_impl; [|exact H].
    intros v Hv. apply nonneg_finite_spec in Hv.
    destruct Hv as [q [-> Hq]]. exact Hq.
Qed.

Lemma qltb_lt (a b : Q) : JsNum.qltb a b = true <-> a < b.
Proof.
  unfold JsNum.qltb. rewrite negb_true_iff. split.
  - intros H. apply Qnot_le_lt. intros Hle.
    apply Qle_bool_iff in Hle. congruence.
  - intros H. destruct (Qle_bool b a) eqn:E; [|reflexivity].
    apply Qle_bool_iff in E. exfalso. apply (Qlt_not_le _ _ H E).
Qed.

Lemma qltb_ge (a b : Q) : JsNum.qltb a b = false <-> b <= a.
Proof.
  unfold JsNum.qltb. rewrite negb_false_iff. apply Qle_bool_iff.
Qed.

Lemma nat_q_S (n : nat) : nat_q (S n) == nat_q n + 1.
Proof.
  unfold nat_q. rewrite Nat2Z.inj_succ. unfold Z.succ.
  now rewrite inject_Z_plus.
Qed.

Lemma nat_q_nonneg (n : nat) : 0 <= nat_q n.
Proof.
  unfold nat_q. change 0 with (inject_Z 0). rewrite <- Zle_Qle. lia.
Qed.

Lemma fold_add_fin (l : list Q) : forall a,
  fold_left (fun sum value => (sum + value)%js) (map Fin l) (Fin a)
  = Fin (fold_left Qplus l a).
Proof. induction l as [|x l IH]; intros a; simpl; [reflexivity | apply IH]. Qed.

Lemma fold_plus_qsum (l : list Q) : forall a, fold_left Qplus l a == a + qsum l.
Proof.
  induction l as [|x l IH]; intros a; simpl.
  - ring.
  - rewrite IH. ring.
Qed.

Lemma sum_values_fin (l : list Q) :
  exists s, sum_values (map Fin l) = Fin s /\ s == qsum l.
Proof.
  exists (fold_left Qplus l 0). split.
  - apply fold_add_fin.
  - rewrite fold_plus_qsum. ring.
Qed.

Lemma sum_balances_values (hs : list Holder) :
  sum_balances hs = sum_values (map balance hs).
Proof.
  unfold sum_balances, sum_values. generalize JsNum.zero.
  induction hs as [|h hs IH]; intros z; simpl; [reflexivity | apply IH].
Qed.

Lemma qsum_nonneg (l : list Q) : Forall (fun q => 0 <= q) l -> 0 <= qsum l.
Proof.
  induction 1 as [|x l Hx _ IH]; simpl in *; [apply Qle_refl|]. lra.
Qed.

Lemma qsum_perm (l1 l2 : list Q) : Permutation l1 l2 -> qsum l1 == qsum l2.
Proof.
  induction 1; simpl; lra.
Qed.

(** *** The sort orders *)

Section SortSorted.

Context {A : Type} (cmp : A -> A -> jsnum).
Context (R : A -> A -> Prop) (P : A -> Prop).
Hypothesis cmp_gt :
  forall x y, P x -> P y -> (cmp x y >? JsNum.zero)%js = true -> R y x.
Hypothesis cmp_le :
  forall x y, P x -> P y -> (cmp x y >? JsNum.zero)%js = false -> R x y.

Lemma sort_insert_HdRel x y l :
  R y x -> HdRel R y l -> HdRel R y (sort_insert cmp x l).
Proof.
  intros Hyx Hl. destruct l as [|z l]; simpl.
  - now constructor.
  - destruct (cmp x z >? JsNum.zero)%js; constructor;
      [now inversion Hl | exact Hyx].
Qed.

Lemma sort_insert_sorted x l :
  P x -> Forall P l -> Sorted R l -> Sorted R (sort_insert cmp x l).
Proof.
  intros Hx Hl Hs. induction l as [|y l IH]; simpl.
  - repeat constructor.
  - inversion Hl as [|? ? Hy Hl']; subst.
    inversion Hs as [|? ? Hs' Hhd]; subst.
    destruct (cmp x y >? JsNum.zero)%js eqn:E.
    + constructor; [now apply IH|].
      apply sort_insert_HdRel; [now apply cmp_gt | exact Hhd].
    + constructor; [exact Hs|]. constructor. now apply cmp_le.
Qed.

Lemma js_sort_sorted l : Forall P l -> Sorted R (js_sort cmp l).
Proof.
  induction 1 as [|x l Hx Hl IH]; simpl; [constructor|].
  apply sort_insert_sorted; [exact Hx | | exact IH].
  apply Forall_forall. intros z Hz.
  apply (Permutation_in _ (js_sort_perm cmp l)) in Hz.
  revert z Hz. now apply Forall_forall.
Qed.

End SortSorted.

Lemma sort_insert_map {A B : Type} (f : A -> B) (cmp : B -> B -> jsnum) x l :
  sort_insert cmp (f x) (map f l)
  = map f (sort_insert (fun a b => cmp (f a) (f b)) x l).
Proof.
  induction l as [|y l IH]; simpl; [reflexivity|].
  destruct (cmp (f x) (f y) >? JsNum.zero)%js; simpl; [|reflexivity].
  now rewrite IH.
Qed.

Lemma js_sort_map {A B : Type} (f : A -> B) (cmp : B -> B -> jsnum) l :
  js_sort cmp (map f l) = map f (js_sort (fun a b => cmp (f a) (f b)) l).
Proof.
  induction l as [|x l IH]; simpl; [reflexivity|].
  rewrite IH. apply sort_insert_map.
Qed.

Lemma sub_gtb_zero (a b : Q) :
  (Fin a - Fin b >? JsNum.zero)%js = JsNum.qltb b a.
Proof.
  unfold JsNum.sub, JsNum.add, JsNum.neg, JsNum.gtb, JsNum.ltb, JsNum.zero.
  destruct (JsNum.qltb b a) eqn:E.
  - apply qltb_lt in E. apply qltb_lt. lra.
  - apply qltb_ge in E. apply qltb_ge. lra.
Qed.

Lemma sort_ascending_sorted (l : list Q) : Sorted Qle (sort_ascending l).
Proof.
  apply (js_sort_sorted _ Qle (fun _ => True)).
  - intros x y _ _ H. rewrite sub_gtb_zero in H. apply qltb_lt in H. lra.
  - intros x y _ _ H. rewrite sub_gtb_zero in H. now apply qltb_ge in H.
  - apply Forall_forall. auto.
Qed.

Lemma sort_ascending_perm (l : list Q) : Permutation (sort_ascending l) l.
Proof. apply js_sort_perm. Qed.

Lemma sorted_head_le (a : Q) (l : list Q) :
  Sorted Qle (a :: l) -> Forall (Qle a) l.
Proof.
  intros H. apply Sorted_StronglySorted in H.
  - now inversion H.
  - intros x y z. apply Qle_trans.
Qed.

(** The holders both scripts build have finite balances that are not
    negative: their retail thresholds, 0 and 1,000, are not negative and
    their mega-holder threshold is finite.  The statistics below are stated
    for such balances. *)
Lemma aggregate_holders_nonneg_finite
    (chainKey chainLabel : string) (rows : list DuneRow) (owners : list Owner) :
  (JsNum.zero <=? RETAIL_THRESHOLD cfg)%js = true ->
  JsNum.isFinite (MEGA_HOLDER_THRESHOLD cfg) = true ->
  Forall (fun h => nonneg_finite (balance h) = true)
         (holders (processChain chainKey rows))
  /\ Forall (fun h => nonneg_finite (balance h) = true)
            (holders (fetchChainHolders chainKey chainLabel owners)).
Proof.
  intros Hret Hmega.
  assert (H : forall l vs,
             Forall (fun h => nonneg_finite (balance h) = true)
                    (holders (aggregateViews chainKey l vs))).
  { intros l vs. apply Forall_forall. intros h Hin.
    apply (Permutation_in _ (aggregateViews_holders chainKey l vs)) in Hin.
    apply retailHolders_inv in Hin. destruct Hin as [v [_ [Hc ->]]].
    apply classify_retail_inv in Hc.
    destruct Hc as [a0 [_ [_ [Hnan [_ [Hm Hr]]]]]]. simpl.
    unfold nonneg_finite.
    unfold JsNum.geb, JsNum.gtb, JsNum.leb, JsNum.ltb, JsNum.zero
      in Hm, Hr, Hret |- *.
    destruct (MEGA_HOLDER_THRESHOLD cfg) as [| |m|]; try discriminate.
    destruct (RETAIL_THRESHOLD cfg) as [| |r|]; try discriminate;
      destruct (snd v) as [| |q|]; try discriminate.
    simpl. apply Qle_bool_iff in Hret, Hr. apply Qle_bool_iff. lra. }
  split.
  - rewrite processChain_views. apply H.
  - rewrite fetchChainHolders_views. apply H.
Qed.

(** ** The Gini coefficient *)

Lemma qsum_map_ext {X : Type} (f g : X -> Q) (l : list X) :
  (forall x, In x l -> f x == g x) -> qsum (map f l) == qsum (map g l).
Proof.
  induction l as [|x l IH]; intros H; simpl; [reflexivity|].
  rewrite IH by (intros; apply H; now right).
  rewrite (H x) by now left. reflexivity.
Qed.

Lemma fold_plus_map {X : Type} (F : X -> Q) (l : list X) : forall c,
  fold_left (fun c i => c + F i) l c == c + qsum (map F l).
Proof.
  induction l as [|x l IH]; intros c; simpl; [ring|].
  rewrite IH. ring.
Qed.

Lemma index_fin (v : list Q) (i : nat) :
  (i < List.length v)%nat -> index (map Fin v) i = Fin (nth i v 0).
Proof.
  intros H. unfold index.
  rewrite (nth_indep _ NaN (Fin 0)) by now rewrite length_map.
  apply (map_nth Fin).
Qed.

Lemma cumulative_fin (v : list Q) (n : nat) (l : list nat) : forall c,
  Forall (fun i => (i < List.length v)%nat) l ->
  fold_left
    (fun cumulative i =>
       (cumulative + JsNum.of_nat (n - i) * index (map Fin v) i)%js)
    l (Fin c)
  = Fin (fold_left (fun c i => c + nat_q (n - i) * nth i v 0) l c).
Proof.
  induction l as [|i l IH]; intros c H; simpl; [reflexivity|].
  inversion H as [|? ? Hi Hl]; subst.
  rewrite index_fin by exact Hi.
  apply IH. exact Hl.
Qed.

Lemma weighted_loop (v : list Q) :
  qsum (map (fun i => nat_q (List.length v - i) * nth i v 0)
            (seq 0 (List.length v)))
  == weighted v.
Proof.
  induction v as [|a t IH]; [reflexivity|].
  cbn [List.length seq map qsum fold_right weighted].
  rewrite <- seq_shift, map_map. cbn [Nat.sub nth].
  fold (qsum (map (fun i => nat_q (List.length t - i) * nth i t 0)
                  (seq 0 (List.length t)))).
  rewrite IH. reflexivity.
Qed.

Lemma weighted_formula (v : list Q) :
  qsum (map (fun i => (nat_q (List.length v) - nat_q i + 1) * nth (i - 1) v 0)
            (seq 1 (List.length v)))
  == weighted v.
Proof.
  induction v as [|a t IH]; [reflexivity|].
  cbn [List.length seq map qsum fold_right weighted].
  rewrite <- seq_shift, map_map.
  fold (qsum (map (fun i => (nat_q (S (List.length t)) - nat_q (S i) + 1)
                            * nth (S i - 1) (a :: t) 0)
                  (seq 1 (List.length t)))).
  rewrite (qsum_map_ext _
             (fun i => (nat_q (List.length t) - nat_q i + 1) * nth (i - 1) t 0)).
  - rewrite IH. simpl (nth _ _ _). change (nat_q 1) with 1. ring.
  - intros i Hi. apply in_seq in Hi.
    rewrite !nat_q_S.
    replace (S i - 1)%nat with (S (i - 1)) by lia. simpl (nth _ _ _).
    ring.
Qed.

Lemma weighted_ge_sum (v : list Q) :
  Forall (fun q => 0 <= q) v -> qsum v <= weighted v.
Proof.
  induction 1 as [|a t Ha _ IH]; simpl in *; [apply Qle_refl|].
  fold (nat_q (S (List.length t))). rewrite nat_q_S.
  pose proof (nat_q_nonneg (List.length t)). nra.
Qed.

Lemma sum_ge_head (a : Q) (t : list Q) :
  Forall (Qle a) t -> nat_q (List.length t) * a <= qsum t.
Proof.
  induction 1 as [|b t Hb _ IH]; simpl qsum; simpl List.length.
  - change (nat_q 0) with 0. lra.
  - rewrite nat_q_S. nra.
Qed.

Lemma weighted_chebyshev (v : list Q) :
  Sorted Qle v ->
  2 * weighted v <= (nat_q (List.length v) + 1) * qsum v.
Proof.
  induction v as [|a t IH]; intros Hs.
  - simpl. change (nat_q 0) with 0. lra.
  - pose proof (sum_ge_head a t (sorted_head_le a t Hs)) as Hh.
    assert (Ht : Sorted Qle t) by now inversion Hs.
    specialize (IH Ht).
    cbn [weighted qsum fold_right List.length].
    fold (qsum t). rewrite !nat_q_S. nra.
Qed.

Lemma weighted_all_equal (c : Q) (v : list Q) :
  Forall (fun q => q == c) v ->
  2 * weighted v == (nat_q (List.length v) + 1) * (nat_q (List.length v) * c)
  /\ qsum v == nat_q (List.length v) * c.
Proof.
  induction 1 as [|a t Ha _ [IH1 IH2]].
  - simpl. change (nat_q 0) with 0. split; ring.
  - cbn [weighted qsum fold_right List.length].
    fold (qsum t). rewrite !nat_q_S. simpl in Ha. split; nra.
Qed.

Lemma nat_q_pos (n : nat) : (0 < n)%nat -> 0 < nat_q n.
Proof.
  intros H. unfold nat_q. change 0 with (inject_Z 0). rewrite <- Zlt_Qlt. lia.
Qed.

Lemma Qeq_bool_false (x : Q) : ~ x == 0 -> Qeq_bool x 0 = false.
Proof.
  intros H. destruct (Qeq_bool x 0) eqn:E; [|reflexivity].
  apply Qeq_bool_iff in E. contradiction.
Qed.

(** The value [calculateGiniCoefficient] returns on finite values. *)
Lemma gini_eval (vs : list Q) :
  vs <> [] ->
  let sq := sort_ascending vs in
  let n := List.length vs in
  let S := fold_left Qplus sq 0 in
  let C := fold_left (fun c i => c + nat_q (n - i) * nth i sq 0) (seq 0 n) 0 in
  calculateGiniCoefficient (map Fin vs)
  = if Qeq_bool S 0 then Fin 0
    else Fin ((nat_q (n + 1) + - (2 * C / S)) / nat_q n).
Proof.
  intros Hne. cbv zeta. unfold calculateGiniCoefficient.
  destruct vs as [|a vs']; [congruence|].
  set (vs := a :: vs') in *.
  replace (List.length (map Fin vs) =? 0)%nat with false by reflexivity.
  rewrite (js_sort_map Fin (fun a b => (a - b)%js) vs).
  fold (sort_ascending vs).
  assert (Hlen : List.length (sort_ascending vs) = List.length vs)
    by apply js_sort_length.
  rewrite length_map, Hlen.
  unfold sum_values, JsNum.zero. rewrite fold_add_fin.
  unfold JsNum.strict_eq.
  destruct (Qeq_bool (fold_left Qplus (sort_ascending vs) 0) 0) eqn:E;
    [reflexivity|].
  rewrite cumulative_fin.
  - unfold JsNum.mul, JsNum.div, JsNum.sub, JsNum.add, JsNum.neg, JsNum.of_nat.
    rewrite E. fold (nat_q (List.length vs)). fold (nat_q (List.length vs + 1)).
    rewrite Qeq_bool_false; [reflexivity|].
    pose proof (nat_q_pos (List.length vs)) as Hp.
    assert (0 < List.length vs)%nat by (subst vs; simpl; lia).
    specialize (Hp H). lra.
  - apply Forall_forall. intros i Hi. apply in_seq in Hi. lia.
Qed.

Lemma all_equal_Forall (l : list Q) :
  all_equal l -> exists c, Forall (fun q => q == c) l.
Proof.
  intros H. destruct l as [|c l].
  - exists 0. constructor.
  - exists c. apply Forall_forall. intros q Hq. apply H; [exact Hq | now left].
Qed.

(** C1.  In exact arithmetic, on balances that are finite and not negative
    (those of holders, see [aggregate_holders_nonneg_finite]),
    [calculateGiniCoefficient] returns a finite number [g] with
    [0 <= g < 1]; [g] is [0] for the empty list, for a total of [0] and for
    balances that are all equal; and on a non-empty list whose total is not
    [0], [g] is the value of
    [(n + 1 - 2 * (sum of (n - i + 1) * v_i) / (sum of v_i)) / n]
    on the ascending rearrangement [v] of the balances. *)
Theorem gini_coefficient_range_and_formula (values : list jsnum)
    (Hnn : Forall (fun v => nonneg_finite v = true) values) :
  let vs := map qval values in
  exists g,
    calculateGiniCoefficient values = Fin g
    /\ 0 <= g < 1
    /\ (values = [] \/ qsum vs == 0 \/ all_equal vs -> g == 0)
    /\ (values <> [] -> ~ qsum vs == 0 ->
        exists v,
          Permutation v vs /\ Sorted Qle v /\ g == gini_formula v).
Proof.
  cbv zeta. destruct (nonneg_values values Hnn) as [Hv Hpos].
  remember (map qval values) as vs eqn:Evs. clear Evs Hnn. subst values.
  destruct vs as [|a vs'].
  { exists 0. split; [reflexivity|]. split; [lra|]. split.
    - intros _. reflexivity.
    - intros Hne. exfalso. now apply Hne. }
  remember (a :: vs') as vs eqn:Evs.
  assert (Hne : vs <> []) by (subst vs; discriminate).
  clear Evs a vs'.
  rewrite (gini_eval vs Hne). cbv zeta.
  set (sq := sort_ascending vs).
  set (n := List.length vs).
  set (S := fold_left Qplus sq 0).
  set (C := fold_left (fun c i => c + nat_q (n - i) * nth i sq 0) (seq 0 n) 0).
  assert (Hperm : Permutation sq vs) by apply sort_ascending_perm.
  assert (Hsorted : Sorted Qle sq) by apply sort_ascending_sorted.
  assert (Hlen : List.length sq = n) by apply js_sort_length.
  assert (HS : S == qsum vs).
  { unfold S. rewrite fold_plus_qsum, (qsum_perm _ _ Hperm). ring. }
  assert (HC : C == weighted sq).
  { unfold C. rewrite fold_plus_map. rewrite <- Hlen.
    rewrite weighted_loop. ring. }
  assert (Hsqpos : Forall (fun q => 0 <= q) sq).
  { apply Forall_forall. intros q Hq.
    apply (Permutation_in _ Hperm) in Hq. revert q Hq.
    now apply Forall_forall. }
  destruct (Qeq_bool S 0) eqn:E.
  { apply Qeq_bool_iff in E. exists 0.
    split; [reflexivity|]. split; [lra|]. split.
    - intros _. reflexivity.
    - intros _ Hs. exfalso. apply Hs. lra. }
  assert (HSne : ~ S == 0).
  { intros H. apply Qeq_bool_iff in H. congruence. }
  pose proof (qsum_nonneg vs Hpos) as HTpos.
  assert (HSpos : 0 < S) by (apply Qnot_le_lt; intros H; apply HSne; lra).
  pose proof (weighted_ge_sum sq Hsqpos) as Hlow.
  pose proof (weighted_chebyshev sq Hsorted) as Hup.
  rewrite (qsum_perm _ _ Hperm) in Hlow, Hup. rewrite Hlen in Hup.
  assert (Hn : 0 < nat_q n).
  { apply nat_q_pos. unfold n. destruct vs; [congruence | simpl; lia]. }
  assert (Hn1 : nat_q (n + 1) == nat_q n + 1).
  { replace (n + 1)%nat with (Datatypes.S n) by lia. apply nat_q_S. }
  set (X := 2 * C / S).
  assert (HX : X * S == 2 * C) by (unfold X; field; exact HSne).
  set (g := (nat_q (n + 1) + - X) / nat_q n).
  assert (Hg : g * nat_q n == nat_q n + 1 - X).
  { unfold g. rewrite Hn1. field. lra. }
  exists g. split; [reflexivity|]. split; [|split].
  - split.
    + assert (X <= nat_q n + 1) by nra. nra.
    + assert (1 < X) by nra. nra.
  - intros [H|[H|H]].
    + destruct vs; [congruence | discriminate].
    + lra.
    + destruct (all_equal_Forall vs H) as [c Hc].
      assert (Hc' : Forall (fun q => q == c) sq).
      { apply Forall_forall. intros q Hq.
        apply (Permutation_in _ Hperm) in Hq. revert q Hq.
        now apply Forall_forall. }
      destruct (weighted_all_equal c sq Hc') as [H1 H2].
      rewrite Hlen in H1, H2. rewrite (qsum_perm _ _ Hperm) in H2.
      assert (X == nat_q n + 1) by nra. nra.
  - intros _ _. exists sq. split; [exact Hperm|]. split; [exact Hsorted|].
    unfold gini_formula. cbv zeta. rewrite weighted_formula, Hlen.
    unfold g, X. rewrite Hn1, HC, HS, (qsum_perm _ _ Hperm). reflexivity.
Qed.

(** ** The standard deviation *)

Lemma fold_sq_fin (m : Q) (l : list Q) : forall c,
  fold_left (fun sum value => (sum + JsNum.square (value - Fin m))%js)
            (map Fin l) (Fin c)
  = Fin (fold_left (fun c v => c + (v + - m) * (v + - m)) l c).
Proof. induction l as [|x l IH]; intros c; simpl; [reflexivity | apply IH]. Qed.

(** The value [calculateStdDeviation] takes the root of, on finite
    values. *)
Lemma stddev_eval (vs : list Q) :
  vs <> [] ->
  let n := nat_q (List.length vs) in
  let mean := fold_left Qplus vs 0 / n in
  calculateStdDeviation (map Fin vs)
  = JsNum.msqrt
      (Fin (fold_left (fun c v => c + (v + - mean) * (v + - mean)) vs 0 / n)).
Proof.
  intros Hne. cbv zeta. unfold calculateStdDeviation.
  destruct vs as [|a vs']; [congruence|].
  set (vs := a :: vs') in *.
  replace (List.length (map Fin vs) =? 0)%nat with false by reflexivity.
  rewrite length_map.
  assert (Hn : Qeq_bool (nat_q (List.length vs)) 0 = false).
  { apply Qeq_bool_false.
    pose proof (nat_q_pos (List.length vs)) as Hp.
    assert (0 < List.length vs)%nat by (subst vs; simpl; lia).
    specialize (Hp H). lra. }
  unfold sum_values, JsNum.zero. rewrite fold_add_fin.
  unfold JsNum.div at 2, JsNum.of_nat. fold (nat_q (List.length vs)).
  rewrite Hn. rewrite fold_sq_fin.
  unfold JsNum.div. now rewrite Hn.
Qed.

Lemma sq_nonneg (d : Q) : 0 <= d * d.
Proof. nra. Qed.

Lemma sq_sum_nonneg (m : Q) (l : list Q) :
  0 <= qsum (map (fun v => (v - m) * (v - m)) l).
Proof.
  induction l as [|a l IH]; cbn [map qsum fold_right]; [apply Qle_refl|].
  fold (qsum (map (fun v => (v - m) * (v - m)) l)).
  pose proof (sq_nonneg (a - m)). lra.
Qed.

Lemma sq_sum_zero (m : Q) (l : list Q) :
  qsum (map (fun v => (v - m) * (v - m)) l) == 0
  <-> Forall (fun v => v == m) l.
Proof.
  induction l as [|a l IH]; cbn [map qsum fold_right].
  - split; [constructor | reflexivity].
  - fold (qsum (map (fun v => (v - m) * (v - m)) l)).
    pose proof (sq_sum_nonneg m l) as Hp.
    pose proof (sq_nonneg (a - m)) as Hsq.
    split.
    + intros H.
      assert (Ha : (a - m) * (a - m) == 0) by lra.
      assert (Hl : qsum (map (fun v => (v - m) * (v - m)) l) == 0) by lra.
      constructor; [|now apply IH].
      apply Qmult_integral in Ha. destruct Ha; lra.
    + intros H. inversion H as [|? ? Ha Hl]; subst.
      apply IH in Hl. rewrite Hl, Ha. ring.
Qed.

Lemma all_equal_mean (vs : list Q) :
  vs <> [] ->
  (Forall (fun v => v == mean_of vs) vs <-> all_equal vs).
Proof.
  intros Hne. split.
  - intros H a b Ha Hb.
    rewrite Forall_forall in H. rewrite (H a Ha), (H b Hb). reflexivity.
  - intros H. destruct (all_equal_Forall vs H) as [c Hc].
    destruct (weighted_all_equal c vs Hc) as [_ Hs].
    assert (Hn : 0 < nat_q (List.length vs)).
    { apply nat_q_pos. destruct vs; [congruence | simpl; lia]. }
    assert (Hm : mean_of vs == c).
    { unfold mean_of. rewrite Hs. field. lra. }
    eapply Forall_impl; [|exact Hc]. intros q Hq. simpl in Hq.
    rewrite Hq, Hm. reflexivity.
Qed.

Lemma variance_eval (vs : list Q) :
  let n := nat_q (List.length vs) in
  let mean := fold_left Qplus vs 0 / n in
  fold_left (fun c v => c + (v + - mean) * (v + - mean)) vs 0 / n
  == population_variance vs.
Proof.
  cbv zeta. unfold population_variance.
  assert (Hm : fold_left Qplus vs 0 / nat_q (List.length vs) == mean_of vs).
  { unfold mean_of. rewrite fold_plus_qsum.
    setoid_replace (0 + qsum vs) with (qsum vs) by ring. reflexivity. }
  rewrite (fold_plus_map
             (fun v => (v + - (fold_left Qplus vs 0 / nat_q (List.length vs)))
                       * (v + - (fold_left Qplus vs 0 / nat_q (List.length vs))))).
  rewrite (qsum_map_ext _ (fun v => (v - mean_of vs) * (v - mean_of vs))).
  - setoid_replace (0 + qsum (map (fun v => (v - mean_of vs) * (v - mean_of vs)) vs))
      with (qsum (map (fun v => (v - mean_of vs) * (v - mean_of vs)) vs)) by ring.
    reflexivity.
  - intros v _. rewrite Hm. ring.
Qed.

Lemma variance_nonneg (vs : list Q) : 0 <= population_variance vs.
Proof.
  unfold population_variance.
  pose proof (sq_sum_nonneg (mean_of vs) vs) as H.
  destruct vs as [|a t].
  - simpl. unfold Qdiv, Qinv. simpl. lra.
  - apply Qle_shift_div_l.
    + apply nat_q_pos. simpl. lia.
    + lra.
Qed.

Lemma variance_zero_iff (vs : list Q) :
  vs <> [] -> (population_variance vs == 0 <-> all_equal vs).
Proof.
  intros Hne. rewrite <- (all_equal_mean vs Hne), <- sq_sum_zero.
  unfold population_variance.
  assert (Hn : 0 < nat_q (List.length vs)).
  { apply nat_q_pos. destruct vs; [congruence | simpl; lia]. }
  split.
  - intros H.
    rewrite <- (Qmult_div_r
                  (qsum (map (fun v => (v - mean_of vs) * (v - mean_of vs)) vs))
                  (nat_q (List.length vs))) by lra.
    rewrite H. ring.
  - intros H. rewrite H. field. lra.
Qed.

Lemma Q2R_zero_iff (x : Q) : Q2R x = 0%R <-> x == 0.
Proof.
  split.
  - intros H. apply eqR_Qeq. rewrite H. symmetry. apply RMicromega.Q2R_0.
  - intros H. rewrite (Qeq_eqR _ _ H). apply RMicromega.Q2R_0.
Qed.

(** C9.  In exact arithmetic, on finite balances,
    [calculateStdDeviation] returns the square root of the population
    variance (the squared deviations from the mean,
    summed and divided by [n]); it returns [0] on the empty list; and its
    result is [0] exactly when all balances are equal or there is at most
    one of them. *)
Theorem std_deviation_zero_iff_all_equal (values : list jsnum)
    (Hfin : Forall (fun v => JsNum.isFinite v = true) values) :
  let vs := map qval values in
  exists r : R,
    calculateStdDeviation values = RFin r
    /\ (values = [] -> r = 0%R)
    /\ (values <> [] -> r = R_sqrt.sqrt (Q2R (population_variance vs)))
    /\ (r = 0%R <-> all_equal vs \/ (List.length values <= 1)%nat).
Proof.
  cbv zeta. pose proof (finite_values values Hfin) as Hv.
  remember (map qval values) as vs eqn:Evs. clear Evs Hfin. subst values.
  destruct vs as [|a vs'].
  { exists 0%R. split; [reflexivity|]. split; [reflexivity|]. split.
    - intros H. now exfalso.
    - split; [|reflexivity]. intros _. right. simpl. lia. }
  remember (a :: vs') as vs eqn:Evs.
  assert (Hne : vs <> []) by (subst vs; discriminate).
  rewrite (stddev_eval vs Hne). cbv zeta.
  pose proof (variance_eval vs) as Hvar. cbv zeta in Hvar.
  pose proof (variance_nonneg vs) as Hpos.
  set (var := fold_left _ vs 0 / _) in Hvar |- *.
  unfold JsNum.msqrt.
  replace (JsNum.qltb var 0) with false
    by (symmetry; apply qltb_ge; lra).
  exists (R_sqrt.sqrt (Q2R var)).
  assert (Hr : R_sqrt.sqrt (Q2R var)
               = R_sqrt.sqrt (Q2R (population_variance vs)))
    by now rewrite (Qeq_eqR _ _ Hvar).
  split; [reflexivity|]. split; [|split].
  - intros H. subst vs. discriminate.
  - intros _. exact Hr.
  - rewrite Hr.
    assert (Hz : R_sqrt.sqrt (Q2R (population_variance vs)) = 0%R
                 <-> all_equal vs).
    { rewrite <- (variance_zero_iff vs Hne), <- Q2R_zero_iff. split.
      - intros H. apply sqrt_eq_0; [|exact H].
        rewrite <- RMicromega.Q2R_0. now apply Qle_Rle.
      - intros H. rewrite H. apply sqrt_0. }
    rewrite Hz. split; [intros H; now left|]. intros [H|H]; [exact H|].
    rewrite length_map in H. subst vs. destruct vs'; [|simpl in H; lia].
    intros x y [<-|[]] [<-|[]]. reflexivity.
Qed.

(** ** The histogram *)

Lemma Qle_bool_false (a b : Q) : Qle_bool a b = false -> b < a.
Proof.
  intros H. apply Qnot_le_lt. intros Hle. apply Qle_bool_iff in Hle. congruence.
Qed.

Ltac split_Qle_bool :=
  repeat match goal with
         | |- context [Qle_bool ?a ?b] =>
             let E := fresh "E" in
             destruct (Qle_bool a b) eqn:E;
             [apply Qle_bool_iff in E | apply Qle_bool_false in E];
             try (exfalso; lra)
         end.

Lemma contrib_brackets (h : Holder) :
  JsNum.isFinite (balance h) = true ->
  qsum (map (fun b => contrib b h) brackets) == histogram_share (qbal h).
Proof.
  unfold contrib, inBracketTest, qbal, histogram_share.
  destruct (balance h) as [| |q|]; try discriminate. intros _.
  unfold brackets, JsNum.geb, JsNum.leb, JsNum.ltb, JsNum.qltb. simpl.
  split_Qle_bool; simpl; lra.
Qed.

Lemma qsum_map_plus {X : Type} (f g : X -> Q) (l : list X) :
  qsum (map f l) + qsum (map g l) == qsum (map (fun x => f x + g x) l).
Proof.
  induction l as [|x l IH]; simpl; [ring|].
  rewrite <- IH. ring.
Qed.

Lemma qsum_swap {X Y : Type} (F : X -> Y -> Q) (xs : list X) (ys : list Y) :
  qsum (map (fun x => qsum (map (F x) ys)) xs)
  == qsum (map (fun y => qsum (map (fun x => F x y) xs)) ys).
Proof.
  induction xs as [|x xs IH]; simpl.
  - induction ys as [|y ys IHy]; simpl; [reflexivity|].
    rewrite <- IHy. ring.
  - rewrite IH. apply qsum_map_plus.
Qed.

Lemma sum_balances_fin (hs : list Holder) :
  Forall (fun h => JsNum.isFinite (balance h) = true) hs ->
  exists s, sum_balances hs = Fin s /\ s == qsum (map qbal hs).
Proof.
  intros H. rewrite sum_balances_values.
  assert (Hf : Forall (fun v => JsNum.isFinite v = true) (map balance hs))
    by now apply Forall_map.
  rewrite (finite_values _ Hf).
  destruct (sum_values_fin (map qval (map balance hs))) as [s [Hs Heq]].
  exists s. split; [exact Hs|]. rewrite Heq, map_map. reflexivity.
Qed.

Lemma bucket_total_fin (b : Bracket) (hs : list Holder) :
  Forall (fun h => JsNum.isFinite (balance h) = true) hs ->
  exists s, sum_balances (inBracket b hs) = Fin s
            /\ s == qsum (map (contrib b) hs).
Proof.
  intros H.
  destruct (sum_balances_fin (inBracket b hs)) as [s [Hs Heq]].
  { apply Forall_forall. intros h Hh. apply filter_In in Hh.
    destruct Hh as [Hh _]. revert h Hh. now apply Forall_forall. }
  exists s. split; [exact Hs|]. rewrite Heq. clear.
  unfold inBracket. fold (inBracketTest b).
  induction hs as [|h hs IH]; simpl; [reflexivity|].
  unfold contrib at 1. destruct (inBracketTest b h); simpl; rewrite IH; ring.
Qed.

Lemma sum_values_map_fin {X : Type} (F : X -> jsnum) (G : X -> Q)
    (xs : list X) :
  (forall x, exists s, F x = Fin s /\ s == G x) ->
  forall c, exists d,
    fold_left (fun sum value => (sum + value)%js) (map F xs) (Fin c) = Fin d
    /\ d == c + qsum (map G xs).
Proof.
  intros H. induction xs as [|x xs IH]; intros c; simpl.
  - exists c. split; [reflexivity | ring].
  - destruct (H x) as [s [Hs Heq]]. rewrite Hs.
    destruct (IH (c + s)) as [d [Hd Hdeq]].
    exists d. split; [exact Hd|]. rewrite Hdeq, Heq. ring.
Qed.

Lemma distributionTotal_fin (hs : list Holder) :
  Forall (fun h => JsNum.isFinite (balance h) = true) hs ->
  exists d,
    distributionTotal (calculateDistribution hs) = Fin d
    /\ d == qsum (map (fun h => histogram_share (qbal h)) hs).
Proof.
  intros H. unfold distributionTotal, calculateDistribution.
  rewrite map_map. cbn [totalBalance].
  destruct (sum_values_map_fin
              (fun b => sum_balances (inBracket b hs))
              (fun b => qsum (map (contrib b) hs)) brackets
              (fun b => bucket_total_fin b hs H) 0) as [d [Hd Heq]].
  exists d. split; [exact Hd|]. rewrite Heq.
  rewrite (qsum_swap contrib brackets hs).
  rewrite (qsum_map_ext _ (fun h => histogram_share (qbal h))).
  - ring.
  - intros h Hh. apply contrib_brackets.
    revert h Hh. now apply Forall_forall.
Qed.

Lemma histogram_share_le (qs : list Q) :
  Forall (fun q => 0 <= q) qs ->
  qsum (map histogram_share qs) <= qsum qs
  /\ (qsum (map histogram_share qs) == qsum qs
      <-> Forall (fun q => 1000 <= q \/ q == 0) qs).
Proof.
  induction 1 as [|a t Ha _ [IHle IHeq]]; simpl.
  - split; [lra|]. split; [constructor | reflexivity].
  - fold (qsum (map histogram_share t)). fold (qsum t).
    assert (Hshare : histogram_share a <= a
                     /\ (histogram_share a == a <-> 1000 <= a \/ a == 0)).
    { unfold histogram_share. destruct (Qle_bool 1000 a) eqn:E.
      - apply Qle_bool_iff in E. split; [lra|]. split; [intros _; now left | reflexivity].
      - apply Qle_bool_false in E. split; [lra|]. split.
        + intros H0. right. lra.
        + intros [H0|H0]; lra. }
    destruct Hshare as [Hsle Hseq].
    split; [lra|]. split.
    + intros H. constructor.
      * apply Hseq. lra.
      * apply IHeq. lra.
    + intros H. inversion H as [|? ? H1 H2]; subst.
      apply Hseq in H1. apply IHeq in H2. lra.
Qed.

Lemma below_floor_in_no_bracket (b : Bracket) (h : Holder) :
  In b brackets -> (balance h <? Fin 1000)%js = true ->
  inBracketTest b h = false.
Proof.
  intros Hb Hlt. unfold inBracketTest.
  destruct (balance h) as [| |q|]; try reflexivity; try discriminate.
  - unfold brackets in Hb. simpl in Hb.
    repeat (destruct Hb as [<-|Hb]; [reflexivity|]). contradiction.
  - unfold JsNum.ltb in Hlt. apply qltb_lt in Hlt.
    apply andb_false_iff. left.
    unfold brackets in Hb. simpl in Hb.
    repeat (destruct Hb as [<-|Hb];
            [unfold JsNum.geb, JsNum.leb; simpl;
             destruct (Qle_bool _ q) eqn:E; [|reflexivity];
             apply Qle_bool_iff in E; exfalso; lra|]).
    contradiction.
Qed.

Lemma floor_or_zero (h : Holder) :
  JsNum.isFinite (balance h) = true ->
  (1000 <= qbal h \/ qbal h == 0
   <-> (balance h >=? Fin 1000)%js = true
       \/ (balance h === JsNum.zero)%js = true).
Proof.
  unfold qbal. destruct (balance h) as [| |q|]; try discriminate.
  intros _. unfold JsNum.geb, JsNum.leb, JsNum.strict_eq, JsNum.zero. simpl.
  now rewrite Qle_bool_iff, Qeq_bool_iff.
Qed.

(** C8, as the code has it.  In exact arithmetic, for holders with finite
    balances that are not negative, the [totalBalance] values of the histogram sum to at most
    the sum of all holder balances, with equality exactly when every
    holder's balance is at least 1,000 or is [0].  A holder below 1,000 is
    in no bracket, and is counted all the same in [retailHolderCount] and
    [totalRetailSupply] of the aggregate. *)
Theorem histogram_total_at_most_supply (hs : list Holder)
    (Hnn : Forall (fun h => nonneg_finite (balance h) = true) hs) :
  exists d s,
    distributionTotal (calculateDistribution hs) = Fin d
    /\ sum_balances hs = Fin s
    /\ d <= s
    /\ (d == s
        <-> Forall (fun h => (balance h >=? Fin 1000)%js = true
                             \/ (balance h === JsNum.zero)%js = true) hs)
    /\ (forall h b,
          In h hs -> In b brackets -> (balance h <? Fin 1000)%js = true ->
          ~ In h (inBracket b hs))
    /\ (forall chainKey chainLabel a,
          let agg := finishChain chainKey chainLabel a in
          retailHolderCount agg = List.length (holders agg)
          /\ totalRetailSupply agg = sum_balances (holders agg)
          /\ distribution (metrics agg) = calculateDistribution (holders agg)).
Proof.
  assert (Hfin : Forall (fun h => JsNum.isFinite (balance h) = true) hs).
  { eapply Forall_impl; [|exact Hnn]. intros h Hh.
    apply andb_true_iff in Hh. tauto. }
  assert (Hpos : Forall (fun q => 0 <= q) (map qbal hs)).
  { apply Forall_map. eapply Forall_impl; [|exact Hnn]. intros h Hh.
    apply nonneg_finite_spec in Hh. destruct Hh as [q [Hq Hq0]].
    unfold qbal. now rewrite Hq. }
  destruct (distributionTotal_fin hs Hfin) as [d [Hd Hdeq]].
  destruct (sum_balances_fin hs Hfin) as [s [Hs Hseq]].
  destruct (histogram_share_le (map qbal hs) Hpos) as [Hle Heq].
  rewrite map_map in Hle, Heq.
  exists d, s. split; [exact Hd|]. split; [exact Hs|]. split; [lra|].
  split; [|split].
  - rewrite Hdeq, Hseq, Heq. rewrite Forall_map.
    rewrite !Forall_forall. rewrite Forall_forall in Hfin.
    split; intros H h Hh; specialize (H h Hh);
      apply (floor_or_zero h (Hfin h Hh)); exact H.
  - intros h b Hh Hb Hlt Hin. apply filter_In in Hin.
    destruct Hin as [_ Hin].
    pose proof (below_floor_in_no_bracket b h Hb Hlt) as Hf.
    unfold inBracketTest in Hf. congruence.
  - intros chainKey chainLabel a. cbv zeta. repeat split.
Qed.

(** ** The top-N report *)

Lemma Forall_firstn' {X : Type} (P : X -> Prop) (n : nat) (l : list X) :
  Forall P l -> Forall P (firstn n l).
Proof.
  intros H. rewrite Forall_forall in *. intros x Hx.
  apply H. rewrite <- (firstn_skipn n l). apply in_or_app. now left.
Qed.

Lemma firstn_sum_nonneg (hs : list Holder) : forall m,
  Forall (fun h => 0 <= qbal h) hs ->
  0 <= qsum (map qbal (firstn m hs)).
Proof.
  induction hs as [|h hs IH]; intros m H.
  - rewrite firstn_nil. simpl. lra.
  - destruct m as [|m]; simpl; [lra|].
    inversion H as [|? ? Hh Hhs]; subst.
    specialize (IH m Hhs). fold (qsum (map qbal (firstn m hs))). lra.
Qed.

Lemma firstn_sum_mono (hs : list Holder) : forall n m,
  (n <= m)%nat ->
  Forall (fun h => 0 <= qbal h) hs ->
  qsum (map qbal (firstn n hs)) <= qsum (map qbal (firstn m hs)).
Proof.
  induction hs as [|h hs IH]; intros n m Hnm H.
  - rewrite !firstn_nil. simpl. lra.
  - inversion H as [|? ? Hh Hhs]; subst.
    destruct n as [|n].
    + apply (firstn_sum_nonneg (h :: hs) m H).
    + destruct m as [|m]; [lia|]. simpl.
      fold (qsum (map qbal (firstn n hs))).
      fold (qsum (map qbal (firstn m hs))).
      assert (Hle : (n <= m)%nat) by lia.
      specialize (IH n m Hle Hhs). lra.
Qed.

Lemma hundredths_nearest (p : Q) :
  inject_Z (hundredths p) - (1 # 2) <= p * 100
  /\ p * 100 < inject_Z (hundredths p) + (1 # 2).
Proof.
  unfold hundredths.
  pose proof (Qfloor_le (p * 100 + (1 # 2))) as H1.
  pose proof (Qlt_floor (p * 100 + (1 # 2))) as H2.
  rewrite inject_Z_plus in H2. change (inject_Z 1) with 1 in H2.
  split; lra.
Qed.

(** *** Doubles against their specification *)

Lemma Prim2SF_zero : Prim2SF 0 = S754_zero false.
Proof. reflexivity. Qed.

Lemma positive_truthy (x : float) :
  (0 <? x)%float = true -> is_nan x = false /\ (x =? 0)%float = false.
Proof.
  unfold is_nan.
  rewrite FloatAxioms.ltb_spec, !FloatAxioms.eqb_spec, Prim2SF_zero.
  destruct (Prim2SF x) as [s|s| |s m e]; try discriminate.
  - destruct s; [discriminate|]. intros _. split; reflexivity.
  - destruct s; [discriminate|]. intros _. split; [|reflexivity].
    unfold SFeqb, SFcompare. rewrite Z.compare_refl.
    change (PosDef.Pos.compare_cont Eq m m) with (Pos.compare m m).
    now rewrite Pos.compare_refl.
Qed.

Lemma leb_zero_not_positive (x : float) :
  (x <=? 0)%float = true -> (0 <? x)%float = false.
Proof.
  rewrite FloatAxioms.leb_spec, FloatAxioms.ltb_spec, Prim2SF_zero.
  destruct (Prim2SF x) as [s|s| |s m e]; try reflexivity; try discriminate;
    destruct s; try reflexivity; discriminate.
Qed.

Lemma or_zero64_positive (x : float) :
  ((0 <? x)%float = true -> or_zero64 x = x)
  /\ (0 <? or_zero64 x)%float = (0 <? x)%float.
Proof.
  unfold or_zero64.
  destruct (0 <? x)%float eqn:E.
  - destruct (positive_truthy x E) as [H1 H2]. rewrite H1, H2. simpl.
    split; [reflexivity | exact E].
  - split; [discriminate|].
    destruct (is_nan x || (x =? 0)%float); [reflexivity | exact E].
Qed.

(** *** The strings of [toFixed(2)] *)

Lemma hundredths_nonneg (q : Q) : 0 <= q -> (0 <= hundredths q)%Z.
Proof.
  intros H. unfold hundredths.
  change 0%Z with (Qfloor 0). apply Qfloor_resp_le. lra.
Qed.

Lemma fixed2_digits (h : Z) :
  (0 <= h)%Z ->
  exists w a b : Z,
    (0 <= w /\ 0 <= a < 10 /\ 0 <= b < 10)%Z
    /\ (100 * w + 10 * a + b = h)%Z
    /\ fixed2 h = twoDecimals w a b.
Proof.
  intros H. exists (h / 100)%Z, ((h / 10) mod 10)%Z, (h mod 10)%Z.
  split; [|split; [|reflexivity]].
  - Z.div_mod_to_equations. lia.
  - Z.div_mod_to_equations. lia.
Qed.

Lemma toFixed2_small (q : Q) :
  0 <= q -> q < 1000000000000000000000 ->
  toFixed2 (Fin q) = fixed2 (hundredths q).
Proof.
  intros Hp0 Hp1. unfold toFixed2. rewrite Qabs_pos by exact Hp0.
  replace (Qle_bool 1000000000000000000000 q) with false.
  - replace (JsNum.qltb q 0) with false; [reflexivity|].
    symmetry. now apply qltb_ge.
  - symmetry. destruct (Qle_bool 1000000000000000000000 q) eqn:E;
      [|reflexivity].
    apply Qle_bool_iff in E. lra.
Qed.

Lemma toFixed2_negative (q : Q) :
  q < 0 -> - (1000000000000000000000) < q ->
  toFixed2 (Fin q) = "-" ++ fixed2 (hundredths (- q)).
Proof.
  intros Hneg Hlow. unfold toFixed2. rewrite Qabs_neg by lra.
  replace (Qle_bool 1000000000000000000000 (- q)) with false.
  - replace (JsNum.qltb q 0) with true; [reflexivity|].
    symmetry. now apply qltb_lt.
  - symmetry. destruct (Qle_bool 1000000000000000000000 (- q)) eqn:E;
      [|reflexivity].
    apply Qle_bool_iff in E. lra.
Qed.


(** ** The combiner *)

Lemma fold_combine_holders crs : forall c,
  c_holders (fold_left combineStep crs c)
  = (c_holders c ++ allHolders crs)%list.
Proof.
  induction crs as [|e crs IH]; intros c; simpl.
  - unfold allHolders. simpl. now rewrite app_nil_r.
  - rewrite IH. simpl. unfold allHolders. simpl. now rewrite app_assoc.
Qed.

Lemma set_add_all_app l1 l2 s :
  set_add_all (l1 ++ l2) s = set_add_all l2 (set_add_all l1 s).
Proof. apply fold_left_app. Qed.

Lemma fold_combine_excluded crs : forall c,
  c_excludedAddresses (fold_left combineStep crs c)
  = set_add_all (List.concat (map (fun e => excludedAddresses (snd e)) crs))
                (c_excludedAddresses c).
Proof.
  induction crs as [|e crs IH]; intros c; simpl; [reflexivity|].
  rewrite IH. simpl. now rewrite set_add_all_app.
Qed.

Lemma occurrences_allHolders addr crs :
  occurrences addr (allHolders crs)
  = list_sum (map (fun e => occurrences addr (holders (snd e))) crs).
Proof.
  unfold occurrences, allHolders.
  induction crs as [|e crs IH]; simpl; [reflexivity|].
  rewrite map_app, count_occ_app, IH, map_map. reflexivity.
Qed.

Lemma sub_gtb_order (x y : jsnum) :
  JsNum.isNaN x = false -> JsNum.isNaN y = false ->
  ((y - x >? JsNum.zero)%js = true -> (x <=? y)%js = true)
  /\ ((y - x >? JsNum.zero)%js = false -> (y <=? x)%js = true).
Proof.
  destruct x as [| |a|], y as [| |b|]; try discriminate; intros _ _;
    try (split; intros H; solve [reflexivity | discriminate H]).
  rewrite sub_gtb_zero. unfold JsNum.leb. split; intros H.
  - apply qltb_lt in H. apply Qle_bool_iff. lra.
  - apply qltb_ge in H. now apply Qle_bool_iff.
Qed.

Lemma sortHolders_descending (hs : list Holder) :
  Forall (fun h => JsNum.isNaN (balance h) = false) hs ->
  Sorted descending (sortHolders hs).
Proof.
  apply (js_sort_sorted _ descending
           (fun h => JsNum.isNaN (balance h) = false)).
  - intros x y Hx Hy H. now apply (sub_gtb_order (balance x) (balance y)).
  - intros x y Hx Hy H. now apply (sub_gtb_order (balance x) (balance y)).
Qed.

(** C5, as the code has it.  The combined holder list is the concatenation
    of the chains' holder lists, each holder relabelled with its chain,
    sorted by descending balance: nothing is merged, and an address held on
    several chains occurs once for each of them.  Only the excluded
    addresses are a set. *)
Theorem combined_holders_are_concatenated
    (chainResults : jsobject ChainAggregate) :
  let combined := buildCombinedDataset chainResults in
  Permutation (holders combined) (allHolders chainResults)
  /\ retailHolderCount combined
     = list_sum (map (fun e => List.length (holders (snd e))) chainResults)
  /\ (forall addr,
        occurrences addr (holders combined)
        = list_sum (map (fun e => occurrences addr (holders (snd e)))
                        chainResults))
  /\ (Forall (fun h => JsNum.isNaN (balance h) = false)
             (allHolders chainResults) ->
      Sorted descending (holders combined))
  /\ NoDup (excludedAddresses combined)
  /\ (forall x,
        In x (excludedAddresses combined)
        <-> exists e, In e chainResults /\ In x (excludedAddresses (snd e))).
Proof.
  cbv zeta.
  assert (Hh : holders (buildCombinedDataset chainResults)
               = sortHolders (allHolders chainResults)).
  { unfold buildCombinedDataset. cbn [holders].
    now rewrite fold_combine_holders. }
  assert (Hp : Permutation (holders (buildCombinedDataset chainResults))
                           (allHolders chainResults)).
  { rewrite Hh. apply js_sort_perm. }
  assert (He : excludedAddresses (buildCombinedDataset chainResults)
               = set_add_all
                   (List.concat (map (fun e => excludedAddresses (snd e))
                                chainResults))
                   (empty_set string)).
  { unfold buildCombinedDataset. cbn [excludedAddresses].
    now rewrite fold_combine_excluded. }
  split; [exact Hp|]. split; [|split; [|split; [|split]]].
  - change (retailHolderCount (buildCombinedDataset chainResults))
      with (List.length (holders (buildCombinedDataset chainResults))).
    rewrite (Permutation_length Hp). unfold allHolders.
    rewrite length_concat, map_map. f_equal.
    apply map_ext. intros e. apply length_map.
  - intros addr. rewrite <- occurrences_allHolders. unfold occurrences.
    apply Permutation_count_occ. now apply Permutation_map.
  - intros H. rewrite Hh. now apply sortHolders_descending.
  - rewrite He. apply set_add_all_NoDup. constructor.
  - intros x. rewrite He, set_add_all_In, in_concat. simpl. split.
    + intros [[l [Hl Hx]]|[]]. apply in_map_iff in Hl.
      destruct Hl as [e [<- Hin]]. now exists e.
    + intros [e [Hin Hx]]. left. exists (excludedAddresses (snd e)).
      split; [|exact Hx].
      apply (in_map (fun e => excludedAddresses (snd e))). exact Hin.
Qed.

(** * Further properties of the scripts *)

(** ** Address normalisation *)

Lemma lower_ascii_idem (c : ascii) : lower_ascii (lower_ascii c) = lower_ascii c.
Proof. destruct c as [[] [] [] [] [] [] [] []]; reflexivity. Qed.

Lemma toLowerCase_idem (s : string) : toLowerCase (toLowerCase s) = toLowerCase s.
Proof.
  induction s as [|c s IH]; simpl; [reflexivity|].
  now rewrite lower_ascii_idem, IH.
Qed.

Lemma toLowerCase_app (a b : string) :
  toLowerCase (a ++ b) = toLowerCase a ++ toLowerCase b.
Proof. induction a as [|c a IH]; simpl; [reflexivity | now rewrite IH]. Qed.

Lemma slice_lower (k : nat) (s : string) :
  slice k (toLowerCase s) = toLowerCase (slice k s).
Proof.
  revert s; induction k as [|k IH]; intros s; [reflexivity|].
  destruct s as [|c s]; simpl; [reflexivity | apply IH].
Qed.

(** The four prefixes [normalizeAddress] looks for, after lower-casing. *)
Lemma startsWith_lower (s : string) :
  startsWith "0x" (toLowerCase s) = startsWith "0x" s || startsWith "0X" s
  /\ startsWith "0X" (toLowerCase s) = false
  /\ startsWith (backslash "x") (toLowerCase s)
     = startsWith (backslash "x") s || startsWith (backslash "X") s
  /\ startsWith (backslash "X") (toLowerCase s) = false.
Proof.
  destruct s as [|c1 [|c2 s]].
  - repeat split.
  - destruct c1 as [[] [] [] [] [] [] [] []];
      (split; [|split; [|split]]); reflexivity.
  - unfold startsWith, backslash. cbn [toLowerCase String.prefix].
    destruct c1 as [[] [] [] [] [] [] [] []];
      try ((split; [|split; [|split]]); reflexivity);
      destruct c2 as [[] [] [] [] [] [] [] []];
      (split; [|split; [|split]]); try reflexivity;
      destruct s; reflexivity.
Qed.

Lemma startsWith_0x_inv (s : string) :
  startsWith "0x" s = true -> exists r, s = "0x" ++ r.
Proof.
  destruct s as [|c1 [|c2 s]]; unfold startsWith; cbn [String.prefix].
  - intros H; discriminate H.
  - destruct (ascii_dec "0" c1); intros H; discriminate H.
  - destruct (ascii_dec "0" c1) as [<-|]; [|intros H; discriminate H].
    destruct (ascii_dec "x" c2) as [<-|]; [|intros H; discriminate H].
    intros _. now exists s.
Qed.

(** Every result of [normalizeAddress] is ["0x"] followed by lower-case
    text. *)
Lemma normalizeAddress_shape (v : option string) (r : string) :
  normalizeAddress v = Some r -> exists t, r = "0x" ++ toLowerCase t.
Proof.
  unfold normalizeAddress. destruct v as [raw|]; [|discriminate].
  destruct raw as [|c raw]; [discriminate|].
  remember (String c raw) as raw0 eqn:Eraw. clear Eraw.
  destruct (startsWith "0x" raw0 || startsWith "0X" raw0) eqn:E0.
  - intros H; injection H as <-.
    pose proof (startsWith_lower raw0) as [H0 _].
    rewrite E0 in H0. apply startsWith_0x_inv in H0. destruct H0 as [t Ht].
    exists t. rewrite <- (toLowerCase_idem raw0), Ht, toLowerCase_app.
    reflexivity.
  - destruct (startsWith (backslash "x") raw0
              || startsWith (backslash "X") raw0);
      intros H; injection H as <-; eexists; reflexivity.
Qed.

Lemma normalizeAddress_nonempty (raw : string) :
  raw <> "" ->
  normalizeAddress (Some raw)
  = if startsWith "0x" raw || startsWith "0X" raw then
      Some (toLowerCase raw)
    else if startsWith (backslash "x") raw || startsWith (backslash "X") raw
    then Some ("0x" ++ toLowerCase (slice 2 raw))
    else Some ("0x" ++ toLowerCase raw).
Proof. destruct raw; [congruence | reflexivity]. Qed.

Lemma normalizeAddress_lower (s : string) :
  normalizeAddress (Some (toLowerCase s)) = normalizeAddress (Some s).
Proof.
  destruct s as [|c s]; [reflexivity|].
  remember (String c s) as raw eqn:Eraw.
  assert (Hl : toLowerCase raw <> "") by (subst raw; discriminate).
  assert (Hr : raw <> "") by (subst raw; discriminate).
  clear Eraw.
  pose proof (startsWith_lower raw) as [H0 [H1 [H2 H3]]].
  rewrite (normalizeAddress_nonempty _ Hl), (normalizeAddress_nonempty _ Hr).
  rewrite H0, H1, H2, H3, !orb_false_r.
  now rewrite slice_lower, !toLowerCase_idem.
Qed.

(** X1.  [normalizeAddress] returns null exactly on a null, undefined or
    empty value; every other result is non-empty, starts with ["0x"] and is
    in lower case. *)
Theorem normalizeAddress_canonical (v : option string) :
  (normalizeAddress v = None <-> v = None \/ v = Some "")
  /\ (forall r,
        normalizeAddress v = Some r ->
        startsWith "0x" r = true /\ toLowerCase r = r /\ r <> "").
Proof.
  split.
  - unfold normalizeAddress. destruct v as [raw|].
    + destruct raw as [|c raw].
      * split; [intros _; now right | reflexivity].
      * split.
        -- destruct (startsWith "0x" (String c raw)
                     || startsWith "0X" (String c raw));
             [discriminate|].
           destruct (startsWith (backslash "x") (String c raw)
                     || startsWith (backslash "X") (String c raw));
             discriminate.
        -- intros [H|H]; discriminate H.
    + split; [intros _; now left | reflexivity].
  - intros r H. apply normalizeAddress_shape in H. destruct H as [t ->].
    split; [destruct t; reflexivity|]. split.
    + rewrite toLowerCase_app, toLowerCase_idem. reflexivity.
    + discriminate.
Qed.

(** X2.  Normalising a normalised address changes nothing. *)
Theorem normalizeAddress_idempotent (v : option string) :
  normalizeAddress (normalizeAddress v) = normalizeAddress v.
Proof.
  destruct (normalizeAddress v) as [r|] eqn:E; [|reflexivity].
  apply normalizeAddress_shape in E. destruct E as [t ->].
  transitivity (Some (toLowerCase ("0x" ++ toLowerCase t))).
  - destruct t; reflexivity.
  - now rewrite toLowerCase_app, toLowerCase_idem.
Qed.


(** ** The denylist *)

Lemma set_mem_In (a : string) (s : set string) :
  set_mem string_dec a s = true <-> In a s.
Proof.
  split; [apply set_mem_correct1 | apply set_mem_correct2].
Qed.

Lemma mkExclusionSet_In (exclusions : list string) (a : string) :
  set_mem string_dec a (mkExclusionSet exclusions) = true
  <-> exists e, In e exclusions /\ toLowerCase e = a.
Proof.
  rewrite set_mem_In.
  change (mkExclusionSet exclusions)
    with (set_add_all (map toLowerCase exclusions) (empty_set string)).
  rewrite set_add_all_In, in_map_iff. simpl. split.
  - intros [[e [He Hin]]|[]]. exists e. split; assumption.
  - intros [e [Hin He]]. left. exists e. split; assumption.
Qed.

(** X4.  The denylist is matched without regard to letter case, but only
    in the [0x] form: a Dune row is excluded on account of the denylist
    exactly when its normalised address is the lower-case form of an entry,
    and such an entry starts with [0x] or [0X].  An entry written with a
    backslash prefix, or as bare digits, excludes no row. *)
Theorem denylist_matches_0x_entries
    (exclusions : list string) (row : DuneRow) (addr : string)
    (Hcfg : exclusionSet cfg = mkExclusionSet exclusions)
    (Haddr : normalizeAddress (row_address row) = Some addr) :
  (set_mem string_dec addr (exclusionSet cfg) = true
   <-> exists e,
         In e exclusions /\ toLowerCase e = addr
         /\ startsWith "0x" e || startsWith "0X" e = true)
  /\ (set_mem string_dec addr (exclusionSet cfg) = true ->
      JsNum.isNaN (rowBalance row) = false ->
      classifyRow row = Excluded).
Proof.
  pose proof (normalizeAddress_shape _ _ Haddr) as [t Ht].
  split.
  - rewrite Hcfg, mkExclusionSet_In. split.
    + intros [e [Hin He]]. exists e. split; [exact Hin|]. split; [exact He|].
      pose proof (startsWith_lower e) as [H0 _]. rewrite <- H0, He, Ht.
      destruct t; reflexivity.
    + intros [e [Hin [He _]]]. exists e. split; assumption.
  - intros Hmem Hnan. unfold classifyRow. rewrite Haddr.
    apply classify_excluded; [|exact Hnan | now left].
    rewrite Ht. reflexivity.
Qed.

(** ** What every holder of a chain satisfies *)

Lemma aggregate_holder_inv (chainKey chainLabel : string) (vs : list View)
    (h : Holder) :
  In h (holders (aggregateViews chainKey chainLabel vs)) ->
  exists v,
    In v vs /\ fst v = Some (address h) /\ snd v = balance h
    /\ chain h = chainLabel /\ classOf v = Retail.
Proof.
  intros Hin.
  apply (Permutation_in _ (aggregateViews_holders chainKey chainLabel vs))
    in Hin.
  apply retailHolders_inv in Hin. destruct Hin as [v [Hv [Hc ->]]].
  exists v. pose proof (classify_retail_inv _ _ Hc) as [a [Ha _]].
  unfold holderOf. simpl. rewrite Ha. simpl. auto.
Qed.

(** X5.  No holder is denylisted: the address of every holder that
    [processChain] or [fetchChainHolders] returns is outside the exclusion
    set, whatever its balance. *)
Theorem holders_are_never_denylisted
    (chainKey chainLabel : string) (rows : list DuneRow) (owners : list Owner) :
  Forall (fun h => set_mem string_dec (address h) (exclusionSet cfg) = false)
         (holders (processChain chainKey rows))
  /\ Forall (fun h => set_mem string_dec (address h) (exclusionSet cfg) = false)
            (holders (fetchChainHolders chainKey chainLabel owners)).
Proof.
  assert (H : forall l vs,
             Forall (fun h => set_mem string_dec (address h) (exclusionSet cfg)
                              = false)
                    (holders (aggregateViews chainKey l vs))).
  { intros l vs. apply Forall_forall. intros h Hin.
    apply aggregate_holder_inv in Hin.
    destruct Hin as [v [_ [Ha [_ [_ Hc]]]]].
    apply classify_retail_inv in Hc.
    destruct Hc as [a [Ha' [_ [_ [Hs _]]]]]. congruence. }
  split.
  - rewrite processChain_views. apply H.
  - rewrite fetchChainHolders_views. apply H.
Qed.

(** X6.  Every holder [processChain] returns carries an address in
    canonical form (it starts with ["0x"] and is in lower case), the label
    of its chain, and a balance that is not [NaN]; every holder
    [fetchChainHolders] returns carries a non-empty lower-case address, the
    label passed in, and a balance that is not [NaN]. *)
Theorem holders_are_canonical
    (chainKey chainLabel : string) (rows : list DuneRow) (owners : list Owner) :
  Forall (fun h =>
            startsWith "0x" (address h) = true
            /\ toLowerCase (address h) = address h
            /\ chain h = chainLabelOf chainKey
            /\ JsNum.isNaN (balance h) = false)
         (holders (processChain chainKey rows))
  /\ Forall (fun h =>
               address h <> ""
               /\ toLowerCase (address h) = address h
               /\ chain h = chainLabel
               /\ JsNum.isNaN (balance h) = false)
            (holders (fetchChainHolders chainKey chainLabel owners)).
Proof.
  split; apply Forall_forall; intros h Hin.
  - rewrite processChain_views in Hin. apply aggregate_holder_inv in Hin.
    destruct Hin as [v [Hv [Ha [Hb [Hl Hc]]]]].
    apply in_map_iff in Hv. destruct Hv as [row [<- _]].
    simpl in Ha, Hb. apply normalizeAddress_shape in Ha.
    destruct Ha as [t Ht]. rewrite Ht.
    apply classify_retail_inv in Hc. destruct Hc as [_ [_ [_ [Hn _]]]].
    simpl in Hn. rewrite Hb in Hn.
    split; [destruct t; reflexivity|]. split; [|split; assumption].
    now rewrite toLowerCase_app, toLowerCase_idem.
  - rewrite fetchChainHolders_views in Hin. apply aggregate_holder_inv in Hin.
    destruct Hin as [v [Hv [Ha [Hb [Hl Hc]]]]].
    apply in_map_iff in Hv. destruct Hv as [owner [<- _]].
    simpl in Ha, Hb. injection Ha as Ha.
    apply classify_retail_inv in Hc.
    destruct Hc as [a [Ha' [Hf [Hn _]]]]. simpl in Ha', Hn.
    injection Ha' as Ha'. rewrite Hb in Hn.
    split; [|split; [|split; assumption]].
    + rewrite <- Ha, Ha'. intros E. rewrite E in Hf. discriminate.
    + rewrite <- Ha. unfold ownerAddress. apply toLowerCase_idem.
Qed.

Lemma aggregate_holders_sorted (chainKey chainLabel : string) (vs : list View) :
  Sorted descending (holders (aggregateViews chainKey chainLabel vs)).
Proof.
  assert (Hn : Forall (fun h => JsNum.isNaN (balance h) = false)
                      (retailHolders chainLabel vs)).
  { apply Forall_forall. intros h Hin. apply retailHolders_inv in Hin.
    destruct Hin as [v [_ [Hc ->]]]. apply classify_retail_inv in Hc.
    destruct Hc as [_ [_ [_ [Hn _]]]]. exact Hn. }
  unfold aggregateViews, finishChain. cbn [holders].
  rewrite fold_step_holders. simpl. now apply sortHolders_descending.
Qed.

(** X7.  The holders of a chain come out sorted by descending balance, for
    every input: the loop lets no [NaN] balance through, so the comparator
    of the sort is an order on what it sorts. *)
Theorem chain_holders_are_sorted
    (chainKey chainLabel : string) (rows : list DuneRow) (owners : list Owner) :
  Sorted descending (holders (processChain chainKey rows))
  /\ Sorted descending (holders (fetchChainHolders chainKey chainLabel owners)).
Proof.
  split.
  - rewrite processChain_views. apply aggregate_holders_sorted.
  - rewrite fetchChainHolders_views. apply aggregate_holders_sorted.
Qed.

(** ** The totals of a chain *)

Lemma classTotal_cons (c : RowClass) (v : View) (vs : list View) :
  classTotal c (v :: vs)
  = if isClass c v then qval (snd v) + classTotal c vs else classTotal c vs.
Proof. unfold classTotal. simpl. destruct (isClass c v); reflexivity. Qed.

Lemma not_dropped_finite (v : View) :
  no_infinity (snd v) = true -> classOf v <> Dropped ->
  exists q, snd v = Fin q.
Proof.
  intros Hni Hnd. unfold no_infinity in Hni.
  destruct (snd v) as [| |q|] eqn:E; try discriminate; [|now exists q].
  exfalso. apply Hnd. apply classify_dropped_iff. rewrite E. auto.
Qed.

Lemma fold_step_totals (chainLabel : string) (vs : list View) :
  Forall (fun v => no_infinity (snd v) = true) vs ->
  forall a t0 e0,
    acc_totalProcessed a = Fin t0 -> acc_excludedBalance a = Fin e0 ->
    exists t e,
      acc_totalProcessed (fold_left (step chainLabel) vs a) = Fin t
      /\ acc_excludedBalance (fold_left (step chainLabel) vs a) = Fin e
      /\ t == t0 + classTotal Retail vs + classTotal Excluded vs
              + classTotal SubThreshold vs
      /\ e == e0 + classTotal Excluded vs.
Proof.
  induction 1 as [|v vs Hv _ IH]; intros a t0 e0 Ht He.
  - exists t0, e0. unfold classTotal. simpl. repeat split; try assumption; ring.
  - cbn [fold_left]. rewrite !classTotal_cons.
    pose proof (not_dropped_finite v Hv) as Hfin.
    rewrite step_effect. unfold isClass.
    destruct (classOf v) eqn:Ec.
    + destruct (IH a t0 e0 Ht He) as [t [e [H1 [H2 [H3 H4]]]]].
      exists t, e. repeat split; assumption.
    + destruct Hfin as [q Hq]; [discriminate|]. rewrite Hq.
      destruct (IH (effect chainLabel a (nullish (fst v) "") (Fin q) Excluded)
                   (t0 + q) (e0 + q)) as [t [e [H1 [H2 [H3 H4]]]]];
        [simpl; now rewrite Ht | simpl; now rewrite He |].
      exists t, e. simpl. repeat split; try assumption; lra.
    + destruct Hfin as [q Hq]; [discriminate|]. rewrite Hq.
      destruct (IH (effect chainLabel a (nullish (fst v) "") (Fin q) Retail)
                   (t0 + q) e0) as [t [e [H1 [H2 [H3 H4]]]]];
        [simpl; now rewrite Ht | simpl; exact He |].
      exists t, e. simpl. repeat split; try assumption; lra.
    + destruct Hfin as [q Hq]; [discriminate|]. rewrite Hq.
      destruct (IH (effect chainLabel a (nullish (fst v) "") (Fin q)
                      SubThreshold)
                   (t0 + q) e0) as [t [e [H1 [H2 [H3 H4]]]]];
        [simpl; now rewrite Ht | simpl; exact He |].
      exists t, e. simpl. repeat split; try assumption; lra.
Qed.

Lemma retail_total (chainKey chainLabel : string) (vs : list View) :
  Forall (fun v => no_infinity (snd v) = true) vs ->
  exists r,
    totalRetailSupply (aggregateViews chainKey chainLabel vs) = Fin r
    /\ r == classTotal Retail vs.
Proof.
  intros Hni.
  change (totalRetailSupply (aggregateViews chainKey chainLabel vs))
    with (sum_balances (holders (aggregateViews chainKey chainLabel vs))).
  assert (Hfin : Forall (fun h => JsNum.isFinite (balance h) = true)
                        (holders (aggregateViews chainKey chainLabel vs))).
  { apply Forall_forall. intros h Hin. apply aggregate_holder_inv in Hin.
    destruct Hin as [v [Hv [_ [Hb [_ Hc]]]]].
    rewrite Forall_forall in Hni.
    destruct (not_dropped_finite v (Hni v Hv)) as [q Hq]; [congruence|].
    rewrite <- Hb, Hq. reflexivity. }
  destruct (sum_balances_fin _ Hfin) as [r [Hr Heq]].
  exists r. split; [exact Hr|]. rewrite Heq.
  rewrite (qsum_perm _ _ (Permutation_map qbal
                            (aggregateViews_holders chainKey chainLabel vs))).
  unfold classTotal, retailHolders. rewrite map_map. reflexivity.
Qed.

Lemma aggregate_totals_split (chainKey chainLabel : string) (vs : list View) :
  Forall (fun v => no_infinity (snd v) = true) vs ->
  totalsSplit (aggregateViews chainKey chainLabel vs) chainKey vs.
Proof.
  intros Hni.
  destruct (fold_step_totals chainLabel vs Hni acc_init 0 0 eq_refl eq_refl)
    as [t [e [H1 [H2 [H3 H4]]]]].
  destruct (retail_total chainKey chainLabel vs Hni) as [r [Hr Hreq]].
  exists t, r, e. unfold aggregateViews, finishChain in *.
  cbn [totalProcessedByChain excludedBalances totalRetailSupply] in *.
  rewrite H1, H2.
  split; [reflexivity|]. split; [exact Hr|]. split; [reflexivity|].
  split; [exact Hreq|]. split; lra.
Qed.

(** X8.  When no balance is infinite, the totals of a chain are exact sums
    over the classes of its records: [totalRetailSupply] over the retail
    records, the excluded balance over the excluded ones, and the processed
    total over both and the sub-threshold records; dropped records count
    nowhere.  So the processed total is the retail supply plus the excluded
    balance exactly when the sub-threshold balances sum to [0]. *)
Theorem chain_totals_split
    (chainKey chainLabel : string) (rows : list DuneRow) (owners : list Owner)
    (Hrows : Forall (fun row => no_infinity (rowBalance row) = true) rows)
    (Howners :
       Forall (fun owner => no_infinity (ownerBalance owner) = true) owners) :
  totalsSplit (processChain chainKey rows) chainKey (map rowView rows)
  /\ totalsSplit (fetchChainHolders chainKey chainLabel owners) chainKey
       (map ownerView owners).
Proof.
  split.
  - rewrite processChain_views. apply aggregate_totals_split.
    apply Forall_map. exact Hrows.
  - rewrite fetchChainHolders_views. apply aggregate_totals_split.
    apply Forall_map. exact Howners.
Qed.

(** ** The totals of the combiner *)

Lemma qsum_app (l1 l2 : list Q) : qsum (l1 ++ l2) == qsum l1 + qsum l2.
Proof.
  induction l1 as [|x l1 IH]; simpl; [ring|]. rewrite IH. ring.
Qed.

Lemma qbal_relabel (l : string) (hs : list Holder) :
  map qbal (map (relabel l) hs) = map qbal hs.
Proof. rewrite map_map. reflexivity. Qed.

Lemma fold_combine_total crs :
  Forall (fun e => exists r, totalRetailSupply (snd e) = Fin r
                             /\ r == qsum (map qbal (holders (snd e)))) crs ->
  forall c a0,
    c_totalRetailSupply c = Fin a0 ->
    exists a,
      c_totalRetailSupply (fold_left combineStep crs c) = Fin a
      /\ a == a0 + qsum (map qbal (allHolders crs)).
Proof.
  induction 1 as [|e crs [r [Hr Heq]] _ IH]; intros c a0 Hc.
  - exists a0. split; [exact Hc|]. unfold allHolders. simpl. ring.
  - cbn [fold_left].
    destruct (IH (combineStep c e) (a0 + r)) as [a [Ha Haeq]].
    { unfold combineStep. cbn [c_totalRetailSupply]. now rewrite Hc, Hr. }
    exists a. split; [exact Ha|]. rewrite Haeq.
    unfold allHolders. cbn [map List.concat].
    rewrite map_app, qsum_app, qbal_relabel, Heq. ring.
Qed.

(** X9.  When every chain's [totalRetailSupply] is the sum of its holders'
    balances, as [processChain] and [fetchChainHolders] compute it, and
    these balances are finite, the combined [totalRetailSupply] is, in exact
    arithmetic, the sum of the balances of the combined holders, and the sum
    of the chains' supplies. *)
Theorem combined_supply_is_sum_of_holders
    (chainResults : jsobject ChainAggregate)
    (Hsupply :
       Forall (fun e => totalRetailSupply (snd e)
                        = sum_balances (holders (snd e))) chainResults)
    (Hfinite :
       Forall (fun e => Forall (fun h => JsNum.isFinite (balance h) = true)
                               (holders (snd e))) chainResults) :
  exists a b,
    totalRetailSupply (buildCombinedDataset chainResults) = Fin a
    /\ sum_balances (holders (buildCombinedDataset chainResults)) = Fin b
    /\ a == b
    /\ a == qsum (map (fun e => qval (totalRetailSupply (snd e))) chainResults).
Proof.
  assert (Hall : Forall (fun e => exists r,
                           totalRetailSupply (snd e) = Fin r
                           /\ r == qsum (map qbal (holders (snd e))))
                        chainResults).
  { rewrite Forall_forall in *. intros e He.
    rewrite (Hsupply e He). apply sum_balances_fin. now apply Hfinite. }
  destruct (fold_combine_total chainResults Hall combined_init 0 eq_refl)
    as [a [Ha Haeq]].
  assert (Hperm : Permutation (holders (buildCombinedDataset chainResults))
                              (allHolders chainResults)).
  { unfold buildCombinedDataset. cbn [holders].
    rewrite fold_combine_holders. apply js_sort_perm. }
  assert (Hfin : Forall (fun h => JsNum.isFinite (balance h) = true)
                        (holders (buildCombinedDataset chainResults))).
  { apply Forall_forall. intros h Hh.
    apply (Permutation_in _ Hperm) in Hh. unfold allHolders in Hh.
    apply in_concat in Hh. destruct Hh as [l [Hl Hh]].
    apply in_map_iff in Hl. destruct Hl as [e [<- He]].
    apply in_map_iff in Hh. destruct Hh as [h0 [<- Hh0]].
    rewrite Forall_forall in Hfinite.
    specialize (Hfinite e He). rewrite Forall_forall in Hfinite.
    exact (Hfinite h0 Hh0). }
  destruct (sum_balances_fin _ Hfin) as [b [Hb Hbeq]].
  exists a, b. split; [exact Ha|]. split; [exact Hb|].
  assert (Hab : a == qsum (map qbal (allHolders chainResults)))
    by (rewrite Haeq; ring).
  split.
  - rewrite Hab, Hbeq. symmetry. apply qsum_perm.
    now apply Permutation_map.
  - rewrite Hab. clear - Hall. unfold allHolders.
    induction Hall as [|e crs [r [Hr Heq]] _ IH]; [reflexivity|].
    cbn [map List.concat qsum fold_right].
    rewrite map_app, qsum_app, qbal_relabel, IH, Hr, <- Heq. reflexivity.
Qed.

(** ** The per-chain maps of the combiner *)

Lemma obj_get_None {V : Type} (k : string) (o : jsobject V) :
  ~ In k (map fst o) -> obj_get k o = None.
Proof.
  induction o as [|[k' v'] o IH]; intros H; simpl; [reflexivity|].
  destruct (string_dec k k') as [->|Hne].
  - exfalso. apply H. now left.
  - apply IH. intros Hin. apply H. now right.
Qed.

Lemma obj_set_fresh {V : Type} (k : string) (v : V) (o : jsobject V) :
  ~ In k (map fst o) -> obj_set k v o = (o ++ [(k, v)])%list.
Proof.
  induction o as [|[k' v'] o IH]; intros H; simpl; [reflexivity|].
  destruct (string_dec k k') as [->|Hne].
  - exfalso. apply H. now left.
  - rewrite IH; [reflexivity|]. intros Hin. apply H. now right.
Qed.

Lemma mergeInto_fresh (o : jsobject jsnum) (k : string) (x : jsnum) :
  ~ In k (map fst o) ->
  mergeInto o [(k, x)] = (o ++ [(k, (JsNum.zero + x)%js)])%list.
Proof.
  intros H. unfold mergeInto, obj_get_or_zero. cbn [fold_left fst snd].
  rewrite (obj_get_None k o H). now apply obj_set_fresh.
Qed.

Lemma fold_combine_maps (x t : string * ChainAggregate -> jsnum) crs :
  Forall (fun e => excludedBalances (snd e) = [(fst e, x e)]) crs ->
  Forall (fun e => totalProcessedByChain (snd e) = [(fst e, t e)]) crs ->
  forall c,
    NoDup (map fst (c_excludedBalances c) ++ map fst crs) ->
    NoDup (map fst (c_totalProcessedByChain c) ++ map fst crs) ->
    c_excludedBalances (fold_left combineStep crs c)
    = (c_excludedBalances c
       ++ map (fun e => (fst e, (JsNum.zero + x e)%js)) crs)%list
    /\ c_totalProcessedByChain (fold_left combineStep crs c)
       = (c_totalProcessedByChain c
          ++ map (fun e => (fst e, (JsNum.zero + t e)%js)) crs)%list.
Proof.
  induction crs as [|e crs IH]; intros Hx Ht c Hn1 Hn2.
  - simpl. now rewrite !app_nil_r.
  - inversion Hx as [|? ? Hxe Hx']; subst.
    inversion Ht as [|? ? Hte Ht']; subst.
    cbn [fold_left map] in *.
    assert (F1 : ~ In (fst e) (map fst (c_excludedBalances c))).
    { intros Hin. apply NoDup_remove_2 in Hn1. apply Hn1.
      apply in_or_app. now left. }
    assert (F2 : ~ In (fst e) (map fst (c_totalProcessedByChain c))).
    { intros Hin. apply NoDup_remove_2 in Hn2. apply Hn2.
      apply in_or_app. now left. }
    assert (E1 : c_excludedBalances (combineStep c e)
                 = (c_excludedBalances c
                    ++ [(fst e, (JsNum.zero + x e)%js)])%list).
    { unfold combineStep. cbn [c_excludedBalances]. rewrite Hxe.
      now apply mergeInto_fresh. }
    assert (E2 : c_totalProcessedByChain (combineStep c e)
                 = (c_totalProcessedByChain c
                    ++ [(fst e, (JsNum.zero + t e)%js)])%list).
    { unfold combineStep. cbn [c_totalProcessedByChain]. rewrite Hte.
      now apply mergeInto_fresh. }
    destruct (IH Hx' Ht' (combineStep c e)) as [H1 H2].
    + rewrite E1, map_app, <- app_assoc. cbn [map fst app].
      eapply Permutation_NoDup; [|exact Hn1].
      apply Permutation_app_head. reflexivity.
    + rewrite E2, map_app, <- app_assoc. cbn [map fst app].
      eapply Permutation_NoDup; [|exact Hn2].
      apply Permutation_app_head. reflexivity.
    + rewrite H1, H2, E1, E2, <- !app_assoc. split; reflexivity.
Qed.

(** X10.  When the chains have distinct keys, none of them a name that
    plain objects inherit (under such a key [excludedBalances[chainKey]]
    reads a member of [Object.prototype], which is outside the embedding),
    and every chain reports its excluded balance and its processed total
    under its own key, as [processChain] and [fetchChainHolders] do, the
    combined [excludedBalances] and [totalProcessedByChain] have one entry
    for each chain, in the order of the chains, holding [0 + v] for the
    chain's value [v]: nothing is summed across chains. *)
Theorem combined_keeps_each_chains_totals
    (chainResults : jsobject ChainAggregate)
    (x t : string * ChainAggregate -> jsnum)
    (Hkeys : NoDup (map fst chainResults))
    (Hplain : Forall (fun e => inherited (fst e) = false) chainResults)
    (Hx : Forall (fun e => excludedBalances (snd e) = [(fst e, x e)])
                 chainResults)
    (Ht : Forall (fun e => totalProcessedByChain (snd e) = [(fst e, t e)])
                 chainResults) :
  excludedBalances (buildCombinedDataset chainResults)
  = map (fun e => (fst e, (JsNum.zero + x e)%js)) chainResults
  /\ totalProcessedByChain (buildCombinedDataset chainResults)
     = map (fun e => (fst e, (JsNum.zero + t e)%js)) chainResults.
Proof.
  unfold buildCombinedDataset.
  cbn [excludedBalances totalProcessedByChain].
  apply (fold_combine_maps x t chainResults Hx Ht combined_init);
    exact Hkeys.
Qed.

(** ** Grouping the rows by chain *)

Lemma obj_get_set_same {V : Type} (k : string) (v : V) (o : jsobject V) :
  obj_get k (obj_set k v o) = Some v.
Proof.
  induction o as [|[k' v'] o IH]; simpl.
  - destruct (string_dec k k); [reflexivity | congruence].
  - destruct (string_dec k k') as [E|E]; simpl.
    + destruct (string_dec k k'); [reflexivity | congruence].
    + destruct (string_dec k k'); [congruence | exact IH].
Qed.

Lemma obj_get_set_other {V : Type} (k k' : string) (v : V) (o : jsobject V) :
  k' <> k -> obj_get k' (obj_set k v o) = obj_get k' o.
Proof.
  intros Hne. induction o as [|[k0 v0] o IH]; simpl.
  - destruct (string_dec k' k); [congruence | reflexivity].
  - destruct (string_dec k k0) as [E|E]; simpl.
    + destruct (string_dec k' k0); [congruence | reflexivity].
    + destruct (string_dec k' k0); [reflexivity | exact IH].
Qed.

Lemma obj_set_keys {V : Type} (k : string) (v : V) (o : jsobject V) (x : string) :
  In x (map fst (obj_set k v o)) <-> x = k \/ In x (map fst o).
Proof.
  induction o as [|[k0 v0] o IH]; simpl.
  - split; [intros [H|[]]; now left | intros [H|[]]; now left].
  - destruct (string_dec k k0) as [E|E]; simpl.
    + subst k0. split; [intros [H|H]; auto | intros [H|[H|H]]; auto].
    + rewrite IH. split.
      * intros [H|[H|H]]; auto.
      * intros [H|[H|H]]; auto.
Qed.

Lemma inherited_nonempty (k : string) :
  inherited k = true -> str_falsy k = false.
Proof. destruct k; [discriminate | reflexivity]. Qed.

Lemma chainRows_cons (k : string) (r : TaggedRow) (rows : list TaggedRow) :
  chainRows k (r :: rows)
  = ((if negb (str_falsy k) && (rowChainKey r =? k)%string
      then [fields r] else []) ++ chainRows k rows)%list.
Proof.
  unfold chainRows. destruct (str_falsy k); [reflexivity|].
  cbn [filter negb andb]. destruct (rowChainKey r =? k)%string; reflexivity.
Qed.

Lemma groupStep_lookup (acc acc' : jsobject (list DuneRow)) (r : TaggedRow) :
  groupStep acc r = Some acc' ->
  forall k,
    nullish (obj_get k acc') []
    = (nullish (obj_get k acc) []
       ++ (if negb (str_falsy k) && (rowChainKey r =? k)%string
           then [fields r] else []))%list.
Proof.
  unfold groupStep. intros H k.
  destruct (str_falsy (rowChainKey r)) eqn:Ef.
  - injection H as <-.
    destruct (String.eqb_spec (rowChainKey r) k) as [E|E].
    + rewrite <- E, Ef. simpl. now rewrite app_nil_r.
    + rewrite andb_false_r. now rewrite app_nil_r.
  - destruct (inherited (rowChainKey r)); [discriminate|].
    injection H as <-.
    destruct (String.eqb_spec (rowChainKey r) k) as [E|E].
    + rewrite <- E, Ef, obj_get_set_same. reflexivity.
    + rewrite andb_false_r, app_nil_r.
      rewrite obj_get_set_other by congruence. reflexivity.
Qed.

Lemma rowsByChainFrom_lookup (rows : list TaggedRow) :
  forall acc groups,
    rowsByChainFrom rows acc = Some groups ->
    forall k,
      nullish (obj_get k groups) []
      = (nullish (obj_get k acc) [] ++ chainRows k rows)%list.
Proof.
  induction rows as [|r rows IH]; intros acc groups H k.
  - injection H as <-. unfold chainRows. simpl.
    destruct (str_falsy k); now rewrite app_nil_r.
  - cbn [rowsByChainFrom] in H.
    destruct (groupStep acc r) as [acc'|] eqn:Eg; [|discriminate].
    rewrite (IH acc' groups H k), (groupStep_lookup acc acc' r Eg k).
    rewrite chainRows_cons, app_assoc. reflexivity.
Qed.

Lemma rowsByChainFrom_None (rows : list TaggedRow) :
  forall acc,
    rowsByChainFrom rows acc = None
    <-> Exists (fun r => inherited (rowChainKey r) = true) rows.
Proof.
  induction rows as [|r rows IH]; intros acc.
  - split; [discriminate | intros H; inversion H].
  - cbn [rowsByChainFrom]. unfold groupStep at 1.
    destruct (str_falsy (rowChainKey r)) eqn:Ef.
    + rewrite IH. split; [intros H; now right|].
      intros H. inversion H as [? ? Hx|? ? Hx]; subst; [|exact Hx].
      apply inherited_nonempty in Hx. congruence.
    + destruct (inherited (rowChainKey r)) eqn:Ei.
      * split; [intros _; now left | reflexivity].
      * rewrite IH. split; [intros H; now right|].
        intros H. inversion H as [? ? Hx|? ? Hx]; subst; [congruence|exact Hx].
Qed.

Lemma rowsByChainFrom_keys (rows : list TaggedRow) :
  forall acc groups,
    rowsByChainFrom rows acc = Some groups ->
    forall k,
      In k (map fst groups) ->
      In k (map fst acc) \/ exists r, In r rows /\ rowChainKey r = k.
Proof.
  induction rows as [|r rows IH]; intros acc groups H k Hk.
  - injection H as <-. now left.
  - cbn [rowsByChainFrom] in H.
    destruct (groupStep acc r) as [acc'|] eqn:Eg; [|discriminate].
    destruct (IH acc' groups H k Hk) as [Hin|[r' [Hr' Hkey]]].
    + unfold groupStep in Eg.
      destruct (str_falsy (rowChainKey r)).
      * injection Eg as <-. now left.
      * destruct (inherited (rowChainKey r)); [discriminate|].
        injection Eg as <-. apply obj_set_keys in Hin.
        destruct Hin as [->|Hin]; [|now left].
        right. exists r. split; [now left | reflexivity].
    + right. exists r'. split; [now right | exact Hkey].
Qed.

(** X11.  The grouping of [main] throws exactly when a row is tagged with
    a name that plain objects inherit; otherwise the group of every key is
    the list of the rows tagged with it (by [blockchain], else by [chain],
    in lower case), in the order of the query, a key has a group only if a
    row is tagged with it, and rows with no tag are in no group. *)
Theorem rows_are_grouped_by_chain (rows : list TaggedRow) :
  (rowsByChain rows = None
   <-> Exists (fun r => inherited (rowChainKey r) = true) rows)
  /\ (forall groups,
        rowsByChain rows = Some groups ->
        forall k,
          nullish (obj_get k groups) [] = chainRows k rows
          /\ (In k (map fst groups) ->
              exists r, In r rows /\ rowChainKey r = k)
          /\ obj_get "" groups = None).
Proof.
  split; [apply rowsByChainFrom_None|].
  intros groups H k.
  assert (Hkeys : forall k', In k' (map fst groups) ->
                             exists r, In r rows /\ rowChainKey r = k').
  { intros k' Hk'.
    destruct (rowsByChainFrom_keys rows [] groups H k' Hk') as [[]|Hr].
    exact Hr. }
  split; [|split].
  - now rewrite (rowsByChainFrom_lookup rows [] groups H k).
  - apply Hkeys.
  - clear Hkeys.
    assert (Hnone : forall rs acc g,
               rowsByChainFrom rs acc = Some g ->
               obj_get "" acc = None -> obj_get "" g = None).
    { induction rs as [|r0 rs IH]; intros acc g Hg Hacc.
      - injection Hg as <-. exact Hacc.
      - cbn [rowsByChainFrom] in Hg.
        destruct (groupStep acc r0) as [acc'|] eqn:Eg; [|discriminate].
        apply (IH acc' g Hg). unfold groupStep in Eg.
        destruct (str_falsy (rowChainKey r0)) eqn:Ef.
        + injection Eg as <-. exact Hacc.
        + destruct (inherited (rowChainKey r0)); [discriminate|].
          injection Eg as <-. rewrite obj_get_set_other; [exact Hacc|].
          intros Heq. rewrite <- Heq in Ef. discriminate. }
    exact (Hnone rows [] groups H eq_refl).
Qed.

(** ** The payload of [main] *)

Lemma chainResultsFrom_None (groups : jsobject (list DuneRow))
    (keys : list string) :
  forall res,
    chainResultsFrom keys groups res = None
    <-> Exists (fun k => inherited k = true) keys.
Proof.
  induction keys as [|k keys IH]; intros res.
  - split; [discriminate | intros H; inversion H].
  - cbn [chainResultsFrom]. destruct (inherited k) eqn:Ei.
    + split; [intros _; now left | reflexivity].
    + rewrite IH. split; [intros H; now right|].
      intros H. inversion H as [? ? Hx|? ? Hx]; subst; [congruence|exact Hx].
Qed.

Lemma chainResultsFrom_fresh (groups : jsobject (list DuneRow))
    (keys : list string) :
  forall res res',
    NoDup (map fst res ++ keys) ->
    chainResultsFrom keys groups res = Some res' ->
    res' = (res ++ map (fun k => (k, processChain k
                                       (nullish (obj_get k groups) [])))
                       keys)%list.
Proof.
  induction keys as [|k keys IH]; intros res res' Hnd H.
  - injection H as <-. simpl. now rewrite app_nil_r.
  - cbn [chainResultsFrom] in H.
    destruct (inherited k); [discriminate|].
    assert (Hfresh : ~ In k (map fst res)).
    { intros Hin. apply NoDup_remove_2 in Hnd. apply Hnd.
      apply in_or_app. now left. }
    rewrite (obj_set_fresh k _ res Hfresh) in H.
    apply IH in H.
    + rewrite H, <- app_assoc. reflexivity.
    + rewrite map_app, <- app_assoc. exact Hnd.
Qed.

Lemma chainResultsFrom_lookup (groups : jsobject (list DuneRow))
    (keys : list string) :
  forall res res',
    chainResultsFrom keys groups res = Some res' ->
    forall k,
      obj_get k res'
      = if in_dec string_dec k keys
        then Some (processChain k (nullish (obj_get k groups) []))
        else obj_get k res.
Proof.
  induction keys as [|k0 keys IH]; intros res res' H k.
  - injection H as <-. reflexivity.
  - cbn [chainResultsFrom] in H.
    destruct (inherited k0); [discriminate|].
    rewrite (IH _ _ H k).
    destruct (in_dec string_dec k keys) as [Hin|Hnin].
    + destruct (in_dec string_dec k (k0 :: keys)) as [_|Hn];
        [reflexivity | exfalso; apply Hn; now right].
    + destruct (string_dec k k0) as [->|Hne].
      * rewrite obj_get_set_same.
        destruct (in_dec string_dec k0 (k0 :: keys)) as [_|Hn];
          [reflexivity | exfalso; apply Hn; now left].
      * rewrite obj_get_set_other by exact Hne.
        destruct (in_dec string_dec k (k0 :: keys)) as [[Hh|Hh]|_];
          [congruence | contradiction | reflexivity].
Qed.

Lemma mainPayload_inr (now : string) (rows : list TaggedRow) (p : Payload) :
  mainPayload now rows = inr p ->
  exists groups,
    rows <> []
    /\ rowsByChain rows = Some groups
    /\ chainResultsFrom chainOrderOf groups [] = Some (chains p)
    /\ p = {| generatedAt := now;
              thresholds_retail := RETAIL_THRESHOLD cfg;
              thresholds_megaHolder := MEGA_HOLDER_THRESHOLD cfg;
              totals_totalSupply := TOTAL_TEL_SUPPLY;
              chains := chains p;
              combined := buildCombinedDataset (chains p);
              chainOrder := chainOrderOf |}.
Proof.
  unfold mainPayload. intros H.
  destruct rows as [|r rows]; [discriminate|].
  cbn [List.length Nat.eqb] in H.
  destruct (rowsByChain (r :: rows)) as [groups|]; [|discriminate].
  destruct (chainResultsFrom chainOrderOf groups []) as [res|] eqn:Er;
    [|discriminate].
  injection H as <-. exists groups.
  split; [discriminate|]. split; [reflexivity|]. split; [exact Er|].
  reflexivity.
Qed.

(** X12.  On at least one row, with no tag of a row and no key of the
    configuration among the inherited names, [main] builds a payload: its
    [chains] hold, for the configured keys in their order, [processChain] of
    the rows tagged with the key, in the order of the query; [combined] is
    the combiner's result on these chains; [chainOrder] lists the configured
    keys; the thresholds are the constants.  Rows tagged with a chain that
    is not configured are not in the payload. *)
Theorem main_payload (now : string) (rows : list TaggedRow)
    (Hrows : rows <> [])
    (Htags : Forall (fun r => inherited (rowChainKey r) = false) rows)
    (Hkeys : Forall (fun k => inherited k = false) chainOrderOf)
    (Hdistinct : NoDup chainOrderOf) :
  exists p,
    mainPayload now rows = inr p
    /\ chains p
       = map (fun k => (k, processChain k (chainRows k rows))) chainOrderOf
    /\ combined p = buildCombinedDataset (chains p)
    /\ chainOrder p = chainOrderOf
    /\ generatedAt p = now
    /\ thresholds_retail p = RETAIL_THRESHOLD cfg
    /\ thresholds_megaHolder p = MEGA_HOLDER_THRESHOLD cfg
    /\ totals_totalSupply p = TOTAL_TEL_SUPPLY.
Proof.
  destruct (mainPayload now rows) as [e|p] eqn:E.
  - exfalso. unfold mainPayload in E.
    destruct rows as [|r rows]; [congruence|].
    cbn [List.length Nat.eqb] in E.
    destruct (rowsByChain (r :: rows)) as [groups|] eqn:Eg.
    + destruct (chainResultsFrom chainOrderOf groups []) as [res|] eqn:Er;
        [discriminate|].
      apply chainResultsFrom_None in Er. apply Exists_exists in Er.
      destruct Er as [k [Hk Hi]]. rewrite Forall_forall in Hkeys.
      rewrite (Hkeys k Hk) in Hi. discriminate.
    + apply rowsByChainFrom_None in Eg. apply Exists_exists in Eg.
      destruct Eg as [r' [Hr' Hi]]. rewrite Forall_forall in Htags.
      rewrite (Htags r' Hr') in Hi. discriminate.
  - exists p. split; [reflexivity|].
    destruct (mainPayload_inr now rows p E) as [groups [_ [Hg [Hc Hp]]]].
    split.
    + rewrite (chainResultsFrom_fresh groups chainOrderOf [] (chains p)
                 Hdistinct Hc).
      cbn [app]. apply map_ext. intros k.
      now rewrite (rowsByChainFrom_lookup rows [] groups Hg k).
    + rewrite Hp. cbn. repeat split.
Qed.

(** X13.  [main] throws "Dune query returned no rows." exactly on an empty
    result, and a [TypeError] exactly when the result is not empty and a tag
    of a row or a key of the configuration is one of the names that plain
    objects inherit; in every other case it builds a payload. *)
Theorem main_errors (now : string) (rows : list TaggedRow) :
  (mainPayload now rows = inl (ErrorMessage "Dune query returned no rows.")
   <-> rows = [])
  /\ (mainPayload now rows = inl TypeError
      <-> rows <> []
          /\ (Exists (fun r => inherited (rowChainKey r) = true) rows
              \/ Exists (fun k => inherited k = true) chainOrderOf))
  /\ (forall e, mainPayload now rows = inl e ->
        e = ErrorMessage "Dune query returned no rows." \/ e = TypeError).
Proof.
  unfold mainPayload.
  destruct rows as [|r rows].
  - cbn [List.length Nat.eqb]. split; [|split].
    + split; reflexivity.
    + split; [discriminate | intros [H _]; congruence].
    + intros e H. injection H as <-. now left.
  - cbn [List.length Nat.eqb].
    pose proof (rowsByChainFrom_None (r :: rows) []) as Hg.
    fold (rowsByChain (r :: rows)) in Hg.
    destruct (rowsByChain (r :: rows)) as [groups|].
    + pose proof (chainResultsFrom_None groups chainOrderOf []) as Hc.
      destruct (chainResultsFrom chainOrderOf groups []) as [res|].
      * split; [|split].
        -- split; discriminate.
        -- split; [discriminate|]. intros [_ [H|H]].
           ++ apply Hg in H. discriminate.
           ++ apply Hc in H. discriminate.
        -- discriminate.
      * split; [|split].
        -- split; discriminate.
        -- split; [|reflexivity]. intros _. split; [discriminate|].
           right. now apply Hc.
        -- intros e H. injection H as <-. now right.
    + split; [|split].
      * split; discriminate.
      * split; [|reflexivity]. intros _. split; [discriminate|].
        left. now apply Hg.
      * intros e H. injection H as <-. now right.
Qed.

(** X14.  The tags of the rows are put in lower case and the keys of the
    configuration are not: a configured chain whose key is not in lower
    case receives no row, whatever the rows are tagged with, and its
    aggregate in the payload is the empty one. *)
Theorem chain_key_not_in_lower_case_gets_no_rows
    (now : string) (rows : list TaggedRow) (p : Payload) (chainKey : string)
    (Hp : mainPayload now rows = inr p)
    (Hconfigured : In chainKey chainOrderOf)
    (Hcase : toLowerCase chainKey <> chainKey) :
  chainRows chainKey rows = []
  /\ obj_get chainKey (chains p) = Some (processChain chainKey [])
  /\ holders (processChain chainKey []) = []
  /\ retailHolderCount (processChain chainKey []) = 0%nat
  /\ totalRetailSupply (processChain chainKey []) = JsNum.zero
  /\ excludedAddresses (processChain chainKey []) = [].
Proof.
  assert (Hnone : chainRows chainKey rows = []).
  { unfold chainRows. destruct (str_falsy chainKey); [reflexivity|].
    replace (filter (fun r => (rowChainKey r =? chainKey)%string) rows)
      with (@nil TaggedRow); [reflexivity|].
    symmetry. clear Hp. induction rows as [|r rows IH]; [reflexivity|].
    cbn [filter].
    destruct (String.eqb_spec (rowChainKey r) chainKey) as [E|E]; [|exact IH].
    exfalso. apply Hcase. rewrite <- E. unfold rowChainKey.
    apply toLowerCase_idem. }
  split; [exact Hnone|]. split; [|repeat split].
  destruct (mainPayload_inr now rows p Hp) as [groups [_ [Hg [Hc _]]]].
  rewrite (chainResultsFrom_lookup groups chainOrderOf [] (chains p) Hc).
  destruct (in_dec string_dec chainKey chainOrderOf) as [_|Hn];
    [|contradiction].
  rewrite (rowsByChainFrom_lookup rows [] groups Hg chainKey), Hnone.
  reflexivity.
Qed.

(** ** The paging loop of [fetchResults] *)

Lemma fetchResultsFrom_table (server : nat -> string + DunePage)
    (table : list TaggedRow) (limit : nat) :
  servesTable server table limit ->
  forall fuel offset rows,
    (0 < fuel)%nat ->
    (List.length table <= offset + fuel * limit)%nat ->
    fetchResultsFrom fuel server offset rows
    = Some (inr (rows ++ skipn offset table)%list).
Proof.
  intros Hs. induction fuel as [|fuel IH]; intros offset rows Hpos Hlen;
    [lia|].
  cbn [fetchResultsFrom].
  destruct (Hs offset) as [page [Hpage [Hrows Hnext]]].
  rewrite Hpage, Hrows, Hnext.
  destruct (Nat.ltb_spec (offset + limit) (List.length table)) as [Hlt|Hge].
  - rewrite IH by nia.
    rewrite <- app_assoc. do 3 f_equal.
    replace (offset + limit)%nat with (limit + offset)%nat by lia.
    rewrite <- skipn_skipn. apply firstn_skipn.
  - do 3 f_equal. apply firstn_all2. rewrite length_skipn. lia.
Qed.

(** X15.  From a server that pages a table by some number of rows,
    naming the next offset while rows are left, [fetchResults] returns the
    whole table, every row once and in order, as soon as it may make enough
    requests for it. *)
Theorem fetchResults_returns_the_table
    (server : nat -> string + DunePage) (table : list TaggedRow)
    (limit fuel : nat)
    (Hserver : servesTable server table limit)
    (Hfuel : (0 < fuel)%nat)
    (Henough : (List.length table <= fuel * limit)%nat) :
  fetchResults fuel server = Some (inr table).
Proof.
  unfold fetchResults.
  rewrite (fetchResultsFrom_table server table limit Hserver fuel 0 [] Hfuel
             Henough).
  reflexivity.
Qed.

Lemma fetchResultsFrom_endless (server : nat -> string + DunePage) :
  (forall offset, exists page,
      server offset = inr page /\ nextOffsetOf page <> None) ->
  forall fuel offset rows, fetchResultsFrom fuel server offset rows = None.
Proof.
  intros Hs. induction fuel as [|fuel IH]; intros offset rows;
    [reflexivity|].
  cbn [fetchResultsFrom].
  destruct (Hs offset) as [page [Hpage Hnext]]. rewrite Hpage.
  destruct (nextOffsetOf page) as [o|]; [apply IH | congruence].
Qed.

(** X16.  The loop of [fetchResults] has no bound of its own: on a server
    that names a next offset in every response, no number of requests
    brings it to its end, and it returns nothing. *)
Theorem fetchResults_has_no_bound
    (server : nat -> string + DunePage)
    (Hserver : forall offset, exists page,
        server offset = inr page /\ nextOffsetOf page <> None) :
  forall fuel, fetchResults fuel server = None.
Proof.
  intros fuel. apply fetchResultsFrom_endless. exact Hserver.
Qed.

(** ** The early end of the paging loop of [fetchChainHolders] *)

Lemma last_Some {A : Type} (l : list A) :
  l <> [] -> exists pre x, l = (pre ++ [x])%list
                           /\ last (map Some l) None = Some x.
Proof.
  induction l as [|a l IH]; intros H; [congruence|].
  destruct l as [|b l].
  - exists [], a. split; reflexivity.
  - destruct IH as [pre [x [Hl Hx]]]; [discriminate|].
    exists (a :: pre), x. split.
    + simpl. now rewrite <- Hl.
    + exact Hx.
Qed.

Lemma fetched_is_prefix (pages : list MoralisPage) :
  exists rest,
    pagedOwners pages = (fetchedOwners pages ++ rest)%list
    /\ (rest = []
        \/ exists pre o,
             fetchedOwners pages = (pre ++ [o])%list
             /\ JsNum.isNaN (ownerBalance o) = false
             /\ (ownerBalance o <? RETAIL_THRESHOLD cfg)%js = true).
Proof.
  induction pages as [|data pages IH].
  - exists []. split; [reflexivity | now left].
  - cbn [pagedOwners fetchedOwners]. cbv zeta.
    destruct (List.length (nullish (result data) []) =? 0)%nat eqn:El.
    { exists []. split; [reflexivity | now left]. }
    destruct (str_falsy (nullish (cursor data) "")).
    { exists []. split; [now rewrite app_nil_r | now left]. }
    destruct (negb (JsNum.isNaN (lastBalanceOf (nullish (result data) [])))
              && (lastBalanceOf (nullish (result data) [])
                  <? RETAIL_THRESHOLD cfg)%js) eqn:Eb.
    + exists (pagedOwners pages). split; [reflexivity|]. right.
      destruct (last_Some (nullish (result data) [])) as [pre [o [Hl Ho]]].
      { intros Hnil. rewrite Hnil in El. discriminate. }
      exists pre, o. split; [exact Hl|].
      unfold lastBalanceOf in Eb. rewrite Ho in Eb.
      apply andb_true_iff in Eb. destruct Eb as [E1 E2].
      apply negb_true_iff in E1. split; assumption.
    + destruct IH as [rest [Hr Hlast]].
      exists rest. split; [now rewrite Hr, app_assoc|].
      destruct Hlast as [->|[pre [o [Hf Ho]]]]; [now left|].
      right. exists (nullish (result data) [] ++ pre)%list, o.
      split; [now rewrite Hf, app_assoc | exact Ho].
Qed.

Lemma leb_trans (x y z : jsnum) :
  (x <=? y)%js = true -> (y <=? z)%js = true -> (x <=? z)%js = true.
Proof.
  destruct x as [| |a|], y as [| |b|], z as [| |c|];
    try discriminate; try reflexivity.
  unfold JsNum.leb. rewrite !Qle_bool_iff. apply Qle_trans.
Qed.

Lemma below_is_not_geb (x o t : jsnum) :
  (x <=? o)%js = true -> (o <? t)%js = true -> (x >=? t)%js = false.
Proof.
  unfold JsNum.geb.
  destruct x as [| |a|], o as [| |b|], t as [| |c|];
    try discriminate; try reflexivity.
  unfold JsNum.leb, JsNum.ltb. intros H1 H2.
  apply Qle_bool_iff in H1. apply qltb_lt in H2.
  destruct (Qle_bool c a) eqn:E; [|reflexivity].
  apply Qle_bool_iff in E. lra.
Qed.

Lemma richerFirst_after (pre : list Owner) (o : Owner) (rest : list Owner) :
  Sorted richerFirst (pre ++ o :: rest) -> Forall (richerFirst o) rest.
Proof.
  intros H. apply Sorted_StronglySorted in H.
  - induction pre as [|a pre IH]; simpl in H.
    + now inversion H.
    + apply IH. now inversion H.
  - intros a b c Hab Hbc. unfold richerFirst in *.
    now apply (leb_trans _ (ownerBalance b)).
Qed.

Lemma retailHolders_app (l : string) (vs1 vs2 : list View) :
  retailHolders l (vs1 ++ vs2)
  = (retailHolders l vs1 ++ retailHolders l vs2)%list.
Proof. unfold retailHolders. now rewrite filter_app, map_app. Qed.

Lemma excludedOf_app (vs1 vs2 : list View) :
  excludedOf (vs1 ++ vs2) = (excludedOf vs1 ++ excludedOf vs2)%list.
Proof. unfold excludedOf. now rewrite filter_app, map_app. Qed.

Lemma no_retail_below (owners : list Owner) (o : Owner) (l : string) :
  (ownerBalance o <? RETAIL_THRESHOLD cfg)%js = true ->
  Forall (richerFirst o) owners ->
  retailHolders l (map ownerView owners) = [].
Proof.
  intros Ho. induction 1 as [|x owners Hx _ IH]; [reflexivity|].
  unfold retailHolders in *. cbn [map filter].
  replace (isClass Retail (ownerView x)) with false; [exact IH|].
  symmetry. unfold isClass.
  destruct (classOf (ownerView x)) eqn:Ec; try reflexivity.
  exfalso. apply classify_retail_inv in Ec.
  destruct Ec as [a [_ [_ [_ [_ [_ Hge]]]]]].
  cbn [snd ownerView] in Hge.
  rewrite (below_is_not_geb _ _ _ Hx Ho) in Hge. discriminate.
Qed.

Lemma aggregate_by_holders (k l : string) (vs1 vs2 : list View) :
  retailHolders l vs1 = retailHolders l vs2 ->
  holders (aggregateViews k l vs1) = holders (aggregateViews k l vs2)
  /\ totalRetailSupply (aggregateViews k l vs1)
     = totalRetailSupply (aggregateViews k l vs2)
  /\ retailHolderCount (aggregateViews k l vs1)
     = retailHolderCount (aggregateViews k l vs2)
  /\ metrics (aggregateViews k l vs1) = metrics (aggregateViews k l vs2).
Proof.
  intros H. unfold aggregateViews, finishChain.
  cbn [holders totalRetailSupply retailHolderCount metrics].
  rewrite !fold_step_holders. cbn [acc_holders acc_init app].
  rewrite H. repeat split.
Qed.

(** X17.  When the owners come by descending balance, as the last line of
    the loop takes them to, ending the loop after a page whose last balance
    is below the retail threshold loses no holder: the holders, their
    count, the retail supply and the metrics are those of all the pages.
    Only the excluded addresses, which are not bounded below, may be fewer:
    those found are among those of all the pages. *)
Theorem early_end_keeps_every_holder
    (chainKey chainLabel : string) (pages : list MoralisPage)
    (Hsorted : Sorted richerFirst (pagedOwners pages)) :
  let early := fetchChainHoldersPaged chainKey chainLabel pages in
  let full := fetchChainHolders chainKey chainLabel (pagedOwners pages) in
  holders early = holders full
  /\ totalRetailSupply early = totalRetailSupply full
  /\ retailHolderCount early = retailHolderCount full
  /\ metrics early = metrics full
  /\ incl (excludedAddresses early) (excludedAddresses full).
Proof.
  cbv zeta. unfold fetchChainHoldersPaged.
  rewrite !fetchChainHolders_views.
  destruct (fetched_is_prefix pages) as [rest [Hr Hlast]].
  rewrite Hr in *. rewrite map_app.
  assert (Hret : retailHolders chainLabel (map ownerView rest) = []).
  { destruct Hlast as [->|[pre [o [Hf [_ Ho]]]]]; [reflexivity|].
    apply (no_retail_below rest o chainLabel Ho).
    rewrite Hf, <- app_assoc in Hsorted.
    apply (richerFirst_after pre o rest Hsorted). }
  assert (Hh : retailHolders chainLabel (map ownerView (fetchedOwners pages))
               = retailHolders chainLabel
                   (map ownerView (fetchedOwners pages) ++ map ownerView rest)).
  { now rewrite retailHolders_app, Hret, app_nil_r. }
  destruct (aggregate_by_holders chainKey chainLabel _ _ Hh)
    as [H1 [H2 [H3 H4]]].
  split; [exact H1|]. split; [exact H2|]. split; [exact H3|].
  split; [exact H4|].
  intros x Hx. rewrite aggregateViews_excluded in *.
  apply set_add_all_In. apply set_add_all_In in Hx.
  destruct Hx as [Hx|[]]. left. rewrite excludedOf_app.
  apply in_or_app. now left.
Qed.

(** ** The Gini coefficient as a mean absolute difference *)

Lemma qsum_scale {X : Type} (c : Q) (f : X -> Q) (l : list X) :
  qsum (map (fun x => c * f x) l) == c * qsum (map f l).
Proof.
  induction l as [|x l IH]; simpl; [ring|]. rewrite IH. ring.
Qed.

Lemma qsum_const {X : Type} (c : Q) (l : list X) :
  qsum (map (fun _ => c) l) == nat_q (List.length l) * c.
Proof.
  induction l as [|x l IH]; [simpl; change (nat_q 0) with 0; ring|].
  cbn [map qsum fold_right List.length]. fold (qsum (map (fun _ => c) l)).
  rewrite IH, nat_q_S. ring.
Qed.

Lemma qsum_map_id (l : list Q) : qsum (map (fun x => x) l) == qsum l.
Proof. now rewrite map_id. Qed.

Lemma Qabs_swap (x y : Q) : Qabs (x - y) == Qabs (y - x).
Proof.
  setoid_replace (y - x) with (- (x - y)) by ring.
  symmetry. apply Qabs_opp.
Qed.

Lemma Qabs_same (x : Q) : Qabs (x - x) == 0.
Proof. setoid_replace (x - x) with 0 by ring. reflexivity. Qed.

Lemma absDiffSum_cons (a : Q) (t : list Q) :
  absDiffSum (a :: t)
  == 2 * qsum (map (fun y => Qabs (a - y)) t) + absDiffSum t.
Proof.
  unfold absDiffSum. cbn [map qsum fold_right].
  fold (qsum (map (fun y => Qabs (a - y)) t)).
  fold (qsum (map (fun x => Qabs (x - a)
                            + qsum (map (fun y => Qabs (x - y)) t)) t)).
  rewrite <- (qsum_map_plus (fun x => Qabs (x - a))
                (fun x => qsum (map (fun y => Qabs (x - y)) t)) t).
  rewrite (qsum_map_ext (fun x => Qabs (x - a)) (fun y => Qabs (a - y)) t)
    by (intros x _; apply Qabs_swap).
  rewrite Qabs_same. ring.
Qed.

Lemma diff_from_least (a : Q) (t : list Q) :
  Forall (Qle a) t ->
  qsum (map (fun y => Qabs (a - y)) t)
  == qsum t - nat_q (List.length t) * a.
Proof.
  induction 1 as [|y t Hy _ IH]; [simpl; change (nat_q 0) with 0; ring|].
  cbn [map qsum fold_right List.length].
  fold (qsum (map (fun y => Qabs (a - y)) t)). fold (qsum t).
  rewrite IH, nat_q_S.
  rewrite (Qabs_swap a y), Qabs_pos by lra. ring.
Qed.

Lemma absDiffSum_sorted (v : list Q) :
  Sorted Qle v ->
  absDiffSum v
  == 2 * ((nat_q (List.length v) + 1) * qsum v - 2 * weighted v).
Proof.
  induction v as [|a t IH]; intros Hs.
  - unfold absDiffSum. simpl. change (nat_q 0) with 0. ring.
  - rewrite absDiffSum_cons.
    rewrite (diff_from_least a t (sorted_head_le a t Hs)).
    rewrite IH by now inversion Hs.
    cbn [weighted qsum fold_right List.length]. fold (qsum t).
    rewrite !nat_q_S. ring.
Qed.

Lemma absDiffSum_perm (v v' : list Q) :
  Permutation v v' -> absDiffSum v == absDiffSum v'.
Proof.
  intros H. unfold absDiffSum.
  rewrite (qsum_perm _ _
             (Permutation_map
                (fun x => qsum (map (fun y => Qabs (x - y)) v)) H)).
  apply qsum_map_ext. intros x _.
  apply qsum_perm. now apply Permutation_map.
Qed.

Lemma qsum_zero_all (l : list Q) :
  Forall (fun q => 0 <= q) l -> qsum l == 0 -> Forall (fun q => q == 0) l.
Proof.
  induction 1 as [|x l Hx Hl IH]; intros Hs; [constructor|].
  simpl in Hs. fold (qsum l) in Hs.
  pose proof (qsum_nonneg l Hl) as Hn.
  constructor; [lra | apply IH; lra].
Qed.

Lemma absDiffSum_zero_iff (v : list Q) : absDiffSum v == 0 <-> all_equal v.
Proof.
  split.
  - intros H a b Ha Hb. unfold absDiffSum in H.
    apply qsum_zero_all in H.
    + rewrite Forall_forall in H.
      specialize (H _ (in_map (fun x => qsum (map (fun y => Qabs (x - y)) v))
                         v a Ha)).
      cbv beta in H. apply qsum_zero_all in H.
      * rewrite Forall_forall in H.
        specialize (H _ (in_map (fun y => Qabs (a - y)) v b Hb)).
        cbv beta in H.
        pose proof (Qle_Qabs (a - b)) as H1.
        pose proof (Qle_Qabs (b - a)) as H2.
        rewrite <- (Qabs_swap a b) in H2. lra.
      * apply Forall_map. apply Forall_forall. intros y _.
        apply Qabs_nonneg.
    + apply Forall_map. apply Forall_forall. intros x _.
      apply qsum_nonneg. apply Forall_map. apply Forall_forall.
      intros y _. apply Qabs_nonneg.
  - intros H. unfold absDiffSum.
    rewrite (qsum_map_ext _ (fun _ => 0) v); [rewrite qsum_const; ring|].
    intros x Hx. rewrite (qsum_map_ext _ (fun _ => 0) v);
      [rewrite qsum_const; ring|].
    intros y Hy. cbv beta. rewrite (H x y Hx Hy). apply Qabs_same.
Qed.

(** The value [calculateGiniCoefficient] returns, against the mean
    absolute difference. *)
Lemma gini_mean_difference (vs : list Q) :
  vs <> [] -> ~ qsum vs == 0 ->
  exists g,
    calculateGiniCoefficient (map Fin vs) = Fin g
    /\ g * (2 * nat_q (List.length vs) * qsum vs) == absDiffSum vs.
Proof.
  intros Hne Hsum. rewrite (gini_eval vs Hne). cbv zeta.
  set (sq := sort_ascending vs).
  set (n := List.length vs).
  set (S := fold_left Qplus sq 0).
  set (C := fold_left (fun c i => c + nat_q (n - i) * nth i sq 0) (seq 0 n) 0).
  assert (Hperm : Permutation sq vs) by apply sort_ascending_perm.
  assert (Hsorted : Sorted Qle sq) by apply sort_ascending_sorted.
  assert (Hlen : List.length sq = n) by apply js_sort_length.
  assert (HS : S == qsum vs).
  { unfold S. rewrite fold_plus_qsum, (qsum_perm _ _ Hperm). ring. }
  assert (HC : C == weighted sq).
  { unfold C. rewrite fold_plus_map. rewrite <- Hlen.
    rewrite weighted_loop. ring. }
  assert (HSne : ~ S == 0) by (rewrite HS; exact Hsum).
  rewrite (Qeq_bool_false S HSne).
  assert (Hn : 0 < nat_q n).
  { apply nat_q_pos. unfold n. destruct vs; [congruence | simpl; lia]. }
  assert (Hn1 : nat_q (n + 1) == nat_q n + 1).
  { replace (n + 1)%nat with (Datatypes.S n) by lia. apply nat_q_S. }
  eexists. split; [reflexivity|].
  rewrite <- (absDiffSum_perm sq vs Hperm), (absDiffSum_sorted sq Hsorted).
  rewrite Hlen, (qsum_perm _ _ Hperm), Hn1, HC, <- HS.
  field. split; [exact HSne | lra].
Qed.

Lemma gini_of_nothing (vs : list Q) :
  vs = [] \/ qsum vs == 0 -> calculateGiniCoefficient (map Fin vs) = Fin 0.
Proof.
  intros [->|Hs]; [reflexivity|].
  destruct vs as [|a t]; [reflexivity|].
  rewrite gini_eval by discriminate. cbv zeta.
  replace (Qeq_bool (fold_left Qplus (sort_ascending (a :: t)) 0) 0)
    with true; [reflexivity|].
  symmetry. apply Qeq_bool_iff.
  rewrite fold_plus_qsum, (qsum_perm _ _ (sort_ascending_perm (a :: t))).
  rewrite Hs. ring.
Qed.

(** X18.  In exact arithmetic, on finite balances whose sum is not [0],
    [calculateGiniCoefficient] returns half the relative mean absolute
    difference: the sum of [|x - y|] over all ordered pairs of balances,
    divided by [2 * n] times the sum of the balances.  The sort of the
    function is a means of computing it, and takes no part in the value. *)
Theorem gini_is_half_relative_mean_difference (values : list jsnum)
    (Hfin : Forall (fun v => JsNum.isFinite v = true) values)
    (Hne : values <> [])
    (Hsum : ~ qsum (map qval values) == 0) :
  exists g,
    calculateGiniCoefficient values = Fin g
    /\ g == absDiffSum (map qval values)
            / (2 * nat_q (List.length values) * qsum (map qval values)).
Proof.
  replace (calculateGiniCoefficient values)
    with (calculateGiniCoefficient (map Fin (map qval values)))
    by now rewrite <- finite_values.
  destruct (gini_mean_difference (map qval values)) as [g [Hg Heq]].
  - destruct values; [congruence | discriminate].
  - exact Hsum.
  - exists g. split; [exact Hg|]. rewrite length_map in Heq.
    assert (Hn : 0 < nat_q (List.length values)).
    { apply nat_q_pos. destruct values; [congruence | simpl; lia]. }
    rewrite <- Heq. field. split; [exact Hsum | lra].
Qed.

Lemma gini_perm (vs vs' : list Q) :
  Permutation vs vs' ->
  exists g g',
    calculateGiniCoefficient (map Fin vs) = Fin g
    /\ calculateGiniCoefficient (map Fin vs') = Fin g'
    /\ g == g'.
Proof.
  intros Hp.
  destruct vs as [|a t].
  { apply Permutation_nil in Hp. subst vs'. exists 0, 0.
    split; [reflexivity|]. split; reflexivity. }
  assert (Hne : a :: t <> []) by discriminate.
  assert (Hne' : vs' <> []).
  { intros ->. apply Permutation_sym, Permutation_nil in Hp. discriminate. }
  remember (a :: t) as vs eqn:Evs. clear Evs a t.
  pose proof (qsum_perm _ _ Hp) as Hs.
  destruct (Qeq_dec (qsum vs) 0) as [Hz|Hnz].
  - exists 0, 0. split; [|split; [|reflexivity]].
    + apply gini_of_nothing. now right.
    + apply gini_of_nothing. right. now rewrite <- Hs.
  - destruct (gini_mean_difference vs Hne Hnz) as [g [Hg Heq]].
    assert (Hnz' : ~ qsum vs' == 0) by now rewrite <- Hs.
    destruct (gini_mean_difference vs' Hne' Hnz') as [g' [Hg' Heq']].
    exists g, g'. split; [exact Hg|]. split; [exact Hg'|].
    rewrite <- (Permutation_length Hp), <- Hs,
      <- (absDiffSum_perm vs vs' Hp), <- Heq in Heq'.
    assert (Hn : 0 < nat_q (List.length vs)).
    { apply nat_q_pos. destruct vs; [congruence | simpl; lia]. }
    apply (Qmult_inj_r g g' (2 * nat_q (List.length vs) * qsum vs)).
    + intros H0. apply Hnz.
      assert (H2 : ~ 2 * nat_q (List.length vs) == 0) by lra.
      apply Qmult_integral in H0. destruct H0 as [H0|H0];
        [contradiction | exact H0].
    + symmetry. exact Heq'.
Qed.

(** X19.  In exact arithmetic the Gini coefficient of finite balances does
    not depend on their order: the same balances in another order give an
    equal coefficient. *)
Theorem gini_does_not_depend_on_order (values values' : list jsnum)
    (Hfin : Forall (fun v => JsNum.isFinite v = true) values)
    (Hperm : Permutation values values') :
  exists g g',
    calculateGiniCoefficient values = Fin g
    /\ calculateGiniCoefficient values' = Fin g'
    /\ g == g'.
Proof.
  assert (Hfin' : Forall (fun v => JsNum.isFinite v = true) values').
  { apply Forall_forall. intros v Hv.
    apply Permutation_sym in Hperm.
    apply (Permutation_in _ Hperm) in Hv. revert v Hv.
    now apply Forall_forall. }
  rewrite (finite_values values Hfin), (finite_values values' Hfin').
  apply gini_perm. now apply Permutation_map.
Qed.

Lemma nonempty_of_sum (vs : list Q) : ~ qsum vs == 0 -> vs <> [].
Proof. intros H ->. apply H. reflexivity. Qed.

(** X20.  In exact arithmetic, on finite balances whose sum is not [0],
    the Gini coefficient is [0] exactly when all balances are equal. *)
Theorem gini_zero_iff_all_equal (values : list jsnum)
    (Hfin : Forall (fun v => JsNum.isFinite v = true) values)
    (Hsum : ~ qsum (map qval values) == 0) :
  exists g,
    calculateGiniCoefficient values = Fin g
    /\ (g == 0 <-> all_equal (map qval values)).
Proof.
  replace (calculateGiniCoefficient values)
    with (calculateGiniCoefficient (map Fin (map qval values)))
    by now rewrite <- finite_values.
  pose proof (nonempty_of_sum _ Hsum) as Hne.
  destruct (gini_mean_difference (map qval values) Hne Hsum)
    as [g [Hg Heq]].
  exists g. split; [exact Hg|].
  rewrite <- absDiffSum_zero_iff, <- Heq.
  assert (Hn : 0 < nat_q (List.length (map qval values))).
  { apply nat_q_pos. destruct (map qval values); [congruence | simpl; lia]. }
  split.
  - intros ->. ring.
  - intros H. apply Qmult_integral in H. destruct H as [H|H]; [exact H|].
    exfalso. apply Qmult_integral in H. destruct H as [H|H]; [lra|].
    contradiction.
Qed.

(** X21.  In exact arithmetic, on [n] balances that are finite and not
    negative, the Gini coefficient is at most [1 - 1/n]. *)
Theorem gini_at_most_one_minus_inverse_count (values : list jsnum)
    (Hnn : Forall (fun v => nonneg_finite v = true) values)
    (Hne : values <> []) :
  exists g,
    calculateGiniCoefficient values = Fin g
    /\ g <= 1 - 1 / nat_q (List.length values).
Proof.
  destruct (nonneg_values values Hnn) as [Hv Hpos].
  replace (calculateGiniCoefficient values)
    with (calculateGiniCoefficient (map Fin (map qval values)))
    by now rewrite <- Hv.
  rewrite <- (length_map qval values).
  assert (Hne' : map qval values <> [])
    by (destruct values; [congruence | discriminate]).
  remember (map qval values) as vs eqn:Evs. clear Evs Hv Hnn Hne values.
  assert (Hn : 0 < nat_q (List.length vs)).
  { apply nat_q_pos. destruct vs; [congruence | simpl; lia]. }
  assert (Hn1 : 1 <= nat_q (List.length vs)).
  { destruct vs as [|a t]; [congruence|].
    cbn [List.length]. rewrite nat_q_S.
    pose proof (nat_q_nonneg (List.length t)). lra. }
  assert (Hbound : 0 <= 1 - 1 / nat_q (List.length vs)).
  { assert (H1 : 1 / nat_q (List.length vs) <= 1).
    { apply Qle_shift_div_r; [exact Hn | lra]. }
    lra. }
  destruct (Qeq_dec (qsum vs) 0) as [Hz|Hnz].
  { exists 0. split; [apply gini_of_nothing; now right | exact Hbound]. }
  destruct (gini_mean_difference vs Hne' Hnz) as [g [Hg Heq]].
  exists g. split; [exact Hg|].
  set (sq := sort_ascending vs).
  assert (Hperm : Permutation sq vs) by apply sort_ascending_perm.
  assert (Hsqpos : Forall (fun q => 0 <= q) sq).
  { apply Forall_forall. intros q Hq.
    apply (Permutation_in _ Hperm) in Hq. revert q Hq.
    now apply Forall_forall. }
  pose proof (weighted_ge_sum sq Hsqpos) as Hlow.
  rewrite <- (absDiffSum_perm sq vs Hperm),
    (absDiffSum_sorted sq (sort_ascending_sorted vs)) in Heq.
  assert (Hlen : List.length sq = List.length vs) by apply js_sort_length.
  rewrite Hlen, (qsum_perm _ _ Hperm) in Heq.
  rewrite (qsum_perm _ _ Hperm) in Hlow.
  unfold sq in Heq, Hlow.
  pose proof (qsum_nonneg vs Hpos) as HS.
  assert (HSpos : 0 < qsum vs) by lra.
  set (n := nat_q (List.length vs)) in *.
  set (S := qsum vs) in *.
  set (W := weighted (sort_ascending vs)) in *.
  assert (Hg1 : g * (n * S) <= (n - 1) * S) by lra.
  assert (Hinv : 1 - 1 / n == (n - 1) / n) by (field; lra).
  rewrite Hinv. apply Qle_shift_div_l; [exact Hn|].
  assert (HnS : 0 < S * 1) by lra.
  apply (Qmult_le_r _ _ S HSpos). lra.
Qed.

Lemma absDiffSum_scale (c : Q) (vs : list Q) :
  0 <= c -> absDiffSum (map (Qmult c) vs) == c * absDiffSum vs.
Proof.
  intros Hc. unfold absDiffSum. rewrite map_map.
  rewrite <- qsum_scale. apply qsum_map_ext. intros x _.
  rewrite map_map, <- qsum_scale. apply qsum_map_ext. intros y _.
  setoid_replace (c * x - c * y) with (c * (x - y)) by ring.
  rewrite Qabs_Qmult, (Qabs_pos c Hc). reflexivity.
Qed.

Lemma qsum_scale_values (c : Q) (vs : list Q) :
  qsum (map (Qmult c) vs) == c * qsum vs.
Proof.
  rewrite <- (map_id vs) at 2. apply (qsum_scale c (fun x => x)).
Qed.

(** X22.  In exact arithmetic the Gini coefficient of finite balances does
    not depend on their unit: multiplying every balance by the same
    positive number leaves it unchanged. *)
Theorem gini_does_not_depend_on_unit (values : list jsnum) (c : Q)
    (Hfin : Forall (fun v => JsNum.isFinite v = true) values)
    (Hc : 0 < c) :
  exists g g',
    calculateGiniCoefficient values = Fin g
    /\ calculateGiniCoefficient (map (fun v => (Fin c * v)%js) values)
       = Fin g'
    /\ g == g'.
Proof.
  pose proof (finite_values values Hfin) as Hv.
  remember (map qval values) as vs eqn:Evs. subst values. clear Evs Hfin.
  replace (map (fun v => (Fin c * v)%js) (map Fin vs))
    with (map Fin (map (Qmult c) vs))
    by (rewrite !map_map; reflexivity).
  destruct vs as [|a t].
  { exists 0, 0. split; [reflexivity|]. split; reflexivity. }
  assert (Hne : a :: t <> []) by discriminate.
  remember (a :: t) as vs eqn:Evs. clear Evs a t.
  assert (Hne' : map (Qmult c) vs <> [])
    by (destruct vs; [congruence | discriminate]).
  pose proof (qsum_scale_values c vs) as Hs.
  destruct (Qeq_dec (qsum vs) 0) as [Hz|Hnz].
  - exists 0, 0. split; [|split; [|reflexivity]].
    + apply gini_of_nothing. now right.
    + apply gini_of_nothing. right. rewrite Hs, Hz. ring.
  - assert (Hnz' : ~ qsum (map (Qmult c) vs) == 0).
    { rewrite Hs. intros H. apply Qmult_integral in H.
      destruct H as [H|H]; [lra | contradiction]. }
    destruct (gini_mean_difference vs Hne Hnz) as [g [Hg Heq]].
    destruct (gini_mean_difference _ Hne' Hnz') as [g' [Hg' Heq']].
    exists g, g'. split; [exact Hg|]. split; [exact Hg'|].
    rewrite length_map, Hs, absDiffSum_scale, <- Heq in Heq' by lra.
    assert (Hn : 0 < nat_q (List.length vs)).
    { apply nat_q_pos. destruct vs; [congruence | simpl; lia]. }
    apply (Qmult_inj_r g g' (2 * nat_q (List.length vs) * (c * qsum vs))).
    + intros H0. apply Qmult_integral in H0. destruct H0 as [H0|H0]; [lra|].
      apply Qmult_integral in H0. destruct H0 as [H0|H0];
        [lra | contradiction].
    + rewrite Heq'. ring.
Qed.

(** ** Invariances of the standard deviation *)

Lemma stddev_value (vs : list Q) :
  vs <> [] ->
  calculateStdDeviation (map Fin vs)
  = RFin (R_sqrt.sqrt (Q2R (population_variance vs))).
Proof.
  intros Hne. rewrite (stddev_eval vs Hne). cbv zeta.
  pose proof (variance_eval vs) as Hvar. cbv zeta in Hvar.
  pose proof (variance_nonneg vs) as Hpos.
  set (var := fold_left _ vs 0 / _) in Hvar |- *.
  unfold JsNum.msqrt.
  replace (JsNum.qltb var 0) with false
    by (symmetry; apply qltb_ge; lra).
  now rewrite (Qeq_eqR _ _ Hvar).
Qed.

Lemma mean_perm (vs vs' : list Q) :
  Permutation vs vs' -> mean_of vs == mean_of vs'.
Proof.
  intros H. unfold mean_of.
  now rewrite (qsum_perm _ _ H), (Permutation_length H).
Qed.

Lemma variance_perm (vs vs' : list Q) :
  Permutation vs vs' -> population_variance vs == population_variance vs'.
Proof.
  intros H. unfold population_variance.
  rewrite <- (Permutation_length H).
  rewrite (qsum_perm _ _
             (Permutation_map
                (fun v => (v - mean_of vs) * (v - mean_of vs)) H)).
  rewrite (qsum_map_ext
             (fun v => (v - mean_of vs) * (v - mean_of vs))
             (fun v => (v - mean_of vs') * (v - mean_of vs')) vs').
  - reflexivity.
  - intros x _. cbv beta. rewrite (mean_perm vs vs' H). reflexivity.
Qed.

(** X23.  In exact arithmetic the standard deviation of finite balances
    does not depend on their order. *)
Theorem std_deviation_does_not_depend_on_order (values values' : list jsnum)
    (Hfin : Forall (fun v => JsNum.isFinite v = true) values)
    (Hperm : Permutation values values') :
  calculateStdDeviation values = calculateStdDeviation values'.
Proof.
  assert (Hfin' : Forall (fun v => JsNum.isFinite v = true) values').
  { apply Forall_forall. intros v Hv.
    apply Permutation_sym in Hperm.
    apply (Permutation_in _ Hperm) in Hv. revert v Hv.
    now apply Forall_forall. }
  assert (Hp : Permutation (map qval values) (map qval values'))
    by now apply Permutation_map.
  rewrite (finite_values values Hfin), (finite_values values' Hfin').
  remember (map qval values) as vs eqn:Evs.
  remember (map qval values') as vs' eqn:Evs'.
  clear Evs Evs' Hfin Hfin' Hperm values values'.
  destruct vs as [|a t].
  { apply Permutation_nil in Hp. now subst vs'. }
  assert (Hne' : vs' <> []).
  { intros ->. apply Permutation_sym, Permutation_nil in Hp. discriminate. }
  rewrite !stddev_value by (assumption || discriminate).
  now rewrite (Qeq_eqR _ _ (variance_perm _ _ Hp)).
Qed.

Lemma mean_shift (c : Q) (vs : list Q) :
  vs <> [] -> mean_of (map (fun x => x + c) vs) == mean_of vs + c.
Proof.
  intros Hne. unfold mean_of. rewrite length_map.
  rewrite <- (qsum_map_plus (fun x => x) (fun _ => c) vs).
  rewrite qsum_map_id, qsum_const.
  assert (Hn : 0 < nat_q (List.length vs)).
  { apply nat_q_pos. destruct vs; [congruence | simpl; lia]. }
  field. lra.
Qed.

Lemma variance_shift (c : Q) (vs : list Q) :
  vs <> [] ->
  population_variance (map (fun x => x + c) vs) == population_variance vs.
Proof.
  intros Hne. unfold population_variance.
  rewrite length_map, map_map.
  rewrite (qsum_map_ext
             (fun x => (x + c - mean_of (map (fun x => x + c) vs))
                       * (x + c - mean_of (map (fun x => x + c) vs)))
             (fun v => (v - mean_of vs) * (v - mean_of vs)) vs).
  - reflexivity.
  - intros x _. cbv beta. rewrite (mean_shift c vs Hne). ring.
Qed.

(** X24.  In exact arithmetic the standard deviation of finite balances
    does not change when the same finite amount is added to every balance:
    it measures the spread of the balances, not their level. *)
Theorem std_deviation_does_not_depend_on_level (values : list jsnum) (c : Q)
    (Hfin : Forall (fun v => JsNum.isFinite v = true) values) :
  calculateStdDeviation (map (fun v => (v + Fin c)%js) values)
  = calculateStdDeviation values.
Proof.
  pose proof (finite_values values Hfin) as Hv.
  remember (map qval values) as vs eqn:Evs. subst values. clear Evs Hfin.
  replace (map (fun v => (v + Fin c)%js) (map Fin vs))
    with (map Fin (map (fun x => x + c) vs))
    by (rewrite !map_map; reflexivity).
  destruct vs as [|a t]; [reflexivity|].
  rewrite !stddev_value by discriminate.
  rewrite (Qeq_eqR _ _ (variance_shift c (a :: t) ltac:(discriminate))).
  reflexivity.
Qed.

(** ** The counts of the histogram *)

Lemma bracket_of_holder (h : Holder) :
  list_sum (map (fun b => if inBracketTest b h then 1 else 0)%nat brackets)
  = if inSomeBracket h then 1%nat else 0%nat.
Proof.
  unfold inBracketTest, inSomeBracket, brackets.
  destruct (balance h) as [| |q|]; try reflexivity.
  unfold JsNum.geb, JsNum.leb, JsNum.ltb, JsNum.qltb. simpl.
  split_Qle_bool; reflexivity.
Qed.

Lemma list_sum_map_plus {X : Type} (f g : X -> nat) (l : list X) :
  list_sum (map (fun x => f x + g x)%nat l)
  = (list_sum (map f l) + list_sum (map g l))%nat.
Proof. induction l as [|x l IH]; simpl; [reflexivity|]. rewrite IH. lia. Qed.

Lemma filter_length_cons {X : Type} (f : X -> bool) (x : X) (l : list X) :
  List.length (filter f (x :: l))
  = ((if f x then 1 else 0) + List.length (filter f l))%nat.
Proof. simpl. destruct (f x); reflexivity. Qed.

Lemma bucket_counts_filter (hs : list Holder) :
  list_sum (map bucket_count (calculateDistribution hs))
  = List.length (filter inSomeBracket hs).
Proof.
  unfold calculateDistribution. rewrite map_map. cbn [bucket_count].
  change (fun x : Bracket => List.length (inBracket x hs))
    with (fun x : Bracket => List.length (filter (inBracketTest x) hs)).
  induction hs as [|h hs IH]; [reflexivity|].
  rewrite filter_length_cons, <- IH, <- bracket_of_holder.
  rewrite <- list_sum_map_plus. f_equal. apply map_ext. intros b.
  apply filter_length_cons.
Qed.

(** X25.  The counts of the histogram add up to the number of holders with
    a balance of at least 1,000 that is not infinite: every such holder is
    counted in one bucket and no holder in two, and a holder below 1,000 in
    none. *)
Theorem bucket_counts_add_up (hs : list Holder) :
  list_sum (map bucket_count (calculateDistribution hs))
  = List.length (filter inSomeBracket hs)
  /\ (list_sum (map bucket_count (calculateDistribution hs))
      <= List.length hs)%nat
  /\ map bucket_label (calculateDistribution hs)
     = ["1K-10K"; "10K-100K"; "100K-1M"; "1M-10M"; "10M-100M"; "100M+"].
Proof.
  pose proof (bucket_counts_filter hs) as H.
  split; [exact H|]. split; [|reflexivity].
  rewrite H. apply filter_length_le.
Qed.

(** ** The share of all the holders *)

Lemma toFixed2_hundred (q : Q) : q == 100 -> toFixed2 (Fin q) = "100.00".
Proof.
  intros H. unfold toFixed2.
  replace (Qle_bool 1000000000000000000000 (Qabs q)) with false.
  - replace (JsNum.qltb q 0) with false
      by (symmetry; apply qltb_ge; lra).
    unfold hundredths.
    assert (Hf : Qfloor (q * 100 + (1 # 2)) = 10000%Z).
    { rewrite (Qfloor_comp _ (100 * 100 + (1 # 2))); [reflexivity|].
      rewrite H. reflexivity. }
    rewrite Hf. reflexivity.
  - symmetry. destruct (Qle_bool 1000000000000000000000 (Qabs q)) eqn:E;
      [|reflexivity].
    apply Qle_bool_iff in E. rewrite H in E. exfalso.
    revert E. apply Qlt_not_le. reflexivity.
Qed.

(** The quotient of a finite double by itself, as IEEE 754 division
    computes it. *)
Lemma SFdiv_self (s : bool) (m : positive) (e : Z) :
  SFdiv prec emax (S754_finite s m e) (S754_finite s m e)
  = S754_finite false 4503599627370496 (-52).
Proof.
  unfold SFdiv, SFdiv_core_binary.
  rewrite !Z.sub_diag.
  change (Z.min (fexp prec emax 0) 0) with (-53)%Z.
  change (0 - -53)%Z with 53%Z. cbv iota beta.
  change (IntDef.Z.shiftl (Z.pos m) 53) with (Z.shiftl (Z.pos m) 53).
  rewrite Z.shiftl_mul_pow2 by lia.
  change (IntDef.Z.div_eucl (Z.pos m * 2 ^ 53) (Z.pos m))
    with (Z.div_eucl (Z.pos m * 2 ^ 53) (Z.pos m)).
  rewrite (surjective_pairing (Z.div_eucl (Z.pos m * 2 ^ 53) (Z.pos m))).
  change (fst (Z.div_eucl (Z.pos m * 2 ^ 53) (Z.pos m)))
    with ((Z.pos m * 2 ^ 53) / Z.pos m)%Z.
  change (snd (Z.div_eucl (Z.pos m * 2 ^ 53) (Z.pos m)))
    with ((Z.pos m * 2 ^ 53) mod Z.pos m)%Z.
  rewrite (Z.mul_comm (Z.pos m)), Z.div_mul, Z.mod_mul by lia.
  rewrite xorb_nilpotent.
  unfold new_location.
  destruct (IntDef.Z.even (Z.pos m)); reflexivity.
Qed.

Lemma positive_finite (x : float) :
  (0 <? x)%float = true -> (x <? infinity)%float = true ->
  exists m e, Prim2SF x = S754_finite false m e.
Proof.
  rewrite !FloatAxioms.ltb_spec, Prim2SF_zero.
  replace (Prim2SF infinity) with (S754_infinity false) by reflexivity.
  destruct (Prim2SF x) as [s|s| |s m e]; try discriminate.
  - destruct s; discriminate.
  - destruct s; [discriminate|]. intros _ _. now exists m, e.
Qed.

Lemma div_self (x : float) :
  (0 <? x)%float = true -> (x <? infinity)%float = true ->
  (x / x)%float = 1%float.
Proof.
  intros H0 H1. destruct (positive_finite x H0 H1) as [m [e Hx]].
  apply Prim2SF_inj. rewrite FloatAxioms.div_spec, Hx.
  unfold SF64div. rewrite SFdiv_self. reflexivity.
Qed.

(** X26.  On doubles: when a chain has no more than [N] holders, for [N]
    among 10, 25, 50 and 100, and its retail supply, the sum of their
    balances as the code folds it, is above [0] and not [Infinity], the
    entry [topN] of its report counts all its holders, holds the whole
    retail supply, and its percentage is ["100.00"]: the quotient of a
    finite double by itself is [1].  A sum that overflows to [Infinity] is
    outside the statement. *)
Theorem top_n_of_few_holders_is_everything (balances : list float) (n : nat)
    (Hn : In n [10; 25; 50; 100]%nat)
    (Hfew : (List.length balances <= n)%nat)
    (Hpos : (0 <? Binary64.sum_values balances)%float = true)
    (Hfinite : (Binary64.sum_values balances <? infinity)%float = true) :
  topOf64 n (topN64 balances (Binary64.sum_values balances))
  = Some {| count64 := List.length balances;
            balance64 := Binary64.sum_values balances;
            percentage64 := "100.00" |}.
Proof.
  set (s := Binary64.sum_values balances) in *.
  assert (Htop : topOf64 n (topN64 balances s)
                 = Some (topEntry64 balances (or_zero64 s) n)).
  { simpl in Hn. destruct Hn as [<-|[<-|[<-|[<-|[]]]]]; reflexivity. }
  rewrite Htop, (proj1 (or_zero64_positive s) Hpos).
  unfold topEntry64. cbv zeta.
  rewrite (firstn_all2 balances Hfew), Nat.min_r by exact Hfew.
  fold s. rewrite Hpos, (div_self s Hpos Hfinite).
  replace (1 * 100)%float with 100%float by reflexivity.
  assert (Hv : exists q, float_value 100 = Fin q /\ q == 100).
  { eexists. split; [reflexivity|]. vm_compute. reflexivity. }
  destruct Hv as [q [Hq Hq100]].
  rewrite Hq, (toFixed2_hundred q Hq100). reflexivity.
Qed.

(** ** The holders in front are the largest *)

Lemma skipn_In {A : Type} (n : nat) : forall (l : list A) (x : A),
  In x (skipn n l) -> In x l.
Proof.
  induction n as [|n IH]; intros l x H; [exact H|].
  destruct l as [|a l]; [destruct H|]. right. now apply IH.
Qed.

Lemma descending_split (hs : list Holder) (n : nat) :
  Sorted descending hs ->
  forall h h',
    In h (firstn n hs) -> In h' (skipn n hs) ->
    (balance h' <=? balance h)%js = true.
Proof.
  intros Hs. apply Sorted_StronglySorted in Hs.
  - revert n. induction Hs as [|a l Hl IH Ha]; intros n h h' Hh Hh'.
    + destruct n; destruct Hh.
    + destruct n as [|n]; [destruct Hh|].
      cbn [firstn skipn] in Hh, Hh'. destruct Hh as [<-|Hh].
      * rewrite Forall_forall in Ha. apply Ha.
        apply (skipn_In n l h' Hh').
      * now apply (IH n).
  - intros a b c Hab Hbc. unfold descending in *.
    now apply (leb_trans _ (balance b)).
Qed.

(** X27.  The entries [top10], [top25], ... of a chain are taken from the
    front of its holders, and the holders in front are the largest: no
    holder after the first [n] has a larger balance than one among them,
    for every [n] and every input. *)
Theorem first_holders_are_the_largest
    (chainKey chainLabel : string) (rows : list DuneRow) (owners : list Owner)
    (n : nat) :
  (forall h h',
      In h (firstn n (holders (processChain chainKey rows))) ->
      In h' (skipn n (holders (processChain chainKey rows))) ->
      (balance h' <=? balance h)%js = true)
  /\ (forall h h',
        In h (firstn n (holders (fetchChainHolders chainKey chainLabel
                                   owners))) ->
        In h' (skipn n (holders (fetchChainHolders chainKey chainLabel
                                   owners))) ->
        (balance h' <=? balance h)%js = true).
Proof.
  split; apply descending_split.
  - rewrite processChain_views. apply aggregate_holders_sorted.
  - rewrite fetchChainHolders_views. apply aggregate_holders_sorted.
Qed.

(** ** The histogram above a retail threshold of 1,000 *)

Lemma not_gtb_finite (x m : jsnum) :
  JsNum.isNaN x = false -> JsNum.isFinite m = true ->
  (x >? m)%js = false -> (x <? PosInf)%js = true.
Proof.
  unfold JsNum.gtb.
  destruct x as [| |a|], m as [| |b|]; try discriminate; reflexivity.
Qed.

(** X28.  With a retail threshold of at least 1,000 and a finite
    mega-holder threshold, as in the Moralis variant, every holder of a
    chain is in a bucket: the counts of the histogram add up to
    [retailHolderCount]. *)
Theorem bucket_counts_add_up_to_holder_count
    (chainKey chainLabel : string) (rows : list DuneRow) (owners : list Owner)
    (Hretail : (Fin 1000 <=? RETAIL_THRESHOLD cfg)%js = true)
    (Hmega : JsNum.isFinite (MEGA_HOLDER_THRESHOLD cfg) = true) :
  list_sum (map bucket_count
              (distribution (metrics (processChain chainKey rows))))
  = retailHolderCount (processChain chainKey rows)
  /\ list_sum (map bucket_count
                 (distribution
                    (metrics (fetchChainHolders chainKey chainLabel owners))))
     = retailHolderCount (fetchChainHolders chainKey chainLabel owners).
Proof.
  assert (H : forall l vs,
             list_sum (map bucket_count
                         (distribution
                            (metrics (aggregateViews chainKey l vs))))
             = retailHolderCount (aggregateViews chainKey l vs)).
  { intros l vs.
    change (distribution (metrics (aggregateViews chainKey l vs)))
      with (calculateDistribution (holders (aggregateViews chainKey l vs))).
    change (retailHolderCount (aggregateViews chainKey l vs))
      with (List.length (holders (aggregateViews chainKey l vs))).
    rewrite bucket_counts_filter. f_equal. apply forallb_filter_id. apply forallb_forall.
    intros h Hh. apply aggregate_holder_inv in Hh.
    destruct Hh as [v [_ [_ [Hb [_ Hclass]]]]].
    apply classify_retail_inv in Hclass.
    destruct Hclass as [a [_ [_ [Hnan [_ [Hgt Hge]]]]]].
    unfold inSomeBracket. rewrite <- Hb. apply andb_true_iff. split.
    - unfold JsNum.geb in *. now apply (leb_trans _ (RETAIL_THRESHOLD cfg)).
    - now apply (not_gtb_finite _ (MEGA_HOLDER_THRESHOLD cfg)). }
  split.
  - rewrite processChain_views. apply H.
  - rewrite fetchChainHolders_views. apply H.
Qed.

(** ** The end of [waitForCompletion] *)

Lemma clock_at (polls : nat -> Poll) (start pollInterval : Z) :
  clockAdvances polls start pollInterval ->
  forall i, (start + Z.of_nat i * pollInterval <= poll_clock (polls i))%Z.
Proof.
  intros [H0 Hs]. induction i as [|i IH]; [simpl; lia|].
  specialize (Hs i). lia.
Qed.

Lemma waitForCompletionFrom_ends (polls : nat -> Poll)
    (start timeout pollInterval : Z) :
  clockAdvances polls start pollInterval ->
  (0 < pollInterval)%Z ->
  forall fuel i,
    (0 < fuel)%nat ->
    (timeout < (Z.of_nat (i + fuel) - 1) * pollInterval)%Z ->
    exists outcome,
      waitForCompletionFrom fuel polls start timeout i = Some outcome.
Proof.
  intros Hclock Hp. induction fuel as [|fuel IH]; intros i Hpos Hlate;
    [lia|].
  cbn [waitForCompletionFrom].
  destruct (poll_response (polls i)) as [text|state]; [now eexists|].
  cbv zeta.
  destruct (nullish state "" =? "QUERY_STATE_COMPLETED")%string;
    [now eexists|].
  destruct ((nullish state "" =? "QUERY_STATE_FAILED")%string
            || (nullish state "" =? "QUERY_STATE_CANCELLED")%string);
    [now eexists|].
  destruct (Z.gtb_spec (poll_clock (polls i) - start) timeout) as [Hgt|Hle];
    [now eexists|].
  pose proof (clock_at polls start pollInterval Hclock i) as Hi.
  apply IH.
  - destruct fuel; [|lia]. exfalso.
    replace (Z.of_nat (i + 1) - 1)%Z with (Z.of_nat i) in Hlate by lia.
    lia.
  - replace (Z.of_nat (S i + fuel)) with (Z.of_nat (i + S fuel)) by lia.
    exact Hlate.
Qed.

Lemma waitForCompletionFrom_timed_out (polls : nat -> Poll)
    (start timeout : Z) :
  forall fuel i,
    waitForCompletionFrom fuel polls start timeout i = Some TimedOut ->
    exists j, (i <= j)%nat /\ (timeout < poll_clock (polls j) - start)%Z.
Proof.
  induction fuel as [|fuel IH]; intros i H; [discriminate|].
  cbn [waitForCompletionFrom] in H.
  destruct (poll_response (polls i)) as [text|state]; [discriminate|].
  cbv zeta in H.
  destruct (nullish state "" =? "QUERY_STATE_COMPLETED")%string;
    [discriminate|].
  destruct ((nullish state "" =? "QUERY_STATE_FAILED")%string
            || (nullish state "" =? "QUERY_STATE_CANCELLED")%string);
    [discriminate|].
  destruct (Z.gtb_spec (poll_clock (polls i) - start) timeout) as [Hgt|Hle].
  - exists i. split; [lia | exact Hgt].
  - destruct (IH (S i) H) as [j [Hj Hc]]. exists j. split; [lia | exact Hc].
Qed.


End Host.

(** ** Concrete runs *)

Example normalize_escaped_hex :
  normalizeAddress (Some (backslash "x" ++ "ABCD")) = Some "0xabcd"
  /\ normalizeAddress (Some "0xabcd") = Some "0xabcd"
  /\ normalizeAddress (Some "ABCD") = Some "0xabcd"
  /\ normalizeAddress (Some "") = None.
Proof. repeat split. Qed.

Example three_holders_scenario :
  let cfg :=
    {| RETAIL_THRESHOLD := Fin 0; MEGA_HOLDER_THRESHOLD := Fin 1000;
       exclusionSet := []; chainsConfig := [] |} in
  let agg :=
    processChain hostToString cfg "ethereum"
      [duneRow "0xa" (Fin 50); duneRow "0xb" (Fin 0); duneRow "0xc" (Fin 100)] in
  map address (holders agg) = ["0xc"; "0xa"; "0xb"]
  /\ (totalRetailSupply agg === Fin 150)%js = true
  /\ option_map percentage (topOf 10 (metrics agg)) = Some "100.00"
  /\ map bucket_count (distribution (metrics agg)) = [0; 0; 0; 0; 0; 0]%nat.
Proof. repeat split. Qed.

Example mega_holder_scenario :
  let cfg := dune_config [] [] in
  let agg :=
    processChain hostToString cfg "ethereum"
      [duneRow "0xa" (Fin 25000000000)] in
  holders agg = []
  /\ excludedAddresses agg = ["0xa"]
  /\ (nullish (obj_get "ethereum" (excludedBalances agg)) NaN
      === Fin 25000000000)%js = true
  /\ (nullish (obj_get "ethereum" (totalProcessedByChain agg)) NaN
      === Fin 25000000000)%js = true.
Proof. repeat split. Qed.

Example gini_of_10_30 :
  exists g, calculateGiniCoefficient [Fin 30; Fin 10] = Fin g /\ g == 1 # 4.
Proof. eexists. split; [reflexivity | reflexivity]. Qed.

(** *** Instances of the theorems *)

Lemma gini_coefficient_witness :
  Forall (fun v => nonneg_finite v = true) [Fin 30; Fin 10; Fin 0]
  /\ exists g,
       calculateGiniCoefficient [Fin 30; Fin 10; Fin 0] = Fin g
       /\ 0 <= g < 1.
Proof.
  assert (H : Forall (fun v => nonneg_finite v = true) [Fin 30; Fin 10; Fin 0])
    by (repeat constructor).
  split; [exact H|].
  destruct (gini_coefficient_range_and_formula _ H) as [g [H1 [H2 _]]].
  exists g. split; assumption.
Defined.

Lemma denylisted_5000_is_excluded :
  let cfg := moralis_config ["0xDEAD"] [] in
  str_falsy "0xdead" = false
  /\ JsNum.isNaN (Fin 5000) = false
  /\ set_mem string_dec "0xdead" (exclusionSet cfg) = true
  /\ RETAIL_THRESHOLD cfg = Fin 1000
  /\ classify cfg (Some "0xdead") (Fin 5000) = Excluded
  /\ acc_holders (accumulate cfg "Ethereum" acc_init "0xdead" (Fin 5000)) = []
  /\ acc_excludedAddresses
       (accumulate cfg "Ethereum" acc_init "0xdead" (Fin 5000))
     = ["0xdead"].
Proof.
  cbv zeta.
  pose proof (exclusion_precedes_retail_check
                (moralis_config ["0xDEAD"] []) "Ethereum" acc_init
                "0xdead" (Fin 5000) eq_refl eq_refl (or_introl eq_refl))
    as [Hc [[Hh [He _]] _]].
  do 4 (split; [reflexivity|]).
  split; [exact Hc|]. split; [exact Hh | exact He].
Defined.

Lemma dropped_witness :
  let cfg := dune_config [] [] in
  let row := duneRow "0xabc" NaN in
  classifyRow cfg row = Dropped
  /\ processRow cfg "Ethereum" acc_init row = acc_init.
Proof.
  cbv zeta.
  pose proof (dropped_iff_no_address_or_NaN (dune_config [] []) "Ethereum"
                acc_init (duneRow "0xabc" NaN) (moralisOwner "" NaN))
    as [Hiff [_ [Hdrop _]]].
  assert (Hc : classifyRow (dune_config [] []) (duneRow "0xabc" NaN) = Dropped)
    by (apply Hiff; right; reflexivity).
  split; [exact Hc | exact (Hdrop Hc)].
Defined.

Lemma four_classes_witness :
  let cfg := moralis_config ["0xdead"] [] in
  let vs := map (ownerView)
                [moralisOwner "0xa" (Fin 5000); moralisOwner "0xb" (Fin 500);
                 moralisOwner "0xDEAD" (Fin 7000); moralisOwner "" (Fin 1)] in
  List.length vs = 4%nat
  /\ List.length (filter (isClass cfg Retail) vs) = 1%nat
  /\ retailHolderCount (aggregateViews hostToString cfg "ethereum" "Ethereum" vs)
     = 1%nat
  /\ NoDup (excludedAddresses
              (aggregateViews hostToString cfg "ethereum" "Ethereum" vs)).
Proof.
  cbv zeta.
  pose proof (rows_fall_in_four_classes hostToString
                (moralis_config ["0xdead"] []) "ethereum" "Ethereum"
                (map ownerView
                   [moralisOwner "0xa" (Fin 5000); moralisOwner "0xb" (Fin 500);
                    moralisOwner "0xDEAD" (Fin 7000); moralisOwner "" (Fin 1)]))
    as [_ [Hcount [_ [Hnd _]]]].
  do 2 (split; [reflexivity|]).
  split; [exact Hcount | exact Hnd].
Defined.

Lemma holder_balance_witness :
  let cfg := dune_config [] [] in
  let rows := [duneRow "0xa" (Fin 5); duneRow "0xb" (Fin 30000000000)] in
  (RETAIL_THRESHOLD cfg <=? MEGA_HOLDER_THRESHOLD cfg)%js = true
  /\ Forall (fun h =>
               (RETAIL_THRESHOLD cfg <=? balance h)%js = true
               /\ (balance h <=? MEGA_HOLDER_THRESHOLD cfg)%js = true)
            (holders (processChain hostToString cfg "ethereum" rows)).
Proof.
  cbv zeta. split; [reflexivity|].
  exact (proj1 (holder_balance_within_thresholds hostToString
                  (dune_config [] []) "ethereum" "Ethereum"
                  [duneRow "0xa" (Fin 5); duneRow "0xb" (Fin 30000000000)]
                  [] eq_refl)).
Defined.

Lemma combined_witness :
  let cfg := dune_config [] [] in
  let chainResults :=
    [("ethereum", processChain hostToString cfg "ethereum"
                    [duneRow "0xa" (Fin 5); duneRow "0xb" (Fin 7)]);
     ("polygon", processChain hostToString cfg "polygon"
                   [duneRow "0xa" (Fin 6)])] in
  Forall (fun h => JsNum.isNaN (balance h) = false) (allHolders chainResults)
  /\ Sorted descending (holders (buildCombinedDataset hostToString chainResults))
  /\ occurrences "0xa" (holders (buildCombinedDataset hostToString chainResults))
     = 2%nat.
Proof.
  cbv zeta.
  pose proof (combined_holders_are_concatenated hostToString
                [("ethereum", processChain hostToString (dune_config [] [])
                                "ethereum"
                                [duneRow "0xa" (Fin 5); duneRow "0xb" (Fin 7)]);
                 ("polygon", processChain hostToString (dune_config [] [])
                               "polygon" [duneRow "0xa" (Fin 6)])])
    as [_ [_ [Hocc [Hsorted _]]]].
  assert (Hnan : Forall (fun h => JsNum.isNaN (balance h) = false)
                   (allHolders
                      [("ethereum", processChain hostToString (dune_config [] [])
                                      "ethereum"
                                      [duneRow "0xa" (Fin 5); duneRow "0xb" (Fin 7)]);
                       ("polygon", processChain hostToString (dune_config [] [])
                                     "polygon" [duneRow "0xa" (Fin 6)])]))
    by (repeat constructor).
  split; [exact Hnan|]. split; [exact (Hsorted Hnan)|].
  exact (Hocc "0xa").
Defined.


Lemma histogram_witness :
  let hs := [holder "0xa" 2000; holder "0xb" 500] in
  Forall (fun h => nonneg_finite (balance h) = true) hs
  /\ exists d s,
       distributionTotal (calculateDistribution hs) = Fin d
       /\ sum_balances hs = Fin s
       /\ d <= s.
Proof.
  cbv zeta.
  assert (H : Forall (fun h => nonneg_finite (balance h) = true)
                [holder "0xa" 2000; holder "0xb" 500])
    by (repeat constructor).
  split; [exact H|].
  destruct (histogram_total_at_most_supply hostToString _ H) as [d [s [Hd [Hs [Hle _]]]]].
  exists d, s. repeat split; assumption.
Defined.

Lemma std_deviation_witness :
  Forall (fun v => JsNum.isFinite v = true) [Fin 7; Fin 7; Fin 7]
  /\ calculateStdDeviation [Fin 7; Fin 7; Fin 7] = RFin 0%R.
Proof.
  assert (H : Forall (fun v => JsNum.isFinite v = true) [Fin 7; Fin 7; Fin 7])
    by (repeat constructor).
  split; [exact H|].
  destruct (std_deviation_zero_iff_all_equal _ H) as [r [Hr [_ [_ Hz]]]].
  rewrite Hr. f_equal. apply Hz. left.
  intros a b Ha Hb. simpl in Ha, Hb.
  destruct Ha as [<-|[<-|[<-|[]]]], Hb as [<-|[<-|[<-|[]]]]; reflexivity.
Defined.

Lemma absent_balance_witness :
  let cfg := dune_config [] [] in
  let row := {| row_address := Some "0xABC"; telcoin_balance := None;
                amount := None |} in
  let agg := processChain hostToString cfg "ethereum" [row] in
  (telcoin_balance row = None /\ amount row = None)
  /\ rowBalance row = Fin 0
  /\ In {| address := "0xabc"; balance := Fin 0; chain := "ethereum" |}
        (holders agg)
  /\ retailHolderCount agg = 1%nat.
Proof.
  cbv zeta.
  pose proof (absent_balance_is_zero hostToString (dune_config [] [])
                "ethereum" "ethereum" acc_init
                {| row_address := Some "0xABC"; telcoin_balance := None;
                   amount := None |}
                {| owner_address := None; owner_address_alt := None;
                   balance_formatted := None; owner_balance := None |}
                (conj eq_refl eq_refl) (conj eq_refl eq_refl))
    as [Hb [_ [_ [_ Hrow]]]].
  split; [split; reflexivity|]. split; [exact Hb|].
  destruct (Hrow "0xabc" eq_refl) as [_ [_ [_ Hret]]].
  pose proof (Hret eq_refl eq_refl eq_refl) as Hr. cbv zeta in Hr.
  destruct Hr as [_ [_ Hagg]].
  pose proof (Hagg [ {| row_address := Some "0xABC"; telcoin_balance := None;
                        amount := None |} ] (or_introl eq_refl)) as Ha.
  cbv zeta in Ha.
  destruct Ha as [Hin Hcount].
  split; [exact Hin | exact Hcount].
Defined.

(** *** Where the code departs from the description *)

(** A row with an address and the balance [+Infinity]: the balance is not
    a finite number, yet the row is not dropped.  It is excluded as a
    mega-holder, and the processed total becomes [+Infinity]. *)
Lemma infinite_balance_is_not_dropped :
  let cfg := dune_config [] [] in
  let row := duneRow "0xabc" PosInf in
  let agg := processChain hostToString cfg "ethereum" [row] in
  ~ (classifyRow cfg row = Dropped
     <-> normalizeAddress (row_address row) = None
         \/ JsNum.isFinite (rowBalance row) = false)
  /\ JsNum.isFinite (rowBalance row) = false
  /\ classifyRow cfg row = Excluded
  /\ processRow cfg "ethereum" acc_init row <> acc_init
  /\ excludedAddresses agg = ["0xabc"]
  /\ excludedBalances agg = [("ethereum", PosInf)]
  /\ totalProcessedByChain agg = [("ethereum", PosInf)].
Proof.
  cbv zeta. split.
  - intros [_ H]. specialize (H (or_intror eq_refl)). discriminate H.
  - repeat split. intros H. discriminate H.
Qed.

(** An owner with an address and the balance 500 under the retail
    threshold 1,000: it becomes no holder, its address is not excluded,
    and it is not dropped, for it adds 500 to the processed total. *)
Lemma sub_threshold_row_is_in_no_class :
  let cfg := moralis_config [] [] in
  let owner := moralisOwner "0xabc" (Fin 500) in
  let agg := fetchChainHolders hostToString cfg "ethereum" "Ethereum" [owner] in
  holders agg = []
  /\ excludedAddresses agg = []
  /\ ownerAddress owner = "0xabc"
  /\ JsNum.isNaN (ownerBalance owner) = false
  /\ classifyOwner cfg owner = SubThreshold
  /\ (nullish (obj_get "ethereum" (totalProcessedByChain agg)) NaN
      === Fin 500)%js = true.
Proof. cbv zeta. repeat split. Qed.

(** The same address held on two chains occurs twice in the combined
    holder list. *)
Lemma combined_holders_repeat_an_address :
  let cfg := dune_config [] [] in
  let chainResults :=
    [("ethereum", processChain hostToString cfg "ethereum"
                    [duneRow "0xabc" (Fin 100)]);
     ("polygon", processChain hostToString cfg "polygon"
                   [duneRow "0xABC" (Fin 250)])] in
  let combined := buildCombinedDataset hostToString chainResults in
  map address (holders combined) = ["0xabc"; "0xabc"]
  /\ map chain (holders combined) = ["polygon"; "ethereum"]
  /\ retailHolderCount combined = 2%nat
  /\ ~ NoDup (map address (holders combined)).
Proof.
  cbv zeta. repeat split.
  intros H. inversion H as [|x l Hnotin _]; subst.
  apply Hnotin. left. reflexivity.
Qed.

(** Holders 2,000 and 0: the histogram total equals the sum of the
    balances although one holder is below 1,000. *)
Lemma histogram_equality_with_zero_balance :
  let hs := [holder "0xa" 2000; holder "0xb" 0] in
  exists d s,
    distributionTotal (calculateDistribution hs) = Fin d
    /\ sum_balances hs = Fin s
    /\ d == s
    /\ ~ Forall (fun h => (balance h >=? Fin 1000)%js = true) hs.
Proof.
  cbv zeta. eexists. eexists.
  split; [reflexivity|]. split; [reflexivity|]. split; [reflexivity|].
  intros H. inversion H as [|? ? _ H']; subst.
  inversion H' as [|? ? Hb _]; subst. discriminate Hb.
Qed.

(** Rows without a balance field under the retail threshold 0: one with a
    denylisted address is excluded and becomes no holder; one without an
    address is dropped. *)
Lemma absent_balance_row_is_not_always_a_holder :
  let cfg := dune_config ["0xDEAD"] [] in
  let denylisted :=
    {| row_address := Some "0xdead"; telcoin_balance := None;
       amount := None |} in
  let anonymous :=
    {| row_address := None; telcoin_balance := None; amount := None |} in
  let agg := processChain hostToString cfg "ethereum" [denylisted; anonymous] in
  RETAIL_THRESHOLD cfg = Fin 0
  /\ holders agg = []
  /\ retailHolderCount agg = 0%nat
  /\ excludedAddresses agg = ["0xdead"]
  /\ classifyRow cfg denylisted = Excluded
  /\ classifyRow cfg anonymous = Dropped.
Proof. cbv zeta. repeat split. Qed.


(** Where no rounding occurs the two embeddings agree. *)
Example statistics_on_doubles :
  Binary64.calculateGiniCoefficient [30; 10]%float = 0.25%float
  /\ Binary64.calculateGiniCoefficient [] = 0%float
  /\ Binary64.calculateStdDeviation [2; 4; 4; 4; 5; 5; 7; 9]%float = 2%float
  /\ Binary64.calculateStdDeviation [] = 0%float.
Proof. repeat split; vm_compute; reflexivity. Qed.

(** Three balances of 0.3 each, on doubles: the total is
    0.8999999999999999 and the coefficient comes out as about -2.96e-16,
    below [0], although the balances are equal. *)
Lemma gini_of_equal_doubles_is_negative :
  let b := (3 / 10)%float in
  (Binary64.calculateGiniCoefficient [b; b; b] <? 0)%float = true
  /\ (Binary64.calculateGiniCoefficient [b; b; b] =? 0)%float = false.
Proof. cbv zeta. split; vm_compute; reflexivity. Qed.

(** Three balances of 0.1 each, on doubles: the mean comes out as
    0.10000000000000002 and the deviation as about 1.39e-17, not [0],
    although the balances are equal. *)
Lemma std_deviation_of_equal_doubles_is_not_zero :
  let b := (1 / 10)%float in
  (Binary64.calculateStdDeviation [b; b; b] =? 0)%float = false
  /\ (0 <? Binary64.calculateStdDeviation [b; b; b])%float = true.
Proof. cbv zeta. split; vm_compute; reflexivity. Qed.

(** *** Instances of the further properties *)

Lemma denylist_witness :
  let cfg := dune_config ["0xDEAD"] [] in
  let row := duneRow "0XDEAD" (Fin 5) in
  exclusionSet cfg = mkExclusionSet ["0xDEAD"]
  /\ normalizeAddress (row_address row) = Some "0xdead"
  /\ classifyRow cfg row = Excluded.
Proof.
  cbv zeta. split; [reflexivity|]. split; [reflexivity|].
  destruct (denylist_matches_0x_entries (dune_config ["0xDEAD"] [])
              ["0xDEAD"] (duneRow "0XDEAD" (Fin 5)) "0xdead"
              eq_refl eq_refl) as [_ H].
  apply H; reflexivity.
Defined.

Lemma chain_totals_witness :
  let cfg := moralis_config ["0xDEAD"] [] in
  let rows := [duneRow "0xa" (Fin 5000); duneRow "0xb" (Fin 500);
               duneRow "0xdead" (Fin 7000); duneRow "0xc" NaN] in
  let owners := [moralisOwner "0xa" (Fin 5000)] in
  Forall (fun row => no_infinity (rowBalance row) = true) rows
  /\ Forall (fun owner => no_infinity (ownerBalance owner) = true) owners
  /\ totalsSplit cfg (processChain hostToString cfg "ethereum" rows)
       "ethereum" (map rowView rows).
Proof.
  cbv zeta.
  assert (Hr : Forall (fun row => no_infinity (rowBalance row) = true)
                 [duneRow "0xa" (Fin 5000); duneRow "0xb" (Fin 500);
                  duneRow "0xdead" (Fin 7000); duneRow "0xc" NaN])
    by (repeat constructor).
  assert (Ho : Forall (fun owner => no_infinity (ownerBalance owner) = true)
                 [moralisOwner "0xa" (Fin 5000)])
    by (repeat constructor).
  split; [exact Hr|]. split; [exact Ho|].
  exact (proj1 (chain_totals_split hostToString
                  (moralis_config ["0xDEAD"] []) "ethereum" "Ethereum"
                  _ _ Hr Ho)).
Defined.

Lemma combined_supply_witness :
  let cfg := dune_config [] [] in
  let chainResults :=
    [("ethereum", processChain hostToString cfg "ethereum"
                    [duneRow "0xa" (Fin 5); duneRow "0xb" (Fin 7)]);
     ("polygon", processChain hostToString cfg "polygon"
                   [duneRow "0xa" (Fin 6)])] in
  Forall (fun e => totalRetailSupply (snd e)
                   = sum_balances (holders (snd e))) chainResults
  /\ Forall (fun e => Forall (fun h => JsNum.isFinite (balance h) = true)
                             (holders (snd e))) chainResults
  /\ exists a,
       totalRetailSupply (buildCombinedDataset hostToString chainResults)
       = Fin a
       /\ a == 18.
Proof.
  cbv zeta.
  set (chainResults :=
         [("ethereum", processChain hostToString (dune_config [] [])
                         "ethereum"
                         [duneRow "0xa" (Fin 5); duneRow "0xb" (Fin 7)]);
          ("polygon", processChain hostToString (dune_config [] [])
                        "polygon" [duneRow "0xa" (Fin 6)])]).
  assert (Hs : Forall (fun e => totalRetailSupply (snd e)
                                = sum_balances (holders (snd e)))
                 chainResults)
    by (repeat constructor).
  assert (Hf : Forall (fun e =>
                         Forall (fun h => JsNum.isFinite (balance h) = true)
                                (holders (snd e))) chainResults)
    by (repeat constructor).
  split; [exact Hs|]. split; [exact Hf|].
  destruct (combined_supply_is_sum_of_holders hostToString chainResults
              Hs Hf) as [a [b [Ha [_ [_ Hsum]]]]].
  exists a. split; [exact Ha|]. rewrite Hsum. reflexivity.
Defined.

Lemma combined_maps_witness :
  let cfg := dune_config [] [] in
  let chainResults :=
    [("ethereum", processChain hostToString cfg "ethereum"
                    [duneRow "0xa" (Fin 5); duneRow "0xb" (Fin 30000000000)]);
     ("polygon", processChain hostToString cfg "polygon"
                   [duneRow "0xa" (Fin 6)])] in
  let x := fun e : string * ChainAggregate =>
             nullish (obj_get (fst e) (excludedBalances (snd e))) NaN in
  let t := fun e : string * ChainAggregate =>
             nullish (obj_get (fst e) (totalProcessedByChain (snd e))) NaN in
  NoDup (map fst chainResults)
  /\ Forall (fun e => inherited (fst e) = false) chainResults
  /\ Forall (fun e => excludedBalances (snd e) = [(fst e, x e)]) chainResults
  /\ Forall (fun e => totalProcessedByChain (snd e) = [(fst e, t e)])
            chainResults
  /\ map fst (excludedBalances
                (buildCombinedDataset hostToString chainResults))
     = ["ethereum"; "polygon"].
Proof.
  cbv zeta.
  set (chainResults :=
         [("ethereum", processChain hostToString (dune_config [] [])
                         "ethereum"
                         [duneRow "0xa" (Fin 5);
                          duneRow "0xb" (Fin 30000000000)]);
          ("polygon", processChain hostToString (dune_config [] [])
                        "polygon" [duneRow "0xa" (Fin 6)])]).
  set (x := fun e : string * ChainAggregate =>
              nullish (obj_get (fst e) (excludedBalances (snd e))) NaN).
  set (t := fun e : string * ChainAggregate =>
              nullish (obj_get (fst e) (totalProcessedByChain (snd e))) NaN).
  assert (Hk : NoDup (map fst chainResults)).
  { constructor; [intros [H|[]]; discriminate H|].
    constructor; [intros []|constructor]. }
  assert (Hp : Forall (fun e => inherited (fst e) = false) chainResults)
    by (repeat constructor).
  assert (Hx : Forall (fun e => excludedBalances (snd e) = [(fst e, x e)])
                 chainResults)
    by (repeat constructor).
  assert (Ht : Forall (fun e => totalProcessedByChain (snd e)
                                = [(fst e, t e)]) chainResults)
    by (repeat constructor).
  split; [exact Hk|]. split; [exact Hp|]. split; [exact Hx|].
  split; [exact Ht|].
  rewrite (proj1 (combined_keeps_each_chains_totals hostToString
                    chainResults x t Hk Hp Hx Ht)).
  reflexivity.
Defined.

Lemma main_payload_witness :
  let cfg := dune_config [] [("ethereum", Some "Ethereum"); ("polygon", None)] in
  let rows :=
    [ {| blockchain := Some "Ethereum"; chain_tag := None;
         fields := duneRow "0xa" (Fin 5) |};
      {| blockchain := None; chain_tag := Some "solana";
         fields := duneRow "0xb" (Fin 7) |} ] in
  rows <> []
  /\ Forall (fun r => inherited (rowChainKey r) = false) rows
  /\ Forall (fun k => inherited k = false) (chainOrderOf cfg)
  /\ NoDup (chainOrderOf cfg)
  /\ exists p,
       mainPayload hostToString cfg "2024-01-01T00:00:00.000Z" rows = inr p
       /\ chains p
          = [("ethereum", processChain hostToString cfg "ethereum"
                            [duneRow "0xa" (Fin 5)]);
             ("polygon", processChain hostToString cfg "polygon" [])].
Proof.
  cbv zeta.
  set (cfg := dune_config []
                [("ethereum", Some "Ethereum"); ("polygon", None)]).
  set (rows :=
         [ {| blockchain := Some "Ethereum"; chain_tag := None;
              fields := duneRow "0xa" (Fin 5) |};
           {| blockchain := None; chain_tag := Some "solana";
              fields := duneRow "0xb" (Fin 7) |} ]).
  assert (Hrows : rows <> []) by discriminate.
  assert (Htags : Forall (fun r => inherited (rowChainKey r) = false) rows)
    by (repeat constructor).
  assert (Hkeys : Forall (fun k => inherited k = false) (chainOrderOf cfg))
    by (repeat constructor).
  assert (Hd : NoDup (chainOrderOf cfg)).
  { constructor; [intros [H|[]]; discriminate H|].
    constructor; [intros []|constructor]. }
  split; [exact Hrows|]. split; [exact Htags|]. split; [exact Hkeys|].
  split; [exact Hd|].
  destruct (main_payload hostToString cfg "2024-01-01T00:00:00.000Z" rows
              Hrows Htags Hkeys Hd) as [p [Hp [Hc _]]].
  exists p. split; [exact Hp|]. rewrite Hc. reflexivity.
Defined.

Lemma capital_key_witness :
  let cfg := dune_config [] [("Ethereum", None)] in
  let rows :=
    [ {| blockchain := Some "Ethereum"; chain_tag := None;
         fields := duneRow "0xa" (Fin 5) |} ] in
  let chainResults :=
    [("Ethereum", processChain hostToString cfg "Ethereum" [])] in
  let p :=
    {| generatedAt := "2024-01-01T00:00:00.000Z";
       thresholds_retail := Fin 0;
       thresholds_megaHolder := Fin 20000000000;
       totals_totalSupply := Fin 92577234366;
       chains := chainResults;
       combined := buildCombinedDataset hostToString chainResults;
       chainOrder := ["Ethereum"] |} in
  mainPayload hostToString cfg "2024-01-01T00:00:00.000Z" rows = inr p
  /\ In "Ethereum" (chainOrderOf cfg)
  /\ toLowerCase "Ethereum" <> "Ethereum"
  /\ chainRows "Ethereum" rows = []
  /\ holders (processChain hostToString cfg "Ethereum" []) = [].
Proof.
  cbv zeta.
  set (cfg := dune_config [] [("Ethereum", None)]).
  set (rows :=
         [ {| blockchain := Some "Ethereum"; chain_tag := None;
              fields := duneRow "0xa" (Fin 5) |} ]).
  set (p :=
         {| generatedAt := "2024-01-01T00:00:00.000Z";
            thresholds_retail := Fin 0;
            thresholds_megaHolder := Fin 20000000000;
            totals_totalSupply := Fin 92577234366;
            chains := [("Ethereum", processChain hostToString cfg "Ethereum" [])];
            combined :=
              buildCombinedDataset hostToString
                [("Ethereum", processChain hostToString cfg "Ethereum" [])];
            chainOrder := ["Ethereum"] |}).
  assert (Hp : mainPayload hostToString cfg "2024-01-01T00:00:00.000Z" rows
               = inr p) by reflexivity.
  assert (Hin : In "Ethereum" (chainOrderOf cfg)) by (left; reflexivity).
  assert (Hcase : toLowerCase "Ethereum" <> "Ethereum")
    by (intros H; discriminate H).
  split; [exact Hp|]. split; [exact Hin|]. split; [exact Hcase|].
  destruct (chain_key_not_in_lower_case_gets_no_rows hostToString cfg
              "2024-01-01T00:00:00.000Z" rows p "Ethereum" Hp Hin Hcase)
    as [H1 [_ [H2 _]]].
  split; [exact H1 | exact H2].
Defined.

Lemma fetchResults_witness :
  let row := fun a => {| blockchain := Some "ethereum"; chain_tag := None;
                         fields := duneRow a (Fin 1) |} in
  let table := [row "0xa"; row "0xb"; row "0xc"] in
  servesTable (pagingServer table 2) table 2
  /\ (0 < 2)%nat
  /\ (List.length table <= 2 * 2)%nat
  /\ fetchResults 2 (pagingServer table 2) = Some (inr table).
Proof.
  cbv zeta.
  set (table :=
         [ {| blockchain := Some "ethereum"; chain_tag := None;
              fields := duneRow "0xa" (Fin 1) |};
           {| blockchain := Some "ethereum"; chain_tag := None;
              fields := duneRow "0xb" (Fin 1) |};
           {| blockchain := Some "ethereum"; chain_tag := None;
              fields := duneRow "0xc" (Fin 1) |} ]).
  assert (Hs : servesTable (pagingServer table 2) table 2).
  { intros offset. eexists. split; [reflexivity|]. split; [reflexivity|].
    unfold nextOffsetOf. cbn [next_offset].
    destruct (offset + 2 <? List.length table)%nat; reflexivity. }
  assert (Hf : (0 < 2)%nat) by lia.
  assert (He : (List.length table <= 2 * 2)%nat) by (simpl; lia).
  split; [exact Hs|]. split; [exact Hf|]. split; [exact He|].
  exact (fetchResults_returns_the_table (pagingServer table 2) table 2 2
           Hs Hf He).
Defined.

Lemma fetchResults_no_bound_witness :
  (forall offset, exists page,
      endlessServer offset = inr page /\ nextOffsetOf page <> None)
  /\ fetchResults 1000 endlessServer = None.
Proof.
  assert (Hs : forall offset, exists page,
             endlessServer offset = inr page /\ nextOffsetOf page <> None).
  { intros offset. eexists. split; [reflexivity | discriminate]. }
  split; [exact Hs|].
  exact (fetchResults_has_no_bound endlessServer Hs 1000%nat).
Defined.

Lemma early_end_witness :
  let cfg := moralis_config ["0xdead"] [] in
  let pages :=
    [ {| result := Some [moralisOwner "0xa" (Fin 5000);
                         moralisOwner "0xb" (Fin 500)];
         cursor := Some "next" |};
      {| result := Some [moralisOwner "0xdead" (Fin 100)];
         cursor := None |} ] in
  Sorted richerFirst (pagedOwners pages)
  /\ List.length (fetchedOwners cfg pages) = 2%nat
  /\ List.length (pagedOwners pages) = 3%nat
  /\ holders (fetchChainHoldersPaged hostToString cfg "eth" "Ethereum" pages)
     = holders (fetchChainHolders hostToString cfg "eth" "Ethereum"
                  (pagedOwners pages)).
Proof.
  cbv zeta.
  set (cfg := moralis_config ["0xdead"] []).
  set (pages :=
         [ {| result := Some [moralisOwner "0xa" (Fin 5000);
                              moralisOwner "0xb" (Fin 500)];
              cursor := Some "next" |};
           {| result := Some [moralisOwner "0xdead" (Fin 100)];
              cursor := None |} ]).
  assert (Hs : Sorted richerFirst (pagedOwners pages))
    by (repeat constructor).
  split; [exact Hs|]. split; [reflexivity|]. split; [reflexivity|].
  exact (proj1 (early_end_keeps_every_holder hostToString cfg "eth"
                  "Ethereum" pages Hs)).
Defined.

Lemma gini_mean_difference_witness :
  Forall (fun v => JsNum.isFinite v = true) [Fin 30; Fin 10]
  /\ [Fin 30; Fin 10] <> []
  /\ ~ qsum (map qval [Fin 30; Fin 10]) == 0
  /\ exists g,
       calculateGiniCoefficient [Fin 30; Fin 10] = Fin g
       /\ g == 1 # 4.
Proof.
  assert (Hf : Forall (fun v => JsNum.isFinite v = true) [Fin 30; Fin 10])
    by (repeat constructor).
  assert (Hn : [Fin 30; Fin 10] <> []) by discriminate.
  assert (Hs : ~ qsum (map qval [Fin 30; Fin 10]) == 0)
    by (intros H; discriminate H).
  split; [exact Hf|]. split; [exact Hn|]. split; [exact Hs|].
  destruct (gini_is_half_relative_mean_difference _ Hf Hn Hs) as [g [Hg He]].
  exists g. split; [exact Hg|]. rewrite He. reflexivity.
Defined.

Lemma gini_order_witness :
  Forall (fun v => JsNum.isFinite v = true) [Fin 30; Fin 10]
  /\ Permutation [Fin 30; Fin 10] [Fin 10; Fin 30]
  /\ exists g g',
       calculateGiniCoefficient [Fin 30; Fin 10] = Fin g
       /\ calculateGiniCoefficient [Fin 10; Fin 30] = Fin g'
       /\ g == g'.
Proof.
  assert (Hf : Forall (fun v => JsNum.isFinite v = true) [Fin 30; Fin 10])
    by (repeat constructor).
  assert (Hp : Permutation [Fin 30; Fin 10] [Fin 10; Fin 30])
    by apply perm_swap.
  split; [exact Hf|]. split; [exact Hp|].
  exact (gini_does_not_depend_on_order _ _ Hf Hp).
Defined.

Lemma gini_zero_witness :
  Forall (fun v => JsNum.isFinite v = true) [Fin 7; Fin 7]
  /\ ~ qsum (map qval [Fin 7; Fin 7]) == 0
  /\ exists g, calculateGiniCoefficient [Fin 7; Fin 7] = Fin g /\ g == 0.
Proof.
  assert (Hf : Forall (fun v => JsNum.isFinite v = true) [Fin 7; Fin 7])
    by (repeat constructor).
  assert (Hs : ~ qsum (map qval [Fin 7; Fin 7]) == 0)
    by (intros H; discriminate H).
  split; [exact Hf|]. split; [exact Hs|].
  destruct (gini_zero_iff_all_equal _ Hf Hs) as [g [Hg Hz]].
  exists g. split; [exact Hg|]. apply Hz.
  intros a b Ha Hb. simpl in Ha, Hb.
  destruct Ha as [<-|[<-|[]]], Hb as [<-|[<-|[]]]; reflexivity.
Defined.

Lemma gini_bound_witness :
  Forall (fun v => nonneg_finite v = true) [Fin 30; Fin 0; Fin 0]
  /\ [Fin 30; Fin 0; Fin 0] <> []
  /\ exists g,
       calculateGiniCoefficient [Fin 30; Fin 0; Fin 0] = Fin g
       /\ g <= 2 # 3.
Proof.
  assert (Hf : Forall (fun v => nonneg_finite v = true)
                 [Fin 30; Fin 0; Fin 0])
    by (repeat constructor).
  assert (Hn : [Fin 30; Fin 0; Fin 0] <> []) by discriminate.
  split; [exact Hf|]. split; [exact Hn|].
  destruct (gini_at_most_one_minus_inverse_count _ Hf Hn) as [g [Hg Hb]].
  exists g. split; [exact Hg|].
  eapply Qle_trans; [exact Hb|]. discriminate.
Defined.

Lemma gini_unit_witness :
  Forall (fun v => JsNum.isFinite v = true) [Fin 30; Fin 10]
  /\ 0 < 1000
  /\ exists g g',
       calculateGiniCoefficient [Fin 30; Fin 10] = Fin g
       /\ calculateGiniCoefficient [Fin 30000; Fin 10000] = Fin g'
       /\ g == g'.
Proof.
  assert (Hf : Forall (fun v => JsNum.isFinite v = true) [Fin 30; Fin 10])
    by (repeat constructor).
  assert (Hc : 0 < 1000) by reflexivity.
  split; [exact Hf|]. split; [exact Hc|].
  destruct (gini_does_not_depend_on_unit _ 1000 Hf Hc)
    as [g [g' [Hg [Hg' He]]]].
  exists g, g'. split; [exact Hg|]. split; [|exact He].
  rewrite <- Hg'. reflexivity.
Defined.

Lemma std_deviation_order_witness :
  Forall (fun v => JsNum.isFinite v = true) [Fin 1; Fin 2; Fin 4]
  /\ Permutation [Fin 1; Fin 2; Fin 4] [Fin 2; Fin 1; Fin 4]
  /\ calculateStdDeviation [Fin 1; Fin 2; Fin 4]
     = calculateStdDeviation [Fin 2; Fin 1; Fin 4].
Proof.
  assert (Hf : Forall (fun v => JsNum.isFinite v = true)
                 [Fin 1; Fin 2; Fin 4])
    by (repeat constructor).
  assert (Hp : Permutation [Fin 1; Fin 2; Fin 4] [Fin 2; Fin 1; Fin 4])
    by apply perm_swap.
  split; [exact Hf|]. split; [exact Hp|].
  exact (std_deviation_does_not_depend_on_order _ _ Hf Hp).
Defined.

Lemma std_deviation_level_witness :
  Forall (fun v => JsNum.isFinite v = true) [Fin 1; Fin 2; Fin 4]
  /\ calculateStdDeviation
       (map (fun v => (v + Fin 100)%js) [Fin 1; Fin 2; Fin 4])
     = calculateStdDeviation [Fin 1; Fin 2; Fin 4].
Proof.
  assert (Hf : Forall (fun v => JsNum.isFinite v = true)
                 [Fin 1; Fin 2; Fin 4])
    by (repeat constructor).
  split; [exact Hf|].
  exact (std_deviation_does_not_depend_on_level _ 100 Hf).
Defined.

Lemma top_n_of_few_holders_witness :
  let balances := [100; 50; 0.5]%float in
  In 10%nat [10; 25; 50; 100]%nat
  /\ (List.length balances <= 10)%nat
  /\ (0 <? Binary64.sum_values balances)%float = true
  /\ (Binary64.sum_values balances <? infinity)%float = true
  /\ option_map percentage64
       (topOf64 10 (topN64 hostToString balances
                      (Binary64.sum_values balances)))
     = Some "100.00".
Proof.
  cbv zeta.
  assert (Hin : In 10%nat [10; 25; 50; 100]%nat) by (left; reflexivity).
  assert (Hfew : (List.length [100; 50; 0.5]%float <= 10)%nat)
    by (simpl; lia).
  assert (Hpos : (0 <? Binary64.sum_values [100; 50; 0.5])%float = true)
    by reflexivity.
  assert (Hfinite : (Binary64.sum_values [100; 50; 0.5] <? infinity)%float
                    = true) by reflexivity.
  split; [exact Hin|]. split; [exact Hfew|]. split; [exact Hpos|].
  split; [exact Hfinite|].
  rewrite (top_n_of_few_holders_is_everything hostToString _ 10
             Hin Hfew Hpos Hfinite).
  reflexivity.
Defined.

(** Two balances of [2^1023]: every balance is finite and the sum
    overflows; the supply is [Infinity] and the percentage ["NaN"]. *)
Example overflowing_supply :
  let big := 0x1p+1023%float in
  Binary64.sum_values [big; big] = infinity
  /\ option_map percentage64
       (topOf64 10 (topN64 hostToString [big; big]
                      (Binary64.sum_values [big; big])))
     = Some "NaN".
Proof. cbv zeta. split; vm_compute; reflexivity. Qed.

Lemma bucket_counts_witness :
  let cfg := moralis_config [] [] in
  let owners := [moralisOwner "0xa" (Fin 5000); moralisOwner "0xb" (Fin 500);
                 moralisOwner "0xc" (Fin 2000000)] in
  (Fin 1000 <=? RETAIL_THRESHOLD cfg)%js = true
  /\ JsNum.isFinite (MEGA_HOLDER_THRESHOLD cfg) = true
  /\ list_sum (map bucket_count
                 (distribution
                    (metrics (fetchChainHolders hostToString cfg "eth"
                                "Ethereum" owners))))
     = retailHolderCount
         (fetchChainHolders hostToString cfg "eth" "Ethereum" owners).
Proof.
  cbv zeta. split; [reflexivity|]. split; [reflexivity|].
  exact (proj2 (bucket_counts_add_up_to_holder_count hostToString
                  (moralis_config [] []) "eth" "Ethereum" [] _
                  eq_refl eq_refl)).
Defined.

